(** * 12Caster: signaling hub and mesh controller

    A shallow embedding of the WebSocket signaling server
    ([server/index.ts]) and of the participant-side hook
    ([client/src/hooks/useWebSocket.ts]), with the properties of the
    design document checked against them, and of the forms and indicators
    of the page ([client/src/App.tsx]) and the list of media elements
    ([client/src/components/VideoGrids.tsx]), with what the code itself
    guarantees at its edges.

    Conventions of the embedding.
    - A [WebSocket] object is a [Channel] (a natural number naming the
      object); its [readyState] is kept next to it in [wss_clients].
    - JavaScript strings are [string]s whose characters are the code units
      below 256.  JSON numbers are integers; the code looks at a number
      only for its truth value.
    - [Math.random] and [Date.now] are inputs of the event that calls them.
    - [ws.send(JSON.stringify (msg))] appends [(ws, msg)] to the [outbox];
      the JSON text itself is not modelled, and objects are compared up to
      the order in which [JSON.stringify] would enumerate their keys.
    - Both programs are event handlers run one at a time.  The server is a
      function from a state and an event to the next state, [None] when
      the handler raises an error nobody catches.  The hook is a function
      of the same kind whose events include the running of a timer and the
      settling of a promise; there is no clock, a pending timer runs when
      its event comes. *)

From Stdlib Require Import Ascii String.
From stdpp Require Import base numbers option list strings gmap.

Local Open Scope string_scope.
Local Open Scope list_scope.
Local Open Scope nat_scope.

(** ** JSON values *)

#[local] Set Warnings "-register-all".

Inductive JSON : Type :=
| JNull
| JBool (b : bool)
| JNum (n : Z)
| JStr (s : string)
| JArr (items : list JSON)
| JObj (fields : list (string * JSON)).

Module Js.

(** [o[k]] for a parsed value: [None] is [undefined].  Only the property
    names [type], [username], [text], [targetUserId], [senderUserId],
    [senderUsername] and [userId] are ever read, none of which exists on
    the prototypes of strings, numbers, booleans or arrays. *)
Fixpoint lookup_field (k : string) (fs : list (string * JSON)) : option JSON :=
  match fs with
  | [] => None
  | (k', v) :: fs' => if decide (k = k') then Some v else lookup_field k fs'
  end.

Definition prop (o : JSON) (k : string) : option JSON :=
  match o with
  | JObj fs => lookup_field k fs
  | _ => None
  end.

(** Assignment of a key inside an object literal: an existing key keeps
    its place and takes the new value, a new key is added. *)
Fixpoint set_field (k : string) (v : JSON) (fs : list (string * JSON))
  : list (string * JSON) :=
  match fs with
  | [] => [(k, v)]
  | (k', v') :: fs' =>
      if decide (k = k') then (k, v) :: fs' else (k', v') :: set_field k v fs'
  end.

(** [{...o}]: the own enumerable properties of [o]. *)
Definition spread (o : JSON) : list (string * JSON) :=
  match o with
  | JObj fs => fs
  | _ => []
  end.

(** [x === 'lit'] for a possibly undefined [x]. *)
Definition is_str (x : option JSON) (lit : string) : bool :=
  match x with
  | Some (JStr s) => bool_decide (s = lit)
  | _ => false
  end.

(** Truthiness of a possibly undefined JSON value. *)
Definition truthy (x : option JSON) : bool :=
  match x with
  | None | Some JNull => false
  | Some (JBool b) => b
  | Some (JNum n) => negb (n =? 0)%Z
  | Some (JStr s) => negb (bool_decide (s = ""))
  | Some (JArr _) | Some (JObj _) => true
  end.

(** [x || d]. *)
Definition or_else (x : option JSON) (d : JSON) : JSON :=
  match x with
  | Some v => if truthy x then v else d
  | None => d
  end.

(** White space of [String.prototype.trim] among the code units below
    256: TAB, LF, VT, FF, CR, SP and NBSP. *)
Definition is_space (c : ascii) : bool :=
  let n := nat_of_ascii c in
  (Nat.leb 9 n && Nat.leb n 13) || Nat.eqb n 32 || Nat.eqb n 160.

Fixpoint trim_start (s : string) : string :=
  match s with
  | String c s' => if is_space c then trim_start s' else s
  | EmptyString => EmptyString
  end.

Fixpoint trim_end (s : string) : string :=
  match s with
  | String c s' =>
      match trim_end s' with
      | EmptyString => if is_space c then EmptyString else String c EmptyString
      | t => String c t
      end
  | EmptyString => EmptyString
  end.

Definition trim (s : string) : string := trim_end (trim_start s).

(** A message refers to a peer id when one of its objects, at any depth,
    carries the id under one of the keys the protocol uses for ids. *)
Definition id_key (k : string) : bool :=
  bool_decide (k = "userId") || bool_decide (k = "senderUserId")
  || bool_decide (k = "targetUserId").

Fixpoint refers_to (id : string) (j : JSON) : bool :=
  match j with
  | JArr items => existsb (refers_to id) items
  | JObj fields =>
      existsb (λ kv, match kv with
                     | (k, v) => (id_key k && is_str (Some v) id) || refers_to id v
                     end) fields
  | _ => false
  end.

End Js.

(** ** [Map] objects whose iteration order is observed

    [set] keeps the place of a key that is already present and appends a
    new one; [values] enumerates in insertion order. *)

Module JSMap.
Section ops.
Context {K V : Type} `{EqDecision K}.

Fixpoint get (k : K) (m : list (K * V)) : option V :=
  match m with
  | [] => None
  | (k', v) :: m' => if decide (k = k') then Some v else get k m'
  end.

Fixpoint set (k : K) (v : V) (m : list (K * V)) : list (K * V) :=
  match m with
  | [] => [(k, v)]
  | (k', v') :: m' =>
      if decide (k = k') then (k, v) :: m' else (k', v') :: set k v m'
  end.

Fixpoint delete (k : K) (m : list (K * V)) : list (K * V) :=
  match m with
  | [] => []
  | (k', v') :: m' =>
      if decide (k = k') then m' else (k', v') :: delete k m'
  end.

Definition has (k : K) (m : list (K * V)) : bool :=
  match get k m with Some _ => true | None => false end.

Definition keys (m : list (K * V)) : list K := map fst m.
Definition values (m : list (K * V)) : list V := map snd m.
Definition size (m : list (K * V)) : nat := length m.
End ops.
End JSMap.

(** ** The signaling hub ([server/index.ts]) *)

Module Hub.

Definition Channel := nat.

Inductive ReadyState := CONNECTING | OPEN | CLOSING | CLOSED.

#[global] Instance ReadyState_eq_dec : EqDecision ReadyState.
Proof. solve_decision. Defined.

Record ClientInfo := { ci_username : string; ci_userId : string }.

Record ConnectedUser :=
  { cu_userId : string; cu_username : string; cu_ws : Channel }.

Record UserAudioState := { as_userId : string; isAudioEnabled : bool }.

Record UserVideoState := { vs_userId : string; isVideoEnabled : bool }.

Definition MAX_CLIENTS : nat := 200.

(** The module-level tables of the server, the socket set [wss.clients]
    of the [ws] library (insertion order, each socket with its
    [readyState]), the sockets on which the connection handler installed
    its [message] and [close] listeners, the log of what was sent, and
    the name the next socket object will get. *)
Record HubState := mkHub {
  wss_clients : list (Channel * ReadyState);
  listening : gset Channel;
  clients : gmap Channel ClientInfo;
  connectedUsers : list (string * ConnectedUser);
  userAudioStates : list (string * UserAudioState);
  userVideoStates : list (string * UserVideoState);
  userAudioConnections : gmap string (gset string);
  outbox : list (Channel * JSON);
  next_ws : Channel
}.

Definition initial : HubState :=
  mkHub [] ∅ ∅ [] [] [] ∅ [] 0.

Definition with_wss_clients (f : list (Channel * ReadyState) → list (Channel * ReadyState))
    (σ : HubState) : HubState :=
  mkHub (f (wss_clients σ)) (listening σ) (clients σ) (connectedUsers σ)
    (userAudioStates σ) (userVideoStates σ) (userAudioConnections σ) (outbox σ) (next_ws σ).

Definition with_listening (f : gset Channel → gset Channel) (σ : HubState) : HubState :=
  mkHub (wss_clients σ) (f (listening σ)) (clients σ) (connectedUsers σ)
    (userAudioStates σ) (userVideoStates σ) (userAudioConnections σ) (outbox σ) (next_ws σ).

Definition with_clients (f : gmap Channel ClientInfo → gmap Channel ClientInfo)
    (σ : HubState) : HubState :=
  mkHub (wss_clients σ) (listening σ) (f (clients σ)) (connectedUsers σ)
    (userAudioStates σ) (userVideoStates σ) (userAudioConnections σ) (outbox σ) (next_ws σ).

Definition with_connectedUsers
    (f : list (string * ConnectedUser) → list (string * ConnectedUser))
    (σ : HubState) : HubState :=
  mkHub (wss_clients σ) (listening σ) (clients σ) (f (connectedUsers σ))
    (userAudioStates σ) (userVideoStates σ) (userAudioConnections σ) (outbox σ) (next_ws σ).

Definition with_userAudioStates (f : list (string * UserAudioState) → list (string * UserAudioState))
    (σ : HubState) : HubState :=
  mkHub (wss_clients σ) (listening σ) (clients σ) (connectedUsers σ)
    (f (userAudioStates σ)) (userVideoStates σ) (userAudioConnections σ) (outbox σ) (next_ws σ).

Definition with_userVideoStates (f : list (string * UserVideoState) → list (string * UserVideoState))
    (σ : HubState) : HubState :=
  mkHub (wss_clients σ) (listening σ) (clients σ) (connectedUsers σ)
    (userAudioStates σ) (f (userVideoStates σ)) (userAudioConnections σ) (outbox σ) (next_ws σ).

Definition with_userAudioConnections
    (f : gmap string (gset string) → gmap string (gset string))
    (σ : HubState) : HubState :=
  mkHub (wss_clients σ) (listening σ) (clients σ) (connectedUsers σ)
    (userAudioStates σ) (userVideoStates σ) (f (userAudioConnections σ)) (outbox σ) (next_ws σ).

Definition emit (out : list (Channel * JSON)) (σ : HubState) : HubState :=
  mkHub (wss_clients σ) (listening σ) (clients σ) (connectedUsers σ)
    (userAudioStates σ) (userVideoStates σ) (userAudioConnections σ)
    (outbox σ ++ out) (next_ws σ).

Definition with_next_ws (f : Channel → Channel) (σ : HubState) : HubState :=
  mkHub (wss_clients σ) (listening σ) (clients σ) (connectedUsers σ)
    (userAudioStates σ) (userVideoStates σ) (userAudioConnections σ)
    (outbox σ) (f (next_ws σ)).

(** [ws.readyState]; a socket that left [wss.clients] has been closed. *)
Definition readyState (σ : HubState) (ws : Channel) : ReadyState :=
  default CLOSED (JSMap.get ws (wss_clients σ)).

(** The sockets [broadcast] writes to, in the order of [wss.clients]. *)
Definition recipients (exceptWs : option Channel) (σ : HubState) : list Channel :=
  omap (λ '(c, rs),
          if bool_decide (rs = OPEN) && negb (bool_decide (Some c = exceptWs))
          then Some c else None)
       (wss_clients σ).

Definition broadcast (msg : JSON) (exceptWs : option Channel) (σ : HubState)
  : HubState :=
  emit (map (λ c, (c, msg)) (recipients exceptWs σ)) σ.

Definition sendToClient (ws : Channel) (msg : JSON) (σ : HubState) : HubState :=
  if decide (readyState σ ws = OPEN) then emit [(ws, msg)] σ else σ.

(** ** Messages built by the server *)

Definition user_entry (u : ConnectedUser) : JSON :=
  JObj [("userId", JStr (cu_userId u)); ("username", JStr (cu_username u))].

Definition user_list_msg (users : list (string * ConnectedUser)) : JSON :=
  JObj [("type", JStr "user_list");
        ("users", JArr (map user_entry (JSMap.values users)))].

Definition audio_state_entry (s : UserAudioState) : JSON :=
  JObj [("userId", JStr (as_userId s)); ("isAudioEnabled", JBool (isAudioEnabled s))].

Definition video_state_entry (s : UserVideoState) : JSON :=
  JObj [("userId", JStr (vs_userId s)); ("isVideoEnabled", JBool (isVideoEnabled s))].

Definition audio_states_msg (states : list (string * UserAudioState)) : JSON :=
  JObj [("type", JStr "audio_states");
        ("states", JArr (map audio_state_entry (JSMap.values states)))].

Definition video_states_msg (states : list (string * UserVideoState)) : JSON :=
  JObj [("type", JStr "video_states");
        ("states", JArr (map video_state_entry (JSMap.values states)))].

Definition error_msg (message : string) : JSON :=
  JObj [("type", JStr "error"); ("message", JStr message)].

Definition request_username_msg : JSON :=
  JObj [("type", JStr "request_username")].

Definition username_accepted_msg (username userId : string) : JSON :=
  JObj [("type", JStr "username_accepted");
        ("username", JStr username); ("userId", JStr userId)].

Definition system_msg (message : string) (now : Z) : JSON :=
  JObj [("type", JStr "system"); ("message", JStr message);
        ("timestamp", JNum now)].

Definition chat_msg (username : string) (text : JSON) (now : Z) : JSON :=
  JObj [("type", JStr "chat"); ("username", JStr username);
        ("text", text); ("timestamp", JNum now)].

Definition broadcastUserList (σ : HubState) : HubState :=
  broadcast (user_list_msg (connectedUsers σ)) None σ.

Definition broadcastAudioStates (σ : HubState) : HubState :=
  broadcast (audio_states_msg (userAudioStates σ)) None σ.

Definition broadcastVideoStates (σ : HubState) : HubState :=
  broadcast (video_states_msg (userVideoStates σ)) None σ.

(** [ws.close()]: the socket starts closing and stays in [wss.clients]
    until its [close] event. *)
Definition close_socket (ws : Channel) (σ : HubState) : HubState :=
  with_wss_clients
    (map (λ '(c, rs), if decide (c = ws) then (c, CLOSING) else (c, rs))) σ.

(** ** The handlers *)

(** [wss.on('connection', ...)], entered after the library has put [ws]
    into [wss.clients]. *)
Definition on_connection (ws : Channel) (σ : HubState) : HubState :=
  if decide (MAX_CLIENTS < length (wss_clients σ)) then
    let σ := sendToClient ws (error_msg "Server full. Try again later.") σ in
    close_socket ws σ
  else
    let σ := sendToClient ws request_username_msg σ in
    let σ := sendToClient ws (user_list_msg (connectedUsers σ)) σ in
    with_listening (union {[ws]}) σ.

(** The [set_username] branch; [rnd] is what [generateUserId ()], that is
    [Math.random().toString(36).substr(2, 9)], returns. *)
Definition set_username (ws : Channel) (data : JSON) (now : Z) (rnd : string)
    (σ : HubState) : HubState :=
  match Js.prop data "username" with
  | Some (JStr u) =>
      if decide (0 < String.length (Js.trim u)) then
        let userId := rnd in
        let username := Js.trim u in
        let σ := with_clients
                   (insert ws {| ci_username := username; ci_userId := userId |}) σ in
        let σ := with_connectedUsers
                   (JSMap.set userId
                      {| cu_userId := userId; cu_username := username; cu_ws := ws |}) σ in
        let σ := sendToClient ws (username_accepted_msg username userId) σ in
        let σ := broadcast (system_msg (username +:+ " joined the chat.") now)
                   (Some ws) σ in
        let σ := broadcastUserList σ in
        let σ := broadcastAudioStates σ in
        broadcastVideoStates σ
      else sendToClient ws (error_msg "Invalid username") σ
  | _ => sendToClient ws (error_msg "Invalid username") σ
  end.

Definition anonymous : ClientInfo :=
  {| ci_username := "Anonymous"; ci_userId := "" |}.

(** The [chat] branch. *)
Definition chat (ws : Channel) (data : JSON) (now : Z) (σ : HubState) : HubState :=
  let clientInfo := default anonymous (clients σ !! ws) in
  broadcast
    (chat_msg (ci_username clientInfo)
       (Js.or_else (Js.prop data "text") (JStr "")) now)
    None σ.

(** The [audio_enabled] and [audio_disabled] branches. *)
Definition audio_state (ws : Channel) (enabled : bool) (σ : HubState) : HubState :=
  match clients σ !! ws with
  | Some clientInfo =>
      broadcastAudioStates
        (with_userAudioStates
           (JSMap.set (ci_userId clientInfo)
              {| as_userId := ci_userId clientInfo; isAudioEnabled := enabled |}) σ)
  | None => σ
  end.

(** The [video_enabled] and [video_disabled] branches. *)
Definition video_state (ws : Channel) (enabled : bool) (σ : HubState) : HubState :=
  match clients σ !! ws with
  | Some clientInfo =>
      broadcastVideoStates
        (with_userVideoStates
           (JSMap.set (ci_userId clientInfo)
              {| vs_userId := ci_userId clientInfo; isVideoEnabled := enabled |}) σ)
  | None => σ
  end.

(** [connectedUsers.get(data.targetUserId)]: every key of the map is a
    string, so any other value finds nothing. *)
Definition targetUser (data : JSON) (σ : HubState) : option ConnectedUser :=
  match Js.prop data "targetUserId" with
  | Some (JStr t) => JSMap.get t (connectedUsers σ)
  | _ => None
  end.

Definition messageWithSender (data : JSON) (senderInfo : ClientInfo) : JSON :=
  JObj (Js.set_field "senderUsername" (JStr (ci_username senderInfo))
          (Js.set_field "senderUserId" (JStr (ci_userId senderInfo))
             (Js.spread data))).

(** The [webrtc_offer], [webrtc_answer] and [webrtc_ice_candidate]
    branch. *)
Definition relay (ws : Channel) (data : JSON) (σ : HubState) : HubState :=
  match targetUser data σ with
  | Some target =>
      if decide (readyState σ (cu_ws target) = OPEN) then
        match clients σ !! ws with
        | Some senderInfo =>
            emit [(cu_ws target, messageWithSender data senderInfo)] σ
        | None => σ
        end
      else σ
  | None => σ
  end.

Definition is_signaling (ty : option JSON) : bool :=
  Js.is_str ty "webrtc_offer" || Js.is_str ty "webrtc_answer"
  || Js.is_str ty "webrtc_ice_candidate".

(** [ws.on('message', ...)].  [parsed] is the outcome of
    [JSON.parse(message.toString())], [None] when it throws.  The result
    [None] is the uncaught [TypeError] of reading [data.type] on [null]. *)
Definition on_message (ws : Channel) (isBinary : bool) (parsed : option JSON)
    (now : Z) (rnd : string) (σ : HubState) : option HubState :=
  if isBinary then Some σ else
  match parsed with
  | None => Some (sendToClient ws (error_msg "Invalid JSON") σ)
  | Some JNull => None
  | Some data =>
      let ty := Js.prop data "type" in
      if Js.is_str ty "set_username" then Some (set_username ws data now rnd σ)
      else if Js.is_str ty "chat" then Some (chat ws data now σ)
      else if Js.is_str ty "audio_enabled" then Some (audio_state ws true σ)
      else if Js.is_str ty "audio_disabled" then Some (audio_state ws false σ)
      else if Js.is_str ty "video_enabled" then Some (video_state ws true σ)
      else if Js.is_str ty "video_disabled" then Some (video_state ws false σ)
      else if is_signaling ty then Some (relay ws data σ)
      else Some σ
  end.

(** [ws.on('close', ...)]. *)
Definition on_close (ws : Channel) (now : Z) (σ : HubState) : HubState :=
  let σ :=
    match clients σ !! ws with
    | Some clientInfo =>
        let σ := broadcast
                   (system_msg (ci_username clientInfo +:+ " left the chat.") now)
                   (Some ws) σ in
        let σ := with_connectedUsers (JSMap.delete (ci_userId clientInfo)) σ in
        let σ := broadcastUserList σ in
        let σ := with_userAudioStates (JSMap.delete (ci_userId clientInfo)) σ in
        let σ := with_userVideoStates (JSMap.delete (ci_userId clientInfo)) σ in
        let σ := broadcastAudioStates σ in
        let σ := broadcastVideoStates σ in
        with_userAudioConnections (delete (ci_userId clientInfo)) σ
    | None => σ
    end in
  with_clients (delete ws) σ.

(** ** Events

    What the [ws] library does around the handlers: a new socket is added
    to [wss.clients] before the [connection] event; the library's own
    [close] listener, installed first, takes the socket out of
    [wss.clients] before the handler of this file runs; a socket without
    listeners, or one that has closed, delivers nothing. *)
Inductive Event :=
| Connect
| Message (ws : Channel) (isBinary : bool) (parsed : option JSON)
    (now : Z) (rnd : string)
| Close (ws : Channel) (now : Z).

Definition step (σ : HubState) (e : Event) : option HubState :=
  match e with
  | Connect =>
      let ws := next_ws σ in
      let σ := with_next_ws S σ in
      let σ := with_wss_clients (λ l, l ++ [(ws, OPEN)]) σ in
      Some (on_connection ws σ)
  | Message ws isBinary parsed now rnd =>
      if decide (ws ∈ listening σ) then on_message ws isBinary parsed now rnd σ
      else Some σ
  | Close ws now =>
      if JSMap.has ws (wss_clients σ) then
        let σ := with_wss_clients (JSMap.delete ws) σ in
        if decide (ws ∈ listening σ) then
          Some (with_listening (λ s, s ∖ {[ws]}) (on_close ws now σ))
        else Some σ
      else Some σ
  end.

Fixpoint run (σ : HubState) (es : list Event) : option HubState :=
  match es with
  | [] => Some σ
  | e :: es' =>
      match step σ e with
      | Some σ' => run σ' es'
      | None => None
      end
  end.

(** What a transition sent. *)
Definition sent_by (σ σ' : HubState) : list (Channel * JSON) :=
  drop (length (outbox σ)) (outbox σ').

(** ** Observations and invariants *)

(** The socket set, the listeners and the socket counter are touched by
    the library side of [step] only. *)
Definition same_sockets (σ σ' : HubState) : Prop :=
  wss_clients σ' = wss_clients σ ∧ listening σ' = listening σ
  ∧ next_ws σ' = next_ws σ.

(** Well-formed states: socket names are allocated in order and once, a
    socket with listeners is open, and a [Map] has each key once. *)
Record wf (σ : HubState) : Prop := {
  wf_fresh : ∀ ws, ws ∈ JSMap.keys (wss_clients σ) → ws < next_ws σ;
  wf_sockets : NoDup (JSMap.keys (wss_clients σ));
  wf_listening : ∀ ws, ws ∈ listening σ → JSMap.get ws (wss_clients σ) = Some OPEN;
  wf_users : NoDup (JSMap.keys (connectedUsers σ))
}.

(** The states the server can be in. *)
Definition reachable (σ : HubState) : Prop := ∃ es, run initial es = Some σ.

(** The Registry's peer set, as ids and as the channels of its records. *)
Definition registered_ids (σ : HubState) : list string :=
  JSMap.keys (connectedUsers σ).

Definition registered_channels (σ : HubState) : list Channel :=
  map cu_ws (JSMap.values (connectedUsers σ)).

(** The event is a [set_username] message that the hub accepts. *)
Definition joins (e : Event) : option Channel :=
  match e with
  | Message ws false (Some data) _ _ =>
      if Js.is_str (Js.prop data "type") "set_username" then
        match Js.prop data "username" with
        | Some (JStr u) =>
            if decide (0 < String.length (Js.trim u)) then Some ws else None
        | _ => None
        end
      else None
  | _ => None
  end.

(** The channels that completed the join handshake and have not since
    disconnected, read off the events alone. *)
Definition handshaken_step (σ : HubState) (e : Event) (J : gset Channel)
  : gset Channel :=
  match e with
  | Close ws _ => J ∖ {[ws]}
  | _ =>
      match joins e with
      | Some ws => if decide (ws ∈ listening σ) then J ∪ {[ws]} else J
      | None => J
      end
  end.

Fixpoint handshaken (σ : HubState) (es : list Event) (J : gset Channel)
  : gset Channel :=
  match es with
  | [] => J
  | e :: es' =>
      match step σ e with
      | Some σ' => handshaken σ' es' (handshaken_step σ e J)
      | None => handshaken_step σ e J
      end
  end.

(** Every accepted [set_username] of the run is the first one of its
    channel and is given an id that is not in the Registry. *)
Fixpoint first_joins (σ : HubState) (es : list Event) : Prop :=
  match es with
  | [] => True
  | e :: es' =>
      match e, joins e with
      | Message ws _ _ _ rnd, Some _ =>
          ws ∈ listening σ → clients σ !! ws = None ∧ rnd ∉ registered_ids σ
      | _, _ => True
      end
      ∧ match step σ e with
        | Some σ' => first_joins σ' es'
        | None => True
        end
  end.

(** The Registry and the channels [J] correspond one to one: [J] is the
    set of channels with an identity, each of them has its record under
    its id, and each record belongs to such a channel. *)
Record registry_matches (σ : HubState) (J : gset Channel) : Prop := {
  rm_joined : ∀ ws, ws ∈ J ↔ is_Some (clients σ !! ws);
  rm_record : ∀ ws info,
      clients σ !! ws = Some info →
      JSMap.get (ci_userId info) (connectedUsers σ)
      = Some {| cu_userId := ci_userId info; cu_username := ci_username info;
                cu_ws := ws |};
  rm_client : ∀ id u,
      JSMap.get id (connectedUsers σ) = Some u →
      clients σ !! cu_ws u
      = Some {| ci_username := cu_username u; ci_userId := id |};
  rm_listening : ∀ ws, is_Some (clients σ !! ws) → ws ∈ listening σ
}.

(** Where a sent message goes and the sender identity it carries. *)
Definition sender_identity (out : Channel * JSON)
  : Channel * option JSON * option JSON :=
  (out.1, Js.prop out.2 "senderUserId", Js.prop out.2 "senderUsername").

(** A connection attempt is refused: the new socket gets the error reply
    and is closed by the server. *)
Definition refuses (σ : HubState) : Prop :=
  ∃ σ', step σ Connect = Some σ'
        ∧ (next_ws σ, error_msg "Server full. Try again later.") ∈ sent_by σ σ'
        ∧ readyState σ' (next_ws σ) = CLOSING.

(** ** Sample runs *)

Definition set_username_data (username : string) : JSON :=
  JObj [("type", JStr "set_username"); ("username", JStr username)].

(** One channel sends [set_username] twice, then disconnects. *)
Definition rejoin_run : list Event :=
  [ Connect;
    Message 0 false (Some (set_username_data "alice")) 1000 "4fzyo82mv";
    Message 0 false (Some (set_username_data "alice")) 2000 "k8l2q0xw1";
    Close 0 3000 ].

(** Two channels join, each once and with its own id, and the first one
    disconnects. *)
Definition orderly_run : list Event :=
  [ Connect; Connect;
    Message 0 false (Some (set_username_data "alice")) 1000 "4fzyo82mv";
    Message 1 false (Some (set_username_data "bob")) 2000 "k8l2q0xw1";
    Close 0 3000 ].

(** Two channels join and the generator returns the same id for both. *)
Definition collision_run : list Event :=
  [ Connect; Connect;
    Message 0 false (Some (set_username_data "alice")) 1000 "4fzyo82mv";
    Message 1 false (Some (set_username_data "bob")) 2000 "4fzyo82mv" ].

(** Two hundred sockets are connected and none has sent [set_username]. *)
Definition full_house : HubState :=
  default initial (run initial (replicate 200 Connect)).

(** Two sockets are connected, the first has joined as alice. *)
Definition two_sockets : HubState :=
  default initial
    (run initial
       [ Connect; Connect;
         Message 0 false (Some (set_username_data "alice")) 1000 "4fzyo82mv" ]).

(** Two sockets are connected and both have joined. *)
Definition two_peers : HubState :=
  default initial
    (run initial
       [ Connect; Connect;
         Message 0 false (Some (set_username_data "alice")) 1000 "4fzyo82mv";
         Message 1 false (Some (set_username_data "bob")) 2000 "k8l2q0xw1" ]).

(** An offer to bob in which the client claims to be bob. *)
Definition spoofed_offer : JSON :=
  JObj [("type", JStr "webrtc_offer"); ("targetUserId", JStr "k8l2q0xw1");
        ("offer", JObj [("type", JStr "offer"); ("sdp", JStr "v=0")]);
        ("senderUserId", JStr "k8l2q0xw1"); ("senderUsername", JStr "bob")].

(** An offer to an id nobody has. *)
Definition stray_offer : JSON :=
  JObj [("type", JStr "webrtc_offer"); ("targetUserId", JStr "zzzzzzzzz");
        ("offer", JObj [("type", JStr "offer"); ("sdp", JStr "v=0")])].

Definition chat_data (text : string) : JSON :=
  JObj [("type", JStr "chat"); ("text", JStr text)].

End Hub.

(** ** The mesh controller ([client/src/hooks/useWebSocket.ts])

    The hook is an event-driven program: WebSocket messages, timers set
    with [setTimeout], the settling of the promises it awaits, and the
    events of the platform's peer connections.  Each handler is a state
    transformer; the rendering state kept with [useState] and the media
    tracks are outside the model. *)

Module Client.

(** An id as it is at run time.  The types say [string], but
    [initiateCall] is also called with an [RTCPeerConnection], whose
    [userId] and [username] are [undefined]: [None]. *)
Abbreviation Id := (option string) (only parsing).

(** Names of the [RTCPeerConnection] objects, of the timers and of the
    pending promises. *)
Abbreviation ConnId := nat (only parsing).
Abbreviation TimerId := nat (only parsing).
Abbreviation CallId := nat (only parsing).

Inductive ConnectionState :=
| cs_new | cs_connecting | cs_connected | cs_disconnected | cs_failed | cs_closed.

#[global] Instance ConnectionState_eq_dec : EqDecision ConnectionState.
Proof. solve_decision. Defined.

(** An [RTCPeerConnection] object: its [connectionState] and the
    [userId], [username] captured by the handlers installed on it. *)
Record RTCPeerConnection := {
  connectionState : ConnectionState;
  pc_userId : Id;
  pc_username : Id
}.

Record WebRTCPeer := {
  connection : ConnId;
  userId : Id;
  username : Id;
  audioElement : bool
}.

Record ConnectedUser := { cu_userId : string; cu_username : string }.

(** The value [initiateCall] receives: a [WebRTCPeer], or the
    [RTCPeerConnection] that [createPeerConnection] returns. *)
Inductive PeerArg :=
| a_peer (p : WebRTCPeer)
| a_connection (c : ConnId).

(** The callbacks given to [setTimeout]. *)
Inductive Task :=
| t_createPeerConnections (users : list ConnectedUser)
| t_initiateCall (remote : string)
| t_connectionTimeout (peer : PeerArg)
| t_reconnect (remote username : Id).

(** The points at which an [async] function of the hook is suspended. *)
Inductive Await :=
| aw_createOffer (peer : WebRTCPeer) (connectionTimeout : TimerId)
| aw_setLocalOffer (peer : WebRTCPeer) (connectionTimeout : TimerId) (offer : JSON)
| aw_setRemoteOffer (peer : WebRTCPeer) (sender : string)
| aw_createAnswer (peer : WebRTCPeer) (sender : string)
| aw_setLocalAnswer (peer : WebRTCPeer) (sender : string) (answer : JSON)
| aw_addIceCandidate (sender : string) (username : Id).

Record ClientState := mkClient {
  userIdRef : string;
  peersRef : gmap Id WebRTCPeer;
  localStreamRef : bool;
  ws_open : bool;
  conns : gmap ConnId RTCPeerConnection;
  next_conn : ConnId;
  timers : list (TimerId * (Z * Task));
  next_timer : TimerId;
  timer_log : list (Z * Task);
  awaits : list (CallId * Await);
  next_call : CallId;
  sent : list JSON;
  uncaught : nat
}.

Definition initial : ClientState :=
  mkClient "" ∅ false false ∅ 0 [] 0 [] [] 0 [] 0.

Definition with_userIdRef (f : string → string) (σ : ClientState) : ClientState :=
  mkClient (f (userIdRef σ)) (peersRef σ) (localStreamRef σ) (ws_open σ)
    (conns σ) (next_conn σ) (timers σ) (next_timer σ) (timer_log σ)
    (awaits σ) (next_call σ) (sent σ) (uncaught σ).

Definition with_peersRef (f : gmap Id WebRTCPeer → gmap Id WebRTCPeer) (σ : ClientState) : ClientState :=
  mkClient (userIdRef σ) (f (peersRef σ)) (localStreamRef σ) (ws_open σ)
    (conns σ) (next_conn σ) (timers σ) (next_timer σ) (timer_log σ)
    (awaits σ) (next_call σ) (sent σ) (uncaught σ).

Definition with_localStreamRef (f : bool → bool) (σ : ClientState) : ClientState :=
  mkClient (userIdRef σ) (peersRef σ) (f (localStreamRef σ)) (ws_open σ)
    (conns σ) (next_conn σ) (timers σ) (next_timer σ) (timer_log σ)
    (awaits σ) (next_call σ) (sent σ) (uncaught σ).

Definition with_ws_open (f : bool → bool) (σ : ClientState) : ClientState :=
  mkClient (userIdRef σ) (peersRef σ) (localStreamRef σ) (f (ws_open σ))
    (conns σ) (next_conn σ) (timers σ) (next_timer σ) (timer_log σ)
    (awaits σ) (next_call σ) (sent σ) (uncaught σ).

Definition with_conns (f : gmap ConnId RTCPeerConnection → gmap ConnId RTCPeerConnection) (σ : ClientState) : ClientState :=
  mkClient (userIdRef σ) (peersRef σ) (localStreamRef σ) (ws_open σ)
    (f (conns σ)) (next_conn σ) (timers σ) (next_timer σ) (timer_log σ)
    (awaits σ) (next_call σ) (sent σ) (uncaught σ).

Definition with_next_conn (f : ConnId → ConnId) (σ : ClientState) : ClientState :=
  mkClient (userIdRef σ) (peersRef σ) (localStreamRef σ) (ws_open σ)
    (conns σ) (f (next_conn σ)) (timers σ) (next_timer σ) (timer_log σ)
    (awaits σ) (next_call σ) (sent σ) (uncaught σ).

Definition with_timers (f : list (TimerId * (Z * Task)) → list (TimerId * (Z * Task))) (σ : ClientState) : ClientState :=
  mkClient (userIdRef σ) (peersRef σ) (localStreamRef σ) (ws_open σ)
    (conns σ) (next_conn σ) (f (timers σ)) (next_timer σ) (timer_log σ)
    (awaits σ) (next_call σ) (sent σ) (uncaught σ).

Definition with_next_timer (f : TimerId → TimerId) (σ : ClientState) : ClientState :=
  mkClient (userIdRef σ) (peersRef σ) (localStreamRef σ) (ws_open σ)
    (conns σ) (next_conn σ) (timers σ) (f (next_timer σ)) (timer_log σ)
    (awaits σ) (next_call σ) (sent σ) (uncaught σ).

Definition with_timer_log (f : list (Z * Task) → list (Z * Task)) (σ : ClientState) : ClientState :=
  mkClient (userIdRef σ) (peersRef σ) (localStreamRef σ) (ws_open σ)
    (conns σ) (next_conn σ) (timers σ) (next_timer σ) (f (timer_log σ))
    (awaits σ) (next_call σ) (sent σ) (uncaught σ).

Definition with_awaits (f : list (CallId * Await) → list (CallId * Await)) (σ : ClientState) : ClientState :=
  mkClient (userIdRef σ) (peersRef σ) (localStreamRef σ) (ws_open σ)
    (conns σ) (next_conn σ) (timers σ) (next_timer σ) (timer_log σ) (f
    (awaits σ)) (next_call σ) (sent σ) (uncaught σ).

Definition with_next_call (f : CallId → CallId) (σ : ClientState) : ClientState :=
  mkClient (userIdRef σ) (peersRef σ) (localStreamRef σ) (ws_open σ)
    (conns σ) (next_conn σ) (timers σ) (next_timer σ) (timer_log σ)
    (awaits σ) (f (next_call σ)) (sent σ) (uncaught σ).

Definition with_sent (f : list JSON → list JSON) (σ : ClientState) : ClientState :=
  mkClient (userIdRef σ) (peersRef σ) (localStreamRef σ) (ws_open σ)
    (conns σ) (next_conn σ) (timers σ) (next_timer σ) (timer_log σ)
    (awaits σ) (next_call σ) (f (sent σ)) (uncaught σ).

Definition with_uncaught (f : nat → nat) (σ : ClientState) : ClientState :=
  mkClient (userIdRef σ) (peersRef σ) (localStreamRef σ) (ws_open σ)
    (conns σ) (next_conn σ) (timers σ) (next_timer σ) (timer_log σ)
    (awaits σ) (next_call σ) (sent σ) (f (uncaught σ)).

(** ** Messages *)

(** What the hub sends, as [handleMessage] reads it: the fields have the
    types the hub gives them, and a candidate is one that
    [new RTCIceCandidate] accepts. *)
Inductive ServerMessage :=
| m_user_list (users : list ConnectedUser)
| m_audio_states
| m_video_states
| m_username_accepted (username userId : string)
| m_chat
| m_system
| m_webrtc_offer (senderUserId senderUsername : string) (offer : JSON)
| m_webrtc_answer (senderUserId : string) (answer : JSON)
| m_webrtc_ice_candidate (senderUserId : string) (candidate : JSON)
| m_other.

(** [JSON.stringify] leaves out a property whose value is [undefined]. *)
Definition id_field (k : string) (v : Id) : list (string * JSON) :=
  match v with
  | Some x => [(k, JStr x)]
  | None => []
  end.

Definition offer_msg (target : Id) (offer : JSON) : JSON :=
  JObj ([("type", JStr "webrtc_offer")] ++ id_field "targetUserId" target
        ++ [("offer", offer)]).

Definition answer_msg (target : string) (answer : JSON) : JSON :=
  JObj [("type", JStr "webrtc_answer"); ("targetUserId", JStr target);
        ("answer", answer)].

Definition ice_candidate_msg (target : Id) (candidate : JSON) : JSON :=
  JObj ([("type", JStr "webrtc_ice_candidate")] ++ id_field "targetUserId" target
        ++ [("candidate", candidate)]).

Definition media_msg (ty : string) : JSON := JObj [("type", JStr ty)].

(** ** Primitives of the platform *)

Definition setTimeout (task : Task) (delay : Z) (σ : ClientState)
  : TimerId * ClientState :=
  let t := next_timer σ in
  (t, with_next_timer S
        (with_timers (λ l, l ++ [(t, (delay, task))])
           (with_timer_log (λ l, l ++ [(delay, task)]) σ))).

Definition clearTimeout (t : TimerId) (σ : ClientState) : ClientState :=
  with_timers (JSMap.delete t) σ.

(** Suspend at an [await]; the continuation runs when the call settles. *)
Definition await (a : Await) (σ : ClientState) : ClientState :=
  with_next_call S (with_awaits (λ l, l ++ [(next_call σ, a)]) σ).

(** [wsRef.current.send (JSON.stringify (msg))] behind its guard
    [wsRef.current?.readyState === WebSocket.OPEN]. *)
Definition sendMessage (msg : JSON) (σ : ClientState) : ClientState :=
  if ws_open σ then with_sent (λ l, l ++ [msg]) σ else σ.

(** [connection.close ()]. *)
Definition close_connection (c : ConnId) (σ : ClientState) : ClientState :=
  with_conns
    (alter (λ pc, {| connectionState := cs_closed;
                     pc_userId := pc_userId pc;
                     pc_username := pc_username pc |}) c) σ.

(** ** The functions of the hook *)

Definition handleConnectionFailure (remote name : Id) (σ : ClientState)
  : ClientState :=
  let σ :=
    match peersRef σ !! remote with
    | Some oldPeer =>
        with_peersRef (delete remote) (close_connection (connection oldPeer) σ)
    | None => σ
    end in
  (setTimeout (t_reconnect remote name) 1000 σ).2.

(** [initiateCall], up to its first [await].  On an [RTCPeerConnection]
    argument [peer.connection] is [undefined], so [createOffer] raises a
    [TypeError] inside the [try] and the [catch] runs at once. *)
Definition initiateCall (peer : PeerArg) (σ : ClientState) : ClientState :=
  let '(connectionTimeout, σ) := setTimeout (t_connectionTimeout peer) 10000 σ in
  match peer with
  | a_peer p => await (aw_createOffer p connectionTimeout) σ
  | a_connection _ => handleConnectionFailure None None σ
  end.

Definition createPeerConnection (remote name : Id) (σ : ClientState)
  : ConnId * ClientState :=
  let peerConnection := next_conn σ in
  let σ := with_next_conn S
             (with_conns
                (insert peerConnection
                   {| connectionState := cs_new;
                      pc_userId := remote; pc_username := name |}) σ) in
  let peer := {| connection := peerConnection; userId := remote;
                 username := name; audioElement := false |} in
  let σ := with_peersRef (insert remote peer) σ in
  let σ := if localStreamRef σ && negb (bool_decide (userIdRef σ = ""))
           then initiateCall (a_peer peer) σ else σ in
  (peerConnection, σ).

(** The callback that [createPeerConnections] gives to [users.forEach]. *)
Definition createPeerConnections_each (σ : ClientState) (user : ConnectedUser)
  : ClientState :=
  if negb (bool_decide (cu_userId user = userIdRef σ))
     && negb (bool_decide (is_Some (peersRef σ !! Some (cu_userId user))))
  then
    let σ := (createPeerConnection (Some (cu_userId user))
                (Some (cu_username user)) σ).2 in
    if negb (bool_decide (userIdRef σ = ""))
    then (setTimeout (t_initiateCall (cu_userId user)) 100 σ).2
    else σ
  else σ.

Definition createPeerConnections (users : list ConnectedUser) (σ : ClientState)
  : ClientState :=
  foldl createPeerConnections_each σ users.

(** [handleWebRTCOffer], up to its first [await].  A peer that had to be
    created is the [RTCPeerConnection] returned by [createPeerConnection],
    on which [peer.connection.setRemoteDescription] raises a [TypeError]
    that the [catch] only logs. *)
Definition handleWebRTCOffer (senderUserId senderUsername : string)
    (σ : ClientState) : ClientState :=
  match peersRef σ !! Some senderUserId with
  | Some peer => await (aw_setRemoteOffer peer senderUserId) σ
  | None => (createPeerConnection (Some senderUserId) (Some senderUsername) σ).2
  end.

Definition handleWebRTCICECandidate (senderUserId : string) (candidate : JSON)
    (σ : ClientState) : ClientState :=
  match peersRef σ !! Some senderUserId with
  | Some peer =>
      if Js.truthy (Some candidate)
      then await (aw_addIceCandidate senderUserId (username peer)) σ
      else σ
  | None => σ
  end.

Definition handleMessage (data : ServerMessage) (σ : ClientState) : ClientState :=
  match data with
  | m_user_list users => (setTimeout (t_createPeerConnections users) 100 σ).2
  | m_username_accepted _ userId => with_userIdRef (λ _, userId) σ
  | m_webrtc_offer senderUserId senderUsername _ =>
      handleWebRTCOffer senderUserId senderUsername σ
  | m_webrtc_ice_candidate senderUserId candidate =>
      handleWebRTCICECandidate senderUserId candidate σ
  | m_webrtc_answer _ _ | m_audio_states | m_video_states
  | m_chat | m_system | m_other => σ
  end.

Definition stopAllStreams (σ : ClientState) : ClientState :=
  let σ := with_localStreamRef (λ _, false) σ in
  let σ := map_fold (λ _ peer σ, close_connection (connection peer) σ) σ
             (peersRef σ) in
  with_peersRef (λ _, ∅) σ.

(** ** Continuations *)

Inductive Outcome :=
| resolved (value : JSON)
| rejected (invalidStateError : bool).

Definition resume (a : Await) (o : Outcome) (σ : ClientState) : ClientState :=
  match a, o with
  | aw_createOffer p t, resolved offer => await (aw_setLocalOffer p t offer) σ
  | aw_setLocalOffer p t offer, resolved _ =>
      clearTimeout t (sendMessage (offer_msg (userId p) offer) σ)
  | aw_createOffer p _, rejected _ | aw_setLocalOffer p _ _, rejected _ =>
      handleConnectionFailure (userId p) (username p) σ
  | aw_setRemoteOffer p sender, resolved _ => await (aw_createAnswer p sender) σ
  | aw_createAnswer p sender, resolved answer =>
      await (aw_setLocalAnswer p sender answer) σ
  | aw_setLocalAnswer p sender answer, resolved _ =>
      sendMessage (answer_msg sender answer) σ
  | aw_setRemoteOffer _ _, rejected _ | aw_createAnswer _ _, rejected _
  | aw_setLocalAnswer _ _ _, rejected _ => σ
  | aw_addIceCandidate sender name, rejected true =>
      handleConnectionFailure (Some sender) name σ
  | aw_addIceCandidate _ _, _ => σ
  end.

Definition run_task (task : Task) (σ : ClientState) : ClientState :=
  match task with
  | t_createPeerConnections users => createPeerConnections users σ
  | t_initiateCall remote =>
      match peersRef σ !! Some remote with
      | Some peerObj => initiateCall (a_peer peerObj) σ
      | None => σ
      end
  | t_connectionTimeout (a_peer p) =>
      match conns σ !! connection p with
      | Some pc =>
          if decide (connectionState pc = cs_connected) then σ
          else handleConnectionFailure (userId p) (username p) σ
      | None => σ
      end
  | t_connectionTimeout (a_connection _) => with_uncaught S σ
  | t_reconnect remote name =>
      let '(newPeer, σ) := createPeerConnection remote name σ in
      initiateCall (a_connection newPeer) σ
  end.

(** ** Events *)

Inductive Event :=
| ws_onopen
| ws_onmessage (data : ServerMessage)
| ws_onclose
| timer_fires (t : TimerId)
| settles (call : CallId) (o : Outcome)
| pc_connectionstatechange (c : ConnId) (s : ConnectionState)
| pc_track (c : ConnId)
| pc_icecandidate (c : ConnId) (candidate : option JSON)
| stream_started (audio : bool)
| stream_stopped (audio : bool).

Definition step (σ : ClientState) (e : Event) : ClientState :=
  match e with
  | ws_onopen => with_ws_open (λ _, true) σ
  | ws_onmessage data => handleMessage data σ
  | ws_onclose => stopAllStreams (with_ws_open (λ _, false) σ)
  | timer_fires t =>
      match JSMap.get t (timers σ) with
      | Some (_, task) => run_task task (with_timers (JSMap.delete t) σ)
      | None => σ
      end
  | settles call o =>
      match JSMap.get call (awaits σ) with
      | Some a => resume a o (with_awaits (JSMap.delete call) σ)
      | None => σ
      end
  | pc_connectionstatechange c s =>
      match conns σ !! c with
      | Some pc =>
          if decide (connectionState pc = cs_closed) then σ else
          let σ := with_conns
                     (insert c {| connectionState := s;
                                  pc_userId := pc_userId pc;
                                  pc_username := pc_username pc |}) σ in
          if decide (s = cs_failed)
          then handleConnectionFailure (pc_userId pc) (pc_username pc) σ
          else σ
      | None => σ
      end
  | pc_track c =>
      match conns σ !! c with
      | Some pc =>
          with_peersRef
            (alter (λ peer, {| connection := connection peer;
                               userId := userId peer;
                               username := username peer;
                               audioElement := true |}) (pc_userId pc)) σ
      | None => σ
      end
  | pc_icecandidate c candidate =>
      match conns σ !! c, candidate with
      | Some pc, Some cand =>
          if Js.truthy candidate
          then sendMessage (ice_candidate_msg (pc_userId pc) cand) σ
          else σ
      | _, _ => σ
      end
  | stream_started audio =>
      sendMessage (media_msg (if audio then "audio_enabled" else "video_enabled"))
        (with_localStreamRef (λ _, true) σ)
  | stream_stopped audio =>
      sendMessage (media_msg (if audio then "audio_disabled" else "video_disabled")) σ
  end.

Definition run (σ : ClientState) (es : list Event) : ClientState :=
  foldl step σ es.

(** ** Observations *)

(** The local side has sent an offer addressed to [remote]. *)
Definition offered (remote : string) (σ : ClientState) : bool :=
  existsb (λ msg, Js.is_str (Js.prop msg "type") "webrtc_offer"
                  && Js.is_str (Js.prop msg "targetUserId") remote)
    (sent σ).

(** The local side holds a Link (an entry of [peersRef]) for [remote]. *)
Definition linked (remote : string) (σ : ClientState) : bool :=
  bool_decide (is_Some (peersRef σ !! Some remote)).

(** How many reconnections to [remote] were scheduled so far, each with
    the delay of 1000 ms. *)
Definition is_reconnection (remote : string) (e : Z * Task) : bool :=
  match e with
  | (delay, t_reconnect (Some r) _) =>
      bool_decide (delay = 1000%Z) && bool_decide (r = remote)
  | _ => false
  end.

Definition reconnections (remote : string) (σ : ClientState) : nat :=
  length (List.filter (is_reconnection remote) (timer_log σ)).

(** A call to [remote] is scheduled: the timer set by
    [createPeerConnections] is pending. *)
Definition call_pending (remote : string) (σ : ClientState) : bool :=
  existsb (λ e, match e with
                | (_, (delay, t_initiateCall r)) =>
                    bool_decide (delay = 100%Z) && bool_decide (r = remote)
                | _ => false
                end)
    (timers σ).

(** Of two peers with ids [a] and [b], exactly one has sent the other an
    offer. *)
Definition one_initiator (a b : string) (σa σb : ClientState) : Prop :=
  xorb (offered b σa) (offered a σb) = true.




(** ** Sample runs *)

Definition alice : ConnectedUser :=
  {| cu_userId := "4fzyo82mv"; cu_username := "alice" |}.

Definition bob : ConnectedUser :=
  {| cu_userId := "k8l2q0xw1"; cu_username := "bob" |}.

(** Alice is in the room when bob joins: she is sent the new membership,
    her timers run, and the offer she creates is sent.  (Messages that the
    hook only renders are left out of the sample runs.) *)
Definition alice_run : list Event :=
  [ ws_onopen;
    ws_onmessage (m_user_list []);
    ws_onmessage (m_username_accepted "alice" "4fzyo82mv");
    ws_onmessage (m_user_list [alice]);
    timer_fires 0; timer_fires 1;
    ws_onmessage (m_user_list [alice; bob]);
    timer_fires 2;
    timer_fires 3;
    settles 0 (resolved (JObj [("type", JStr "offer"); ("sdp", JStr "v=0 a")]));
    settles 1 (resolved JNull) ].

(** Bob connects and joins at once: the membership sent on connection,
    his [username_accepted] and the membership of his join arrive before
    the first timer runs. *)
Definition bob_run : list Event :=
  [ ws_onopen;
    ws_onmessage (m_user_list [alice]);
    ws_onmessage (m_username_accepted "bob" "k8l2q0xw1");
    ws_onmessage (m_user_list [alice; bob]);
    timer_fires 0; timer_fires 1;
    timer_fires 2;
    settles 0 (resolved (JObj [("type", JStr "offer"); ("sdp", JStr "v=0 b")]));
    settles 1 (resolved JNull) ].

(** Alice and bob right after their [username_accepted]. *)
Definition alice_ready : ClientState :=
  run initial [ws_onopen; ws_onmessage (m_username_accepted "alice" "4fzyo82mv")].

Definition bob_ready : ClientState :=
  run initial [ws_onopen; ws_onmessage (m_username_accepted "bob" "k8l2q0xw1")].



End Client.

(** ** What a receiver reads off a message

    The hub's messages are JSON objects; a client reads them property by
    property ([data.type], [data.users], [data.states], ...). *)

Module Wire.

(** The properties [ks] of [m], in the order of [ks]. *)
Definition fields (ks : list string) (m : JSON) : list (option JSON) :=
  map (Js.prop m) ks.

(** [data.users] of a [user_list] message: [userId] and [username] of each
    entry; [None] when [users] is not an array. *)
Definition users (data : JSON) : option (list (list (option JSON))) :=
  match Js.prop data "users" with
  | Some (JArr items) => Some (map (fields ["userId"; "username"]) items)
  | _ => None
  end.

(** [data.states] of an [audio_states] or [video_states] message: [userId]
    and the flag of each entry; [None] when [states] is not an array. *)
Definition states (flag : string) (data : JSON)
  : option (list (list (option JSON))) :=
  match Js.prop data "states" with
  | Some (JArr items) => Some (map (fields ["userId"; flag]) items)
  | _ => None
  end.

(** The entries the hub means to send for its tables. *)
Definition user_rows (users : list (string * Hub.ConnectedUser))
  : list (list (option JSON)) :=
  map (λ u, [Some (JStr (Hub.cu_userId u)); Some (JStr (Hub.cu_username u))])
    (JSMap.values users).

Definition audio_rows (states : list (string * Hub.UserAudioState))
  : list (list (option JSON)) :=
  map (λ s, [Some (JStr (Hub.as_userId s)); Some (JBool (Hub.isAudioEnabled s))])
    (JSMap.values states).

Definition video_rows (states : list (string * Hub.UserVideoState))
  : list (list (option JSON)) :=
  map (λ s, [Some (JStr (Hub.vs_userId s)); Some (JBool (Hub.isVideoEnabled s))])
    (JSMap.values states).

End Wire.

(** ** Departures after a repeated or a colliding join *)

Module Departures.
Import Hub.

(** Alice and bob join; alice sends [set_username] a second time and is
    given a new id. *)
Definition rejoined : list Event :=
  [ Connect; Connect;
    Message 0 false (Some (set_username_data "alice")) 1000 "4fzyo82mv";
    Message 1 false (Some (set_username_data "bob")) 2000 "k8l2q0xw1";
    Message 0 false (Some (set_username_data "alice")) 2500 "x7c1m0q3z" ].

(** Alice's socket closes. *)
Definition alice_leaves : Event := Close 0 3000.

End Departures.

(** ** The page ([client/src/App.tsx])

    The two forms of the page and the indicators of the user board.  The
    component keeps the text of its two fields and whether the name form
    has been left; it sends through [sendMessage] of the hook. *)

Module App.
Import Client.

Record AppState := mkApp {
  input : string;
  username : string;
  isUsernameSet : bool
}.

Definition initial : AppState := mkApp "" "" false.

Definition set_username_request (username : string) : JSON :=
  JObj [("type", JStr "set_username"); ("username", JStr username)].

Definition chat_request (text : string) : JSON :=
  JObj [("type", JStr "chat"); ("text", JStr text)].

(** [handleSetUsername]; a string is a true condition when it is not
    empty. *)
Definition handleSetUsername (ui : AppState) (σ : ClientState)
  : AppState * ClientState :=
  if Js.truthy (Some (JStr (Js.trim (username ui)))) then
    (mkApp (input ui) (username ui) true,
     sendMessage (set_username_request (Js.trim (username ui))) σ)
  else (ui, σ).

(** [handleSendMessage]. *)
Definition handleSendMessage (ui : AppState) (σ : ClientState)
  : AppState * ClientState :=
  if Js.truthy (Some (JStr (Js.trim (input ui)))) then
    (mkApp "" (username ui) (isUsernameSet ui),
     sendMessage (chat_request (Js.trim (input ui))) σ)
  else (ui, σ).

(** [data.states] of an [audio_states] or [video_states] message, which
    [handleMessage] stores with [setUserAudioStates] and
    [setUserVideoStates] for the page to read; the hub sends an array. *)
Definition states (data : JSON) : list JSON :=
  match Js.prop data "states" with
  | Some (JArr items) => items
  | _ => []
  end.

(** [userAudioStates.some(s => s.userId === user.userId && s.isAudioEnabled)]. *)
Definition hasAudioEnabled (userAudioStates : list JSON) (userId : string) : bool :=
  existsb (λ s, Js.is_str (Js.prop s "userId") userId
                && Js.truthy (Js.prop s "isAudioEnabled"))
    userAudioStates.

(** [userVideoStates.some(s => s.userId === user.userId && s.isVideoEnabled)]. *)
Definition hasVideoEnabled (userVideoStates : list JSON) (userId : string) : bool :=
  existsb (λ s, Js.is_str (Js.prop s "userId") userId
                && Js.truthy (Js.prop s "isVideoEnabled"))
    userVideoStates.

End App.

(** ** The hidden media elements ([client/src/components/VideoGrids.tsx]) *)

Module VideoGrid.

(** A [MediaStream], named, with the number of its video tracks. *)
Record MediaStream := { stream_name : nat; videoTracks : nat }.

Record MediaElementProps := {
  userId : string;
  stream : MediaStream;
  isVideo : bool
}.

(** The listener of the [remoteStream] event, applied to [e.detail]; the
    result is the next value of [mediaStreams]. *)
Definition handleRemoteStream (detail : string * MediaStream)
    (prev : list MediaElementProps) : list MediaElementProps :=
  let '(userId', stream') := detail in
  let isVideo' := bool_decide (0 < videoTracks stream') in
  List.filter (λ s, negb (bool_decide (userId s = userId'))) prev
  ++ [ {| userId := userId'; stream := stream'; isVideo := isVideo' |} ].

(** [mediaStreams] after the events [details], oldest first. *)
Definition mediaStreams (details : list (string * MediaStream))
  : list MediaElementProps :=
  foldl (λ prev detail, handleRemoteStream detail prev) [] details.

(** The React key of the element rendered for an entry. *)
Definition key (s : MediaElementProps) : string :=
  userId s +:+ "-" +:+ (if isVideo s then "video" else "audio").

End VideoGrid.

(** ** Timers of the mesh controller, one after the other *)

Module Timers.
Import Client.

(** The timer that was set last. *)
Definition last_timer (σ : ClientState) : nat := pred (next_timer σ).

(** The timer that was set last runs. *)
Definition refire (σ : ClientState) : ClientState :=
  step σ (timer_fires (last_timer σ)).

(** Timers are named in the order in which they are set. *)
Definition timers_fresh (σ : ClientState) : Prop :=
  ∀ t, t ∈ JSMap.keys (timers σ) → t < next_timer σ.

(** Alice's run up to the moment her call to bob waits for [createOffer]. *)
Definition alice_calling : ClientState :=
  run initial
    [ ws_onopen;
      ws_onmessage (m_user_list []);
      ws_onmessage (m_username_accepted "alice" "4fzyo82mv");
      ws_onmessage (m_user_list [alice]);
      timer_fires 0; timer_fires 1;
      ws_onmessage (m_user_list [alice; bob]);
      timer_fires 2;
      timer_fires 3 ].

(** Her [createOffer] has failed and the reconnection is pending. *)
Definition alice_retrying : ClientState :=
  step alice_calling (settles 0 (rejected false)).

End Timers.

(** * Properties *)

(** ** Ordered maps *)

Module JSMapFacts.
Section facts.
Context {K V : Type} `{EqDecision K}.
Implicit Types (k : K) (v : V) (m : list (K * V)).

Lemma get_Some_keys k v m : JSMap.get k m = Some v → k ∈ JSMap.keys m.
Proof.
  induction m as [|[k' v'] m IH]; cbn; [done|].
  destruct (decide (k = k')) as [->|]; [left | right; auto].
Qed.

Lemma get_None_keys k m : JSMap.get k m = None ↔ k ∉ JSMap.keys m.
Proof.
  induction m as [|[k' v'] m IH]; cbn.
  - split; [intros _ H; inversion H | done].
  - destruct (decide (k = k')) as [->|Hne].
    + split; [done | intros H; destruct H; left].
    + rewrite IH, not_elem_of_cons. tauto.
Qed.

Lemma get_Some_elem k v m : JSMap.get k m = Some v → (k, v) ∈ m.
Proof.
  induction m as [|[k' v'] m IH]; cbn; [done|].
  destruct (decide (k = k')) as [->|]; [intros [= ->]; left | right; auto].
Qed.

Lemma get_snoc k k' v m :
  JSMap.get k (m ++ [(k', v)]) =
    match JSMap.get k m with
    | Some x => Some x
    | None => if decide (k = k') then Some v else None
    end.
Proof.
  induction m as [|[k0 v0] m IH]; cbn; [done|].
  destruct (decide (k = k0)); [done | apply IH].
Qed.

Lemma get_set k k' v m :
  JSMap.get k (JSMap.set k' v m) = if decide (k = k') then Some v else JSMap.get k m.
Proof.
  induction m as [|[k0 v0] m IH]; cbn.
  - destruct (decide (k = k')); done.
  - destruct (decide (k' = k0)) as [->|Hne]; cbn.
    + destruct (decide (k = k0)); done.
    + destruct (decide (k = k0)) as [->|]; [|apply IH].
      destruct (decide (k0 = k')); [congruence | done].
Qed.

Lemma keys_set k v m :
  JSMap.keys (JSMap.set k v m) = if JSMap.has k m then JSMap.keys m else JSMap.keys m ++ [k].
Proof.
  unfold JSMap.has, JSMap.keys. induction m as [|[k0 v0] m IH]; cbn; [done|].
  destruct (decide (k = k0)) as [->|Hne]; cbn; [done|].
  rewrite IH. destruct (JSMap.get k m); done.
Qed.

Lemma NoDup_keys_set k v m : NoDup (JSMap.keys m) → NoDup (JSMap.keys (JSMap.set k v m)).
Proof.
  intros Hnd. rewrite keys_set. unfold JSMap.has.
  destruct (JSMap.get k m) eqn:Hg; [done|].
  apply NoDup_app. split_and!; [done | | apply NoDup_singleton].
  intros x Hx ->%list_elem_of_singleton. by apply get_None_keys in Hg.
Qed.

Lemma keys_delete_subseteq k m : JSMap.keys (JSMap.delete k m) ⊆ JSMap.keys m.
Proof.
  induction m as [|[k0 v0] m IH]; cbn; [done|].
  destruct (decide (k = k0)); cbn.
  - intros x Hx. by right.
  - intros x [->|Hx]%elem_of_cons; [left | right; auto].
Qed.

Lemma NoDup_keys_delete k m : NoDup (JSMap.keys m) → NoDup (JSMap.keys (JSMap.delete k m)).
Proof.
  induction m as [|[k0 v0] m IH]; cbn; [done|].
  intros [Hnin Hnd]%NoDup_cons. destruct (decide (k = k0)); cbn; [done|].
  apply NoDup_cons. split; [|auto].
  intros Hin. apply Hnin. by eapply keys_delete_subseteq.
Qed.

Lemma get_delete_ne k k' m : k ≠ k' → JSMap.get k (JSMap.delete k' m) = JSMap.get k m.
Proof.
  intros Hne. induction m as [|[k0 v0] m IH]; cbn; [done|].
  destruct (decide (k' = k0)) as [->|]; cbn.
  - destruct (decide (k = k0)); [congruence | done].
  - destruct (decide (k = k0)); [done | apply IH].
Qed.

Lemma get_delete_eq k m : NoDup (JSMap.keys m) → JSMap.get k (JSMap.delete k m) = None.
Proof.
  induction m as [|[k0 v0] m IH]; cbn; [done|].
  intros [Hnin Hnd]%NoDup_cons. destruct (decide (k = k0)) as [->|Hne]; cbn.
  - by apply get_None_keys.
  - destruct (decide (k = k0)); [done | auto].
Qed.

Lemma get_elem_NoDup k v m :
  NoDup (JSMap.keys m) → (k, v) ∈ m → JSMap.get k m = Some v.
Proof.
  induction m as [|[k' v'] m IH]; cbn; [by intros _ ?%elem_of_nil|].
  intros [Hnin Hnd]%NoDup_cons [[= -> ->]|Hin]%elem_of_cons.
  - by case_decide.
  - case_decide as Heq; [|auto]. subst k'. destruct Hnin.
    apply (list_elem_of_fmap_2 fst) in Hin. done.
Qed.
End facts.
End JSMapFacts.

(** ** The hub *)

Module HubSpec.
Import Hub.

Lemma sent_by_app σ σ' out :
  outbox σ' = outbox σ ++ out → sent_by σ σ' = out.
Proof. intros E. unfold sent_by. rewrite E. by rewrite drop_app_length. Qed.

Lemma sent_by_refl σ : sent_by σ σ = [].
Proof. apply sent_by_app. by rewrite app_nil_r. Qed.

(** *** What the handlers leave alone *)

(** *** What the messages carry *)

Lemma user_list_msg_wire users :
  Js.prop (user_list_msg users) "type" = Some (JStr "user_list")
  ∧ Wire.users (user_list_msg users) = Some (Wire.user_rows users).
Proof.
  split; [reflexivity|]. unfold Wire.users, Wire.user_rows.
  change (Js.prop (user_list_msg users) "users")
    with (Some (JArr (map user_entry (JSMap.values users)))).
  f_equal. rewrite List.map_map. apply List.map_ext. reflexivity.
Qed.

Lemma audio_states_msg_wire states :
  Js.prop (audio_states_msg states) "type" = Some (JStr "audio_states")
  ∧ Wire.states "isAudioEnabled" (audio_states_msg states)
    = Some (Wire.audio_rows states).
Proof.
  split; [reflexivity|]. unfold Wire.states, Wire.audio_rows.
  change (Js.prop (audio_states_msg states) "states")
    with (Some (JArr (map audio_state_entry (JSMap.values states)))).
  f_equal. rewrite List.map_map. apply List.map_ext. reflexivity.
Qed.

Lemma video_states_msg_wire states :
  Js.prop (video_states_msg states) "type" = Some (JStr "video_states")
  ∧ Wire.states "isVideoEnabled" (video_states_msg states)
    = Some (Wire.video_rows states).
Proof.
  split; [reflexivity|]. unfold Wire.states, Wire.video_rows.
  change (Js.prop (video_states_msg states) "states")
    with (Some (JArr (map video_state_entry (JSMap.values states)))).
  f_equal. rewrite List.map_map. apply List.map_ext. reflexivity.
Qed.

Lemma chat_msg_wire username text now :
  Wire.fields ["type"; "username"; "text"; "timestamp"] (chat_msg username text now)
  = [Some (JStr "chat"); Some (JStr username); Some text; Some (JNum now)].
Proof. reflexivity. Qed.

Lemma system_msg_wire message now :
  Wire.fields ["type"; "message"; "timestamp"] (system_msg message now)
  = [Some (JStr "system"); Some (JStr message); Some (JNum now)].
Proof. reflexivity. Qed.

Lemma username_accepted_msg_wire username userId :
  Wire.fields ["type"; "username"; "userId"] (username_accepted_msg username userId)
  = [Some (JStr "username_accepted"); Some (JStr username); Some (JStr userId)].
Proof. reflexivity. Qed.

Lemma error_msg_wire message :
  Wire.fields ["type"; "message"] (error_msg message)
  = [Some (JStr "error"); Some (JStr message)].
Proof. reflexivity. Qed.

(** What a broadcast of one message sent is that message. *)
Lemma elem_of_broadcast (msg : JSON) (l : list Channel) c m :
  (c, m) ∈ map (λ c, (c, msg)) l → m = msg.
Proof. by intros (c' & [= _ ->] & _)%list_elem_of_fmap. Qed.

Lemma same_sockets_refl σ : same_sockets σ σ.
Proof. done. Qed.

Lemma same_sockets_trans σ1 σ2 σ3 :
  same_sockets σ1 σ2 → same_sockets σ2 σ3 → same_sockets σ1 σ3.
Proof. unfold same_sockets. intros (-> & -> & ->) (-> & -> & ->). done. Qed.

Lemma sendToClient_open ws msg σ :
  readyState σ ws = OPEN → sendToClient ws msg σ = emit [(ws, msg)] σ.
Proof. intros E. unfold sendToClient. by case_decide. Qed.

Lemma readyState_emit out σ ws : readyState (emit out σ) ws = readyState σ ws.
Proof. done. Qed.

Lemma sendToClient_sockets ws msg σ : same_sockets σ (sendToClient ws msg σ).
Proof. unfold sendToClient. by case_decide. Qed.

Lemma broadcast_sockets msg ex σ : same_sockets σ (broadcast msg ex σ).
Proof. done. Qed.

Lemma sendToClient_users ws msg σ :
  connectedUsers (sendToClient ws msg σ) = connectedUsers σ.
Proof. unfold sendToClient. by case_decide. Qed.

Lemma sendToClient_clients ws msg σ :
  clients (sendToClient ws msg σ) = clients σ.
Proof. unfold sendToClient. by case_decide. Qed.

Lemma set_username_sockets ws data now rnd σ :
  same_sockets σ (set_username ws data now rnd σ).
Proof.
  unfold set_username, sendToClient.
  repeat (case_match || case_decide); done.
Qed.

Lemma relay_sockets ws data σ : same_sockets σ (relay ws data σ).
Proof. unfold relay. repeat (case_match || case_decide); done. Qed.

Lemma on_message_sockets ws isBinary parsed now rnd σ σ' :
  on_message ws isBinary parsed now rnd σ = Some σ' → same_sockets σ σ'.
Proof.
  unfold on_message, chat, audio_state, video_state. intros E.
  repeat case_match; simplify_eq; try done;
    auto using sendToClient_sockets, set_username_sockets, relay_sockets.
Qed.

Lemma on_close_sockets ws now σ : same_sockets σ (on_close ws now σ).
Proof. unfold on_close. by case_match. Qed.

Lemma set_username_users_NoDup ws data now rnd σ :
  NoDup (JSMap.keys (connectedUsers σ)) →
  NoDup (JSMap.keys (connectedUsers (set_username ws data now rnd σ))).
Proof.
  intros Hnd. unfold set_username, sendToClient.
  repeat (case_match || case_decide); cbn; try done;
    by apply JSMapFacts.NoDup_keys_set.
Qed.

Lemma on_message_users_NoDup ws isBinary parsed now rnd σ σ' :
  on_message ws isBinary parsed now rnd σ = Some σ' →
  NoDup (JSMap.keys (connectedUsers σ)) →
  NoDup (JSMap.keys (connectedUsers σ')).
Proof.
  unfold on_message, chat, audio_state, video_state, relay. intros E Hnd.
  repeat (case_match || case_decide); simplify_eq;
    rewrite ?sendToClient_users; auto using set_username_users_NoDup.
Qed.

(** *** Well-formed states *)


Lemma wf_initial : wf initial.
Proof.
  split; cbn; try apply NoDup_nil_2; intros ws; [inversion 1|set_solver].
Qed.

Lemma wf_next_fresh σ : wf σ → JSMap.get (next_ws σ) (wss_clients σ) = None.
Proof.
  intros Hwf. apply JSMapFacts.get_None_keys. intros Hin.
  apply (wf_fresh _ Hwf) in Hin. lia.
Qed.

Lemma wf_same_sockets σ σ' :
  same_sockets σ σ' → NoDup (JSMap.keys (connectedUsers σ')) → wf σ → wf σ'.
Proof.
  intros (E1 & E2 & E3) Hnd [H1 H2 H3 H4].
  split; rewrite ?E1, ?E2, ?E3; done.
Qed.

Lemma get_close_socket_ne (l : list (Channel * ReadyState)) ws c :
  c ≠ ws →
  JSMap.get c (map (λ '(c', rs), if decide (c' = ws) then (c', CLOSING) else (c', rs)) l)
  = JSMap.get c l.
Proof.
  intros Hne. induction l as [|[c' rs] l IH]; cbn; [done|].
  destruct (decide (c' = ws)) as [->|]; cbn;
    destruct (decide (c = _)); try done; congruence.
Qed.

Lemma keys_close_socket (l : list (Channel * ReadyState)) ws :
  JSMap.keys (map (λ '(c', rs), if decide (c' = ws) then (c', CLOSING) else (c', rs)) l)
  = JSMap.keys l.
Proof.
  unfold JSMap.keys. induction l as [|[c' rs] l IH]; cbn; [done|].
  rewrite IH. by destruct (decide (c' = ws)).
Qed.

Lemma keys_snoc {K V} (l : list (K * V)) k v :
  JSMap.keys (l ++ [(k, v)]) = JSMap.keys l ++ [k].
Proof. unfold JSMap.keys. by rewrite map_app. Qed.

Lemma wf_step σ e σ' : wf σ → step σ e = Some σ' → wf σ'.
Proof.
  intros Hwf Hstep. destruct e as [|ws isBinary parsed now rnd|ws now]; cbn in Hstep.
  - (* Connect *)
    injection Hstep as <-. pose proof (wf_next_fresh _ Hwf) as Hfresh.
    destruct Hwf as [H1 H2 H3 H4].
    assert (Hnl : next_ws σ ∉ listening σ).
    { intros Hin. apply H3 in Hin. congruence. }
    unfold on_connection.
    assert (Hro : readyState
                    (with_wss_clients (λ l, l ++ [(next_ws σ, OPEN)])
                       (with_next_ws S σ)) (next_ws σ) = OPEN).
    { unfold readyState. cbn -[JSMap.get]. rewrite JSMapFacts.get_snoc, Hfresh.
      by case_decide. }
    case_decide.
    + (* refused *)
      rewrite sendToClient_open by done.
      split; cbn -[JSMap.keys JSMap.get]; rewrite ?keys_close_socket, ?keys_snoc.
      * intros ws [Hin| ->%list_elem_of_singleton]%elem_of_app;
          [apply H1 in Hin|]; lia.
      * apply NoDup_app; split_and!; [done | | apply NoDup_singleton].
        intros x Hx ->%list_elem_of_singleton.
        by apply JSMapFacts.get_None_keys in Hfresh.
      * intros ws Hin. rewrite get_close_socket_ne by (intros ->; done).
        rewrite JSMapFacts.get_snoc. by rewrite (H3 _ Hin).
      * done.
    + (* accepted *)
      rewrite (sendToClient_open _ request_username_msg) by done.
      rewrite sendToClient_open by done.
      split; cbn -[JSMap.keys JSMap.get]; rewrite ?keys_snoc.
      * intros ws [Hin| ->%list_elem_of_singleton]%elem_of_app;
          [apply H1 in Hin|]; lia.
      * apply NoDup_app; split_and!; [done | | apply NoDup_singleton].
        intros x Hx ->%list_elem_of_singleton.
        by apply JSMapFacts.get_None_keys in Hfresh.
      * intros ws [->%elem_of_singleton|Hin]%elem_of_union;
          rewrite JSMapFacts.get_snoc;
          [rewrite Hfresh; by case_decide | by rewrite (H3 _ Hin)].
      * done.
  - (* Message *)
    case_decide; [|by simplify_eq].
    eapply wf_same_sockets; [by eapply on_message_sockets | | done].
    eapply on_message_users_NoDup; [done | apply Hwf].
  - (* Close *)
    destruct (JSMap.has ws (wss_clients σ)); [|by simplify_eq].
    destruct Hwf as [H1 H2 H3 H4].
    case_decide as Hl; simplify_eq; cbn -[JSMap.keys JSMap.get] in *.
    + destruct (on_close_sockets ws now (with_wss_clients (JSMap.delete ws) σ))
        as (E1 & E2 & E3).
      split; cbn [wss_clients listening next_ws connectedUsers with_listening];
        rewrite ?E1, ?E2, ?E3;
        cbn [wss_clients listening next_ws connectedUsers with_wss_clients].
      * intros c Hc. apply H1. by eapply JSMapFacts.keys_delete_subseteq.
      * by apply JSMapFacts.NoDup_keys_delete.
      * intros c [Hc Hne%not_elem_of_singleton]%elem_of_difference.
        rewrite JSMapFacts.get_delete_ne by done. auto.
      * unfold on_close. case_match; cbn -[JSMap.keys JSMap.get]; [|done].
        by apply JSMapFacts.NoDup_keys_delete.
    + split; cbn -[JSMap.keys JSMap.get].
      * intros c Hc. apply H1. by eapply JSMapFacts.keys_delete_subseteq.
      * by apply JSMapFacts.NoDup_keys_delete.
      * intros c Hc. rewrite JSMapFacts.get_delete_ne by (intros ->; done). auto.
      * done.
Qed.

Lemma wf_run es : ∀ σ σ', wf σ → run σ es = Some σ' → wf σ'.
Proof.
  induction es as [|e es IH]; cbn; intros σ σ' Hwf Hrun; [by simplify_eq|].
  destruct (step σ e) as [σ1|] eqn:Hstep; [|done].
  eauto using wf_step.
Qed.


Lemma reachable_wf σ : reachable σ → wf σ.
Proof. intros [es Hrun]. eauto using wf_run, wf_initial. Qed.

(** *** Admission control *)

Lemma step_Connect σ :
  wf σ →
  let ws := next_ws σ in
  let σ1 := with_wss_clients (λ l, l ++ [(ws, OPEN)]) (with_next_ws S σ) in
  step σ Connect =
    Some (if decide (MAX_CLIENTS ≤ length (wss_clients σ))
          then close_socket ws
                 (emit [(ws, error_msg "Server full. Try again later.")] σ1)
          else with_listening (union {[ws]})
                 (emit [(ws, request_username_msg);
                        (ws, user_list_msg (connectedUsers σ))] σ1)).
Proof.
  intros Hwf. cbn zeta. pose proof (wf_next_fresh _ Hwf) as Hfresh.
  cbn [step].
  set (σ1 := with_wss_clients _ (with_next_ws S σ)).
  assert (Hro : readyState σ1 (next_ws σ) = OPEN).
  { unfold readyState, σ1. cbn -[JSMap.get].
    rewrite JSMapFacts.get_snoc, Hfresh. by case_decide. }
  unfold on_connection. f_equal.
  assert (Hlen : length (wss_clients σ1) = S (length (wss_clients σ))).
  { unfold σ1. cbn. rewrite length_app. cbn. lia. }
  rewrite Hlen. repeat case_decide; try lia.
  - by rewrite sendToClient_open.
  - rewrite (sendToClient_open _ request_username_msg) by done.
    rewrite sendToClient_open by done.
    unfold emit, with_listening. cbn. by rewrite <- app_assoc.
Qed.

Lemma readyState_closed_socket ws σ :
  JSMap.get ws (wss_clients σ) = None →
  readyState
    (close_socket ws (with_wss_clients (λ l, l ++ [(ws, OPEN)]) σ)) ws = CLOSING.
Proof.
  intros Hfresh. unfold readyState, close_socket. cbn -[JSMap.get].
  induction (wss_clients σ) as [|[c rs] l IH]; cbn in *.
  - by repeat case_decide.
  - destruct (decide (ws = c)) as [->|Hne]; [done|].
    destruct (decide (c = ws)); [congruence|]. cbn.
    destruct (decide (ws = c)); [congruence|]. auto.
Qed.

(** C2, as the code has it.  The capacity check counts sockets, not
    registered peers: a connection attempt is refused exactly when 200
    sockets are already connected.  The refused socket gets one error reply,
    is closed and gets no listeners; the Registry is not modified, so a
    Registry of 200 peers stays at 200. *)
Theorem connect_refused_iff_sockets_full σ :
  wf σ →
  (refuses σ ↔ MAX_CLIENTS ≤ length (wss_clients σ))
  ∧ (∀ σ', step σ Connect = Some σ' →
      connectedUsers σ' = connectedUsers σ
      ∧ clients σ' = clients σ
      ∧ (MAX_CLIENTS ≤ length (wss_clients σ) →
           sent_by σ σ' = [(next_ws σ, error_msg "Server full. Try again later.")]
           ∧ readyState σ' (next_ws σ) = CLOSING
           ∧ (next_ws σ ∉ listening σ')
           ∧ (JSMap.size (connectedUsers σ) = 200 →
              JSMap.size (connectedUsers σ') = 200)
           ∧ (∀ c m, (c, m) ∈ sent_by σ σ' →
                Wire.fields ["type"; "message"] m
                = [Some (JStr "error"); Some (JStr "Server full. Try again later.")]))).
Proof.
  intros Hwf. pose proof (step_Connect σ Hwf) as Hstep. cbn zeta in Hstep.
  pose proof (wf_next_fresh _ Hwf) as Hfresh.
  assert (Hnl : next_ws σ ∉ listening σ).
  { intros Hin. apply (wf_listening _ Hwf) in Hin. congruence. }
  split.
  - split.
    + intros (σ' & Hs & Hin & Hclosing). rewrite Hstep in Hs.
      destruct (decide (MAX_CLIENTS ≤ length (wss_clients σ))); [done|].
      simplify_eq. unfold readyState in Hclosing. cbn -[JSMap.get] in Hclosing.
      rewrite JSMapFacts.get_snoc, Hfresh in Hclosing.
      by destruct (decide (next_ws σ = next_ws σ)).
    + intros Hfull. eexists. split; [exact Hstep|].
      destruct (decide (MAX_CLIENTS ≤ length (wss_clients σ))); [|done]. split.
      * erewrite sent_by_app; [|reflexivity]. left.
      * by apply (readyState_closed_socket _ (with_next_ws S σ)).
  - intros σ' Hs. rewrite Hstep in Hs.
    destruct (decide (MAX_CLIENTS ≤ length (wss_clients σ))); simplify_eq;
      split_and!; try done.
    intros _.
    match goal with
    | |- sent_by σ ?s = ?out ∧ _ =>
        assert (Hsent : sent_by σ s = out) by by apply sent_by_app
    end.
    split_and!; try done.
    + by apply (readyState_closed_socket _ (with_next_ws S σ)).
    + intros c m. rewrite Hsent. by intros [= _ ->]%list_elem_of_singleton.
Qed.

Lemma full_house_reachable : reachable full_house.
Proof. exists (replicate 200 Connect). by vm_compute. Qed.

Lemma connect_refused_iff_sockets_full_witness :
  wf full_house
  ∧ (refuses full_house ↔ MAX_CLIENTS ≤ length (wss_clients full_house))
  ∧ (∀ σ', step full_house Connect = Some σ' →
      connectedUsers σ' = connectedUsers full_house
      ∧ clients σ' = clients full_house
      ∧ (MAX_CLIENTS ≤ length (wss_clients full_house) →
           sent_by full_house σ' =
             [(next_ws full_house, error_msg "Server full. Try again later.")]
           ∧ readyState σ' (next_ws full_house) = CLOSING
           ∧ (next_ws full_house ∉ listening σ')
           ∧ (JSMap.size (connectedUsers full_house) = 200 →
              JSMap.size (connectedUsers σ') = 200)
           ∧ (∀ c m, (c, m) ∈ sent_by full_house σ' →
                Wire.fields ["type"; "message"] m
                = [Some (JStr "error"); Some (JStr "Server full. Try again later.")]))).
Proof.
  split; [exact (reachable_wf _ full_house_reachable)|].
  apply (connect_refused_iff_sockets_full full_house).
  exact (reachable_wf _ full_house_reachable).
Defined.

(** C2, as the specification states it, fails: with 200 sockets connected
    and nobody registered the next connection is refused although the
    registered count, 0, is below the ceiling. *)
Lemma refusal_ignores_registered_count :
  run initial (replicate 200 Connect) = Some full_house
  ∧ JSMap.size (connectedUsers full_house) = 0
  ∧ ¬ (refuses full_house ↔ MAX_CLIENTS ≤ JSMap.size (connectedUsers full_house)).
Proof.
  assert (Hsize : JSMap.size (connectedUsers full_house) = 0)
    by (vm_compute; reflexivity).
  split; [vm_compute; reflexivity|]. split; [exact Hsize|].
  rewrite Hsize. intros [Hclaim _].
  assert (Hr : refuses full_house).
  { eexists. split; [vm_compute; reflexivity|].
    split; [vm_compute; left | vm_compute; reflexivity]. }
  apply Hclaim in Hr. unfold MAX_CLIENTS in Hr. lia.
Qed.

(** *** Who a broadcast reaches *)

Lemma elem_of_recipients σ ex c :
  wf σ →
  c ∈ recipients ex σ ↔ readyState σ c = OPEN ∧ Some c ≠ ex.
Proof.
  intros Hwf. unfold recipients, readyState. rewrite list_elem_of_omap. split.
  - intros ([c' rs] & Hin & Hsome).
    destruct (bool_decide (rs = OPEN)) eqn:Hrs; [|done].
    destruct (bool_decide (Some c' = ex)) eqn:Hex; [done|]. cbn in Hsome.
    apply bool_decide_eq_true in Hrs. apply bool_decide_eq_false in Hex.
    simplify_eq. split; [|done].
    by rewrite (JSMapFacts.get_elem_NoDup _ _ _ (wf_sockets _ Hwf) Hin).
  - intros [Hopen Hex].
    destruct (JSMap.get c (wss_clients σ)) as [rs|] eqn:Hget; [|done].
    cbn in Hopen. subst rs. exists (c, OPEN). split.
    + by apply JSMapFacts.get_Some_elem.
    + rewrite bool_decide_eq_true_2 by done.
      by rewrite bool_decide_eq_false_2 by done.
Qed.

Lemma recipients_absent σ ws :
  ws ∉ JSMap.keys (wss_clients σ) → recipients (Some ws) σ = recipients None σ.
Proof.
  unfold recipients, JSMap.keys.
  induction (wss_clients σ) as [|[c rs] l IH]; cbn; [done|].
  intros [Hne Hnin]%not_elem_of_cons. rewrite IH by done.
  rewrite (bool_decide_eq_false_2 (Some c = Some ws)) by congruence.
  done.
Qed.

Lemma listening_open σ ws : wf σ → ws ∈ listening σ → readyState σ ws = OPEN.
Proof. intros Hwf Hin. unfold readyState. by rewrite (wf_listening _ Hwf _ Hin). Qed.

(** *** Join *)

Lemma step_Message_listening σ ws isBinary parsed now rnd :
  ws ∈ listening σ →
  step σ (Message ws isBinary parsed now rnd)
  = on_message ws isBinary parsed now rnd σ.
Proof. intros Hin. cbn. by case_decide. Qed.

Lemma on_message_set_username σ ws data now rnd :
  Js.prop data "type" = Some (JStr "set_username") →
  on_message ws false (Some data) now rnd σ = Some (set_username ws data now rnd σ).
Proof.
  intros Hty. unfold on_message.
  destruct data; try done. by rewrite Hty.
Qed.

Lemma set_username_accepted σ ws data now rnd u :
  Js.prop data "username" = Some (JStr u) →
  0 < String.length (Js.trim u) →
  readyState σ ws = OPEN →
  let users' :=
    JSMap.set rnd {| cu_userId := rnd; cu_username := Js.trim u; cu_ws := ws |}
      (connectedUsers σ) in
  let σ' := set_username ws data now rnd σ in
  connectedUsers σ' = users'
  ∧ clients σ' = <[ws := {| ci_username := Js.trim u; ci_userId := rnd |}]> (clients σ)
  ∧ outbox σ' =
      outbox σ
      ++ [(ws, username_accepted_msg (Js.trim u) rnd)]
      ++ map (λ c, (c, system_msg (Js.trim u +:+ " joined the chat.") now))
           (recipients (Some ws) σ)
      ++ map (λ c, (c, user_list_msg users')) (recipients None σ)
      ++ map (λ c, (c, audio_states_msg (userAudioStates σ))) (recipients None σ)
      ++ map (λ c, (c, video_states_msg (userVideoStates σ))) (recipients None σ).
Proof.
  intros Hu Hlen Hopen. cbn zeta. unfold set_username. rewrite Hu.
  case_decide; [|lia].
  rewrite sendToClient_open by done.
  split_and!; [done..|].
  cbn. rewrite <- !app_assoc. done.
Qed.

Lemma system_msg_no_reference id message now :
  Js.refers_to id (system_msg message now) = false.
Proof.
  unfold system_msg. cbn [Js.refers_to existsb].
  replace (Js.id_key "type") with false by (by vm_compute).
  replace (Js.id_key "message") with false by (by vm_compute).
  replace (Js.id_key "timestamp") with false by (by vm_compute).
  done.
Qed.

Lemma user_list_msg_reference id users u :
  JSMap.get id users = Some u → cu_userId u = id →
  Js.refers_to id (user_list_msg users) = true.
Proof.
  intros Hget Hid. unfold user_list_msg. cbn [Js.refers_to existsb].
  replace (Js.id_key "type") with false by (by vm_compute).
  replace (Js.id_key "users") with false by (by vm_compute).
  cbn [andb orb]. rewrite orb_false_r. apply existsb_exists.
  exists (user_entry u). split.
  - apply in_map. apply JSMapFacts.get_Some_elem, list_elem_of_In in Hget.
    by apply (in_map snd) in Hget.
  - unfold user_entry. cbn [Js.refers_to existsb].
    replace (Js.id_key "userId") with true by (by vm_compute).
    cbn. by rewrite Hid, bool_decide_eq_true_2.
Qed.

(** A broadcast [first] to the channels [R], after messages [pre] that do
    not refer to [id] and before messages [rest] sent to channels of [R]
    only: whoever is sent a reference to [id] has been sent [first]. *)
Lemma first_reference (ws : Channel) (id : string) (first : JSON)
    (pre rest : list (Channel * JSON)) (R : list Channel) i c m :
  (∀ c' m', (c', m') ∈ pre → c' ≠ ws → Js.refers_to id m' = false) →
  (∀ c' m', (c', m') ∈ rest → c' ∈ R) →
  (pre ++ map (λ c, (c, first)) R ++ rest) !! i = Some (c, m) →
  c ≠ ws →
  Js.refers_to id m = true →
  ∃ j, j ≤ i ∧ (pre ++ map (λ c, (c, first)) R ++ rest) !! j = Some (c, first).
Proof.
  intros Hpre Hrest Hi Hne Href.
  apply lookup_app_Some in Hi as [Hi|[Hle Hi]].
  { apply list_elem_of_lookup_2 in Hi. rewrite (Hpre _ _ Hi Hne) in Href. done. }
  apply lookup_app_Some in Hi as [Hi|[Hle' Hi]].
  { exists i. split; [done|].
    rewrite lookup_app_r by done. rewrite lookup_app_l by (by eapply lookup_lt_Some).
    rewrite Hi. rewrite list_lookup_fmap in Hi.
    destruct (R !! (i - length pre)); by simplify_eq/=. }
  apply list_elem_of_lookup_2, Hrest, list_elem_of_lookup_1 in Hi as [k Hk].
  pose proof (lookup_lt_Some _ _ _ Hk) as Hlt.
  rewrite length_map in Hle'.
  exists (length pre + k). split; [lia|].
  rewrite lookup_app_r by lia.
  replace (length pre + k - length pre) with k by lia.
  rewrite lookup_app_l by (rewrite length_map; lia).
  by rewrite list_lookup_fmap, Hk.
Qed.

(** C4.  A successful join sends, in this order, [username_accepted] to the
    joiner only, the [system] notice of the join to every open channel
    except the joiner, and the [user_list], which lists the new id, to
    every open channel including the joiner (the audio and video state
    lists follow).  No channel other than the joiner is sent a message
    referring to the new id before it is sent that [user_list].  Read
    property by property, the reply carries the trimmed name and the new
    id, the notice the text of the join and the time, the [user_list] the
    id and name of every record of the Registry, and the state lists the
    rows of the two tables. *)
Theorem join_order σ ws data now rnd u :
  wf σ →
  ws ∈ listening σ →
  Js.prop data "type" = Some (JStr "set_username") →
  Js.prop data "username" = Some (JStr u) →
  0 < String.length (Js.trim u) →
  ∃ σ',
    step σ (Message ws false (Some data) now rnd) = Some σ'
    ∧ let others := recipients (Some ws) σ in
      let everyone := recipients None σ in
      let accepted := username_accepted_msg (Js.trim u) rnd in
      let notice := system_msg (Js.trim u +:+ " joined the chat.") now in
      let listing := user_list_msg (connectedUsers σ') in
      let audio := audio_states_msg (userAudioStates σ') in
      let video := video_states_msg (userVideoStates σ') in
      sent_by σ σ' =
        [(ws, accepted)]
        ++ map (λ c, (c, notice)) others
        ++ map (λ c, (c, listing)) everyone
        ++ map (λ c, (c, audio)) everyone
        ++ map (λ c, (c, video)) everyone
      ∧ (∀ c, c ∈ others ↔ readyState σ c = OPEN ∧ c ≠ ws)
      ∧ (∀ c, c ∈ everyone ↔ readyState σ c = OPEN)
      ∧ ws ∈ everyone
      ∧ JSMap.get rnd (connectedUsers σ') =
          Some {| cu_userId := rnd; cu_username := Js.trim u; cu_ws := ws |}
      ∧ Js.refers_to rnd listing = true
      ∧ (∀ i c m,
           sent_by σ σ' !! i = Some (c, m) → c ≠ ws → Js.refers_to rnd m = true →
           ∃ j, j ≤ i ∧ sent_by σ σ' !! j = Some (c, listing))
      ∧ Wire.fields ["type"; "username"; "userId"] accepted
        = [Some (JStr "username_accepted"); Some (JStr (Js.trim u)); Some (JStr rnd)]
      ∧ Wire.fields ["type"; "message"; "timestamp"] notice
        = [Some (JStr "system"); Some (JStr (Js.trim u +:+ " joined the chat."));
           Some (JNum now)]
      ∧ Js.prop listing "type" = Some (JStr "user_list")
      ∧ Wire.users listing = Some (Wire.user_rows (connectedUsers σ'))
      ∧ [Some (JStr rnd); Some (JStr (Js.trim u))]
        ∈ Wire.user_rows (connectedUsers σ')
      ∧ Js.prop audio "type" = Some (JStr "audio_states")
      ∧ Wire.states "isAudioEnabled" audio
        = Some (Wire.audio_rows (userAudioStates σ'))
      ∧ Js.prop video "type" = Some (JStr "video_states")
      ∧ Wire.states "isVideoEnabled" video
        = Some (Wire.video_rows (userVideoStates σ')).
Proof.
  intros Hwf Hl Hty Hu Hlen.
  pose proof (listening_open _ _ Hwf Hl) as Hopen.
  destruct (set_username_accepted σ ws data now rnd u Hu Hlen Hopen)
    as (Husers & Hclients & Hout).
  exists (set_username ws data now rnd σ). split.
  { rewrite step_Message_listening by done. by apply on_message_set_username. }
  cbn zeta. set (σ' := set_username ws data now rnd σ) in *.
  assert (Hau : userAudioStates σ' = userAudioStates σ).
  { unfold σ', set_username. rewrite Hu. case_decide; [|lia].
    by rewrite sendToClient_open. }
  assert (Hvi : userVideoStates σ' = userVideoStates σ).
  { unfold σ', set_username. rewrite Hu. case_decide; [|lia].
    by rewrite sendToClient_open. }
  assert (Hget : JSMap.get rnd (connectedUsers σ') =
            Some {| cu_userId := rnd; cu_username := Js.trim u; cu_ws := ws |}).
  { rewrite Husers, JSMapFacts.get_set. by case_decide. }
  assert (Href : Js.refers_to rnd (user_list_msg (connectedUsers σ')) = true).
  { by eapply user_list_msg_reference. }
  assert (Hsent : sent_by σ σ' =
        [(ws, username_accepted_msg (Js.trim u) rnd)]
        ++ map (λ c, (c, system_msg (Js.trim u +:+ " joined the chat.") now))
             (recipients (Some ws) σ)
        ++ map (λ c, (c, user_list_msg (connectedUsers σ'))) (recipients None σ)
        ++ map (λ c, (c, audio_states_msg (userAudioStates σ'))) (recipients None σ)
        ++ map (λ c, (c, video_states_msg (userVideoStates σ'))) (recipients None σ)).
  { apply sent_by_app. by rewrite Hout, Husers, Hau, Hvi. }
  split_and!; try done.
  - intros c. rewrite elem_of_recipients by done.
    split; intros [? ?]; split; congruence.
  - intros c. rewrite elem_of_recipients by done.
    split; [by intros [? _] | by intros ?].
  - apply elem_of_recipients; done.
  - intros i c m Hi Hne Hm. rewrite Hsent in Hi |- *.
    rewrite app_assoc in Hi |- *.
    eapply first_reference; [| |exact Hi|exact Hne|exact Hm].
    + intros c' m' [Hin|Hin]%elem_of_app Hne'.
      * apply list_elem_of_singleton in Hin. congruence.
      * apply list_elem_of_fmap in Hin as (c0 & [= -> ->] & _).
        apply system_msg_no_reference.
    + intros c' m' [Hin|Hin]%elem_of_app;
        apply list_elem_of_fmap in Hin as (c0 & [= -> ->] & Hin); done.
  - apply user_list_msg_wire.
  - apply JSMapFacts.get_Some_elem in Hget. unfold Wire.user_rows, JSMap.values.
    apply list_elem_of_fmap. eexists. split; [|apply list_elem_of_fmap; by eexists].
    done.
  - apply audio_states_msg_wire.
  - apply video_states_msg_wire.
Qed.

Lemma two_sockets_wf : wf two_sockets.
Proof.
  apply reachable_wf.
  exists [ Connect; Connect;
           Message 0 false (Some (set_username_data "alice")) 1000 "4fzyo82mv" ].
  by vm_compute.
Qed.

Lemma join_order_witness :
  ∃ σ',
    step two_sockets
      (Message 1 false (Some (set_username_data "bob")) 2000 "k8l2q0xw1") = Some σ'
    ∧ sent_by two_sockets σ' !! 0 = Some (1, username_accepted_msg "bob" "k8l2q0xw1")
    ∧ sent_by two_sockets σ' !! 1 = Some (0, system_msg "bob joined the chat." 2000).
Proof.
  destruct (join_order two_sockets 1 (set_username_data "bob") 2000 "k8l2q0xw1" "bob")
    as (σ' & Hstep & Hsent & _).
  - exact two_sockets_wf.
  - by vm_compute.
  - reflexivity.
  - reflexivity.
  - vm_compute. lia.
  - exists σ'. split; [exact Hstep|]. rewrite Hsent. split; reflexivity.
Defined.

(** *** Relay *)

Lemma lookup_set_field_eq k v fs :
  Js.lookup_field k (Js.set_field k v fs) = Some v.
Proof.
  induction fs as [|[k' v'] fs IH]; cbn.
  - by case_decide.
  - destruct (decide (k = k')) as [->|Hne]; cbn; by case_decide.
Qed.

Lemma lookup_set_field_ne k k' v fs :
  k ≠ k' → Js.lookup_field k (Js.set_field k' v fs) = Js.lookup_field k fs.
Proof.
  intros Hne. induction fs as [|[k0 v0] fs IH]; cbn.
  - by case_decide.
  - destruct (decide (k' = k0)) as [->|Hne']; cbn;
      destruct (decide (k = k0)); congruence.
Qed.

Lemma messageWithSender_identity data senderInfo :
  Js.prop (messageWithSender data senderInfo) "senderUserId"
    = Some (JStr (ci_userId senderInfo))
  ∧ Js.prop (messageWithSender data senderInfo) "senderUsername"
    = Some (JStr (ci_username senderInfo)).
Proof.
  unfold messageWithSender. cbn [Js.prop]. split.
  - rewrite lookup_set_field_ne by done. apply lookup_set_field_eq.
  - apply lookup_set_field_eq.
Qed.

Lemma on_message_signaling σ ws data now rnd :
  is_signaling (Js.prop data "type") = true →
  on_message ws false (Some data) now rnd σ = Some (relay ws data σ).
Proof.
  intros Hty. unfold on_message. destruct data; try done.
  destruct (Js.prop (JObj fields) "type") as [[| | |s| |]|]; try done.
  unfold is_signaling, Js.is_str in *.
  repeat (case_bool_decide; simplify_eq; try done).
Qed.

Lemma step_relay σ ws data now rnd :
  is_signaling (Js.prop data "type") = true →
  step σ (Message ws false (Some data) now rnd)
  = Some (if decide (ws ∈ listening σ) then relay ws data σ else σ).
Proof.
  intros Hty. cbn [step]. case_decide; [|done]. by apply on_message_signaling.
Qed.

Lemma relay_sent σ ws data :
  sent_by σ (relay ws data σ) =
    match targetUser data σ, clients σ !! ws with
    | Some target, Some senderInfo =>
        if decide (readyState σ (cu_ws target) = OPEN)
        then [(cu_ws target, messageWithSender data senderInfo)] else []
    | _, _ => []
    end.
Proof.
  unfold relay.
  destruct (targetUser data σ) as [target|]; [|apply sent_by_refl].
  case_decide; [|destruct (clients σ !! ws); apply sent_by_refl].
  destruct (clients σ !! ws); [|apply sent_by_refl]. by apply sent_by_app.
Qed.

(** C7.  Every forwarded [webrtc_offer], [webrtc_answer] or
    [webrtc_ice_candidate] carries as [senderUserId] and [senderUsername]
    the identity the hub registered for the originating channel, whatever
    the client wrote in its message; a registered sender's envelope to an
    open target is forwarded to that target alone; and two requests from
    one channel to the same target yield the same destination and the same
    sender identity, whatever else they contain. *)
Theorem relay_sender_authoritative σ ws data now rnd :
  is_signaling (Js.prop data "type") = true →
  ∃ σ',
    step σ (Message ws false (Some data) now rnd) = Some σ'
    ∧ (∀ c m, (c, m) ∈ sent_by σ σ' →
         ∃ senderInfo,
           clients σ !! ws = Some senderInfo
           ∧ Js.prop m "senderUserId" = Some (JStr (ci_userId senderInfo))
           ∧ Js.prop m "senderUsername" = Some (JStr (ci_username senderInfo)))
    ∧ (∀ senderInfo target,
         ws ∈ listening σ → clients σ !! ws = Some senderInfo →
         targetUser data σ = Some target → readyState σ (cu_ws target) = OPEN →
         sent_by σ σ' = [(cu_ws target, messageWithSender data senderInfo)])
    ∧ (∀ data2 now2 rnd2,
         is_signaling (Js.prop data2 "type") = true →
         Js.prop data2 "targetUserId" = Js.prop data "targetUserId" →
         ∃ σ2',
           step σ (Message ws false (Some data2) now2 rnd2) = Some σ2'
           ∧ map sender_identity (sent_by σ σ2') = map sender_identity (sent_by σ σ')).
Proof.
  intros Hty. eexists. split; [by apply step_relay|]. split_and!.
  - intros c m Hin. case_decide; [|by rewrite sent_by_refl in Hin; inversion Hin].
    rewrite relay_sent in Hin.
    destruct (targetUser data σ) as [target|]; [|inversion Hin].
    destruct (clients σ !! ws) as [senderInfo|]; [|inversion Hin].
    case_decide; [|inversion Hin].
    apply list_elem_of_singleton in Hin as [= -> ->].
    exists senderInfo. split; [done|]. apply messageWithSender_identity.
  - intros senderInfo target Hl Hc Ht Hopen. case_decide; [|done].
    rewrite relay_sent, Ht, Hc. by case_decide.
  - intros data2 now2 rnd2 Hty2 Htarget. eexists. split; [by apply step_relay|].
    case_decide; [|done]. rewrite !relay_sent.
    unfold targetUser. rewrite Htarget.
    destruct (Js.prop data "targetUserId") as [[| | |t| |]|]; try done.
    destruct (JSMap.get t (connectedUsers σ)) as [target|]; [|done].
    destruct (clients σ !! ws) as [senderInfo|]; [|done].
    case_decide; [|done]. cbn [map]. unfold sender_identity. cbn [fst snd].
    destruct (messageWithSender_identity data senderInfo) as [-> ->].
    by destruct (messageWithSender_identity data2 senderInfo) as [-> ->].
Qed.

(** C8.  An offer, answer or candidate whose [targetUserId] is not a key of
    the Registry changes nothing: no message goes to any channel and no
    error goes to the sender. *)
Theorem relay_absent_target_dropped σ ws data now rnd :
  is_signaling (Js.prop data "type") = true →
  (∀ t, Js.prop data "targetUserId" = Some (JStr t) → t ∉ registered_ids σ) →
  step σ (Message ws false (Some data) now rnd) = Some σ
  ∧ sent_by σ σ = [].
Proof.
  intros Hty Habsent. split; [|apply sent_by_refl].
  rewrite step_relay by done. case_decide; [|done].
  unfold relay, targetUser.
  destruct (Js.prop data "targetUserId") as [[| | |t| |]|]; try done.
  specialize (Habsent t eq_refl). apply JSMapFacts.get_None_keys in Habsent.
  by rewrite Habsent.
Qed.

Lemma relay_sender_authoritative_witness :
  ∃ σ',
    step two_peers (Message 0 false (Some spoofed_offer) 3000 "") = Some σ'
    ∧ map sender_identity (sent_by two_peers σ')
      = [(1, Some (JStr "4fzyo82mv"), Some (JStr "alice"))].
Proof.
  destruct (relay_sender_authoritative two_peers 0 spoofed_offer 3000 "")
    as (σ' & Hstep & _ & Hforward & _).
  - reflexivity.
  - exists σ'. split; [exact Hstep|].
    rewrite (Hforward {| ci_username := "alice"; ci_userId := "4fzyo82mv" |}
               {| cu_userId := "k8l2q0xw1"; cu_username := "bob"; cu_ws := 1 |}).
    + reflexivity.
    + by vm_compute.
    + by vm_compute.
    + by vm_compute.
    + by vm_compute.
Defined.

Lemma relay_absent_target_dropped_witness :
  step two_peers (Message 0 false (Some stray_offer) 3000 "") = Some two_peers
  ∧ sent_by two_peers two_peers = [].
Proof.
  apply (relay_absent_target_dropped two_peers 0 stray_offer 3000 "").
  - reflexivity.
  - intros t [= <-]. apply (bool_decide_unpack _). by vm_compute.
Defined.

(** *** Chat *)

(** C10.  A chat message from a channel that has not joined is not
    rejected: the hub broadcasts it to every open channel under the name
    ["Anonymous"], with its own timestamp, and changes nothing else.  Every
    message sent reads [type] ["chat"], [username] ["Anonymous"], the text
    of the request (the empty string when it is falsy) and the time. *)
Theorem chat_before_join_is_anonymous σ ws data now rnd :
  wf σ →
  ws ∈ listening σ →
  clients σ !! ws = None →
  Js.prop data "type" = Some (JStr "chat") →
  ∃ σ',
    step σ (Message ws false (Some data) now rnd) = Some σ'
    ∧ sent_by σ σ' =
        map (λ c, (c, chat_msg "Anonymous"
                        (Js.or_else (Js.prop data "text") (JStr "")) now))
          (recipients None σ)
    ∧ (∀ c, c ∈ recipients None σ ↔ readyState σ c = OPEN)
    ∧ ws ∈ recipients None σ
    ∧ clients σ' = clients σ
    ∧ connectedUsers σ' = connectedUsers σ
    ∧ (∀ c m, (c, m) ∈ sent_by σ σ' →
         Wire.fields ["type"; "username"; "text"; "timestamp"] m
         = [Some (JStr "chat"); Some (JStr "Anonymous");
            Some (Js.or_else (Js.prop data "text") (JStr "")); Some (JNum now)]).
Proof.
  intros Hwf Hl Hnone Hty. exists (chat ws data now σ).
  assert (Hsent : sent_by σ (chat ws data now σ) =
            map (λ c, (c, chat_msg "Anonymous"
                            (Js.or_else (Js.prop data "text") (JStr "")) now))
              (recipients None σ)).
  { apply sent_by_app. unfold chat. by rewrite Hnone. }
  split_and!.
  - rewrite step_Message_listening by done. unfold on_message.
    destruct data; try done. by rewrite Hty.
  - exact Hsent.
  - intros c. rewrite elem_of_recipients by done.
    split; [by intros [? _] | by intros ?].
  - apply elem_of_recipients; [done|]. split; [by apply listening_open | done].
  - done.
  - done.
  - intros c m. rewrite Hsent. intros ->%elem_of_broadcast. apply chat_msg_wire.
Qed.

Lemma chat_before_join_is_anonymous_witness :
  ∃ σ',
    step two_sockets (Message 1 false (Some (chat_data "hi")) 3000 "") = Some σ'
    ∧ sent_by two_sockets σ' =
        [(0, chat_msg "Anonymous" (JStr "hi") 3000);
         (1, chat_msg "Anonymous" (JStr "hi") 3000)].
Proof.
  destruct (chat_before_join_is_anonymous two_sockets 1 (chat_data "hi") 3000 "")
    as (σ' & Hstep & Hsent & _).
  - exact two_sockets_wf.
  - by vm_compute.
  - by vm_compute.
  - reflexivity.
  - exists σ'. split; [exact Hstep|]. rewrite Hsent. reflexivity.
Defined.

(** *** Leave *)

Lemma on_close_registered σ ws now clientInfo :
  clients σ !! ws = Some clientInfo →
  let id := ci_userId clientInfo in
  let σ' := on_close ws now σ in
  connectedUsers σ' = JSMap.delete id (connectedUsers σ)
  ∧ userAudioStates σ' = JSMap.delete id (userAudioStates σ)
  ∧ userVideoStates σ' = JSMap.delete id (userVideoStates σ)
  ∧ clients σ' = delete ws (clients σ)
  ∧ outbox σ' =
      outbox σ
      ++ map (λ c, (c, system_msg (ci_username clientInfo +:+ " left the chat.") now))
           (recipients (Some ws) σ)
      ++ map (λ c, (c, user_list_msg (connectedUsers σ'))) (recipients None σ)
      ++ map (λ c, (c, audio_states_msg (userAudioStates σ'))) (recipients None σ)
      ++ map (λ c, (c, video_states_msg (userVideoStates σ'))) (recipients None σ).
Proof.
  intros Hc. cbn zeta. unfold on_close. rewrite Hc.
  split_and!; [done..|]. cbn. by rewrite <- !app_assoc.
Qed.

(** C9.  The [close] handler does not always remove the Peer record of the
    channel that leaves: it deletes the record stored under the id the
    channel has now.  When alice, who sent [set_username] twice, disconnects,
    the record of her first id stays in the Registry with her closed socket,
    and the [user_list] sent to bob, the remaining channel, after the
    departure notice still lists her.  When two channels were given the same
    id and the first of them disconnects, the record that is deleted is the
    one of the other channel, which is still connected. *)
Theorem leaver_stays_after_rejoin :
  (∃ σ σ',
     run initial Departures.rejoined = Some σ
     ∧ clients σ !! 0 = Some {| ci_username := "alice"; ci_userId := "x7c1m0q3z" |}
     ∧ step σ Departures.alice_leaves = Some σ'
     ∧ readyState σ' 0 = CLOSED
     ∧ registered_channels σ' = [0; 1]
     ∧ JSMap.get "4fzyo82mv" (connectedUsers σ')
       = Some {| cu_userId := "4fzyo82mv"; cu_username := "alice"; cu_ws := 0 |}
     ∧ ∃ notice listing,
         sent_by σ σ' !! 0 = Some (1, notice)
         ∧ Wire.fields ["type"; "message"] notice
           = [Some (JStr "system"); Some (JStr "alice left the chat.")]
         ∧ sent_by σ σ' !! 1 = Some (1, listing)
         ∧ Js.prop listing "type" = Some (JStr "user_list")
         ∧ Wire.users listing
           = Some [ [Some (JStr "4fzyo82mv"); Some (JStr "alice")];
                    [Some (JStr "k8l2q0xw1"); Some (JStr "bob")] ])
  ∧ (∃ σ σ',
       run initial collision_run = Some σ
       ∧ step σ Departures.alice_leaves = Some σ'
       ∧ readyState σ' 1 = OPEN
       ∧ clients σ' !! 1 = Some {| ci_username := "bob"; ci_userId := "4fzyo82mv" |}
       ∧ connectedUsers σ' = []).
Proof.
  split.
  - eexists _, _. split; [vm_compute; reflexivity|].
    split; [by vm_compute|]. split; [vm_compute; reflexivity|].
    split; [by vm_compute|]. split; [by vm_compute|]. split; [by vm_compute|].
    eexists _, _. split; [vm_compute; reflexivity|]. split; [by vm_compute|].
    split; [vm_compute; reflexivity|]. split; by vm_compute.
  - eexists _, _. split; [vm_compute; reflexivity|].
    split; [vm_compute; reflexivity|]. by vm_compute.
Qed.

(** *** The Registry against the join handshake *)

Lemma on_message_registry ws isBinary parsed now rnd σ σ' :
  on_message ws isBinary parsed now rnd σ = Some σ' →
  (joins (Message ws isBinary parsed now rnd) = None
   ∧ clients σ' = clients σ ∧ connectedUsers σ' = connectedUsers σ)
  ∨ (∃ u, joins (Message ws isBinary parsed now rnd) = Some ws
          ∧ clients σ' =
              <[ws := {| ci_username := u; ci_userId := rnd |}]> (clients σ)
          ∧ connectedUsers σ' =
              JSMap.set rnd {| cu_userId := rnd; cu_username := u; cu_ws := ws |}
                (connectedUsers σ)).
Proof.
  unfold on_message, joins. intros E.
  destruct isBinary; [left; by simplify_eq|].
  destruct parsed as [data|];
    [|left; simplify_eq; by rewrite sendToClient_clients, sendToClient_users].
  destruct data as [| | | | |fields]; try done;
    try (cbn in E; left; by simplify_eq).
  destruct (Js.is_str (Js.prop (JObj fields) "type") "set_username").
  - simplify_eq. unfold set_username.
    destruct (Js.prop (JObj fields) "username") as [[| | |u| |]|];
      try (left; by rewrite sendToClient_clients, sendToClient_users).
    case_decide; [|left; by rewrite sendToClient_clients, sendToClient_users].
    right. exists (Js.trim u). unfold sendToClient. by case_decide.
  - left. split; [done|].
    unfold chat, audio_state, video_state, relay in E.
    repeat (case_match || case_decide); by simplify_eq.
Qed.

Lemma on_close_registry ws now σ :
  clients (on_close ws now σ) = delete ws (clients σ)
  ∧ connectedUsers (on_close ws now σ) =
      match clients σ !! ws with
      | Some clientInfo => JSMap.delete (ci_userId clientInfo) (connectedUsers σ)
      | None => connectedUsers σ
      end.
Proof. unfold on_close. by destruct (clients σ !! ws). Qed.

Lemma joins_channel e c :
  joins e = Some c → ∃ isBinary parsed now rnd, e = Message c isBinary parsed now rnd.
Proof.
  unfold joins. intros Hjoin. repeat case_match; simplify_eq. by eexists _, _, _, _.
Qed.

Lemma registry_matches_step σ e σ' J :
  wf σ →
  registry_matches σ J →
  match e, joins e with
  | Message ws _ _ _ rnd, Some _ =>
      ws ∈ listening σ → clients σ !! ws = None ∧ rnd ∉ registered_ids σ
  | _, _ => True
  end →
  step σ e = Some σ' →
  registry_matches σ' (handshaken_step σ e J).
Proof.
  intros Hwf [Hj Hr Hc Hl] Hfirst Hstep.
  destruct e as [|ws isBinary parsed now rnd|ws now].
  - (* Connect *)
    rewrite step_Connect in Hstep by done. cbn zeta in Hstep.
    case_decide; simplify_eq; split; cbn; try done.
    intros ws Hs. apply elem_of_union. right. auto.
  - (* Message *)
    cbn [step] in Hstep. unfold handshaken_step.
    destruct (decide (ws ∈ listening σ)) as [Hin|Hnin].
    + destruct (on_message_sockets _ _ _ _ _ _ _ Hstep) as (_ & Hlist & _).
      destruct (on_message_registry _ _ _ _ _ _ _ Hstep)
        as [(Hjoin & Hcl & Hus)|(u & Hjoin & Hcl & Hus)]; rewrite Hjoin in *.
      * split; rewrite ?Hcl, ?Hus, ?Hlist; done.
      * destruct (Hfirst Hin) as [Hnone Hfresh].
        apply JSMapFacts.get_None_keys in Hfresh.
        rewrite decide_True by done.
        split; rewrite ?Hcl, ?Hus, ?Hlist.
        -- intros ws'. rewrite elem_of_union, elem_of_singleton, Hj.
           destruct (decide (ws' = ws)) as [->|Hne].
           ++ rewrite lookup_insert_eq. split; [by eexists | by right].
           ++ rewrite lookup_insert_ne by done. split; [by intros [?|?]|by left].
        -- intros ws' info Hi. rewrite JSMapFacts.get_set.
           apply lookup_insert_Some in Hi as [[-> <-]|[Hne Hi]].
           ++ cbn. by rewrite decide_True.
           ++ specialize (Hr _ _ Hi). case_decide; [congruence|done].
        -- intros id r Hg. rewrite JSMapFacts.get_set in Hg.
           destruct (decide (id = rnd)) as [->|Hne].
           ++ injection Hg as <-. cbn. by rewrite lookup_insert_eq.
           ++ specialize (Hc _ _ Hg).
              rewrite lookup_insert_ne; [done|]. intros Heq.
              rewrite <- Heq, Hnone in Hc. done.
        -- intros ws' Hs. destruct (decide (ws' = ws)) as [->|Hne]; [done|].
           rewrite lookup_insert_ne in Hs by done. auto.
    + simplify_eq.
      destruct (joins (Message ws isBinary parsed now rnd)) as [c|] eqn:Hjoin;
        [|by split].
      apply joins_channel in Hjoin as (? & ? & ? & ? & [= <- _ _ _ _]).
      rewrite decide_False by done. by split.
  - (* Close *)
    cbn [step] in Hstep. unfold handshaken_step.
    assert (Hout : ws ∉ listening σ → ws ∉ J).
    { intros Hnl Hin. apply Hnl, Hl, Hj, Hin. }
    destruct (JSMap.has ws (wss_clients σ)) eqn:Hhas.
    + cbn [listening with_wss_clients] in Hstep.
      destruct (decide (ws ∈ listening σ)) as [Hin|Hnin]; simplify_eq.
      * destruct (on_close_registry ws now (with_wss_clients (JSMap.delete ws) σ))
          as [Hcl Hus].
        destruct (on_close_sockets ws now (with_wss_clients (JSMap.delete ws) σ))
          as (_ & Hlist & _).
        cbn [clients connectedUsers listening with_wss_clients] in Hcl, Hus, Hlist.
        split; cbn [clients connectedUsers listening with_listening];
          rewrite ?Hcl, ?Hus, ?Hlist.
        -- intros ws'. rewrite elem_of_difference, elem_of_singleton, Hj.
           destruct (decide (ws' = ws)) as [->|Hne].
           ++ rewrite lookup_delete_eq. split; [by intros [_ ?]|by intros [? ?]].
           ++ rewrite lookup_delete_ne by done. split; [by intros [? _]|done].
        -- intros ws' info [Hne Hi]%lookup_delete_Some.
           pose proof (Hr _ _ Hi) as Hrec.
           destruct (clients σ !! ws) as [mine|] eqn:Hmine; [|done].
           rewrite JSMapFacts.get_delete_ne; [done|]. intros Heq.
           pose proof (Hr _ _ Hmine) as Hmy. rewrite <- Heq in Hmy.
           congruence.
        -- intros id r Hg.
           destruct (clients σ !! ws) as [mine|] eqn:Hmine.
           ++ destruct (decide (id = ci_userId mine)) as [->|Hne].
              { rewrite JSMapFacts.get_delete_eq in Hg by apply Hwf. done. }
              rewrite JSMapFacts.get_delete_ne in Hg by done.
              specialize (Hc _ _ Hg). rewrite lookup_delete_ne; [done|].
              intros Heq. rewrite <- Heq, Hmine in Hc. by simplify_eq/=.
           ++ specialize (Hc _ _ Hg). rewrite lookup_delete_ne; [done|].
              intros Heq. rewrite <- Heq, Hmine in Hc. done.
        -- intros ws' [info [Hne Hi]%lookup_delete_Some].
           apply elem_of_difference. split; [by eauto|].
           by intros ->%elem_of_singleton.
      * specialize (Hout Hnin). split; cbn; try done.
        intros ws'. rewrite elem_of_difference, elem_of_singleton, <- Hj.
        split; [by intros [? _]|]. intros Hin. split; [done|]. by intros ->.
    + injection Hstep as <-.
      assert (Hnl : ws ∉ listening σ).
      { intros Hin. apply (wf_listening _ Hwf) in Hin.
        unfold JSMap.has in Hhas. by rewrite Hin in Hhas. }
      specialize (Hout Hnl). split; try done.
      intros ws'. rewrite elem_of_difference, elem_of_singleton, <- Hj.
      split; [by intros [? _]|]. intros Hin. split; [done|]. by intros ->.
Qed.

Lemma registry_matches_initial : registry_matches initial ∅.
Proof.
  split; cbn.
  - intros ws. rewrite lookup_empty. split; [by intros ?%elem_of_empty|by intros [? ?]].
  - intros ws info. by rewrite lookup_empty.
  - done.
  - intros ws. rewrite lookup_empty. by intros [? ?].
Qed.

Lemma registry_matches_run es : ∀ σ J σ',
  wf σ → registry_matches σ J → first_joins σ es → run σ es = Some σ' →
  registry_matches σ' (handshaken σ es J).
Proof.
  induction es as [|e es IH]; cbn [run handshaken first_joins];
    intros σ J σ' Hwf Hm Hfirst Hrun; [by simplify_eq|].
  destruct Hfirst as [Hfirst Hrest].
  destruct (step σ e) as [σ1|] eqn:Hstep; [|done].
  eapply IH; eauto using wf_step, registry_matches_step.
Qed.

(** X16.  Where every channel joins at most once and every generated id is
    new, the Registry is the set of joined, still connected channels: its
    records are in one-to-one correspondence with those channels. *)
Theorem registry_is_handshaken_set es σ :
  first_joins initial es →
  run initial es = Some σ →
  (∀ ws, ws ∈ registered_channels σ ↔ ws ∈ handshaken initial es ∅)
  ∧ NoDup (registered_channels σ)
  ∧ length (registered_ids σ) = size (handshaken initial es ∅).
Proof.
  intros Hfirst Hrun.
  pose proof (wf_run _ _ _ wf_initial Hrun) as Hwf.
  destruct (registry_matches_run es initial ∅ σ wf_initial registry_matches_initial
              Hfirst Hrun) as [Hj Hr Hc Hl].
  set (J := handshaken initial es ∅) in *.
  assert (Hget : ∀ id u, (id, u) ∈ connectedUsers σ →
                         JSMap.get id (connectedUsers σ) = Some u).
  { intros id u. apply JSMapFacts.get_elem_NoDup, Hwf. }
  assert (Hchan : ∀ ws, ws ∈ registered_channels σ ↔ ws ∈ J).
  { intros ws. unfold registered_channels, JSMap.values.
    rewrite Hj, list_elem_of_fmap. split.
    - intros (u & -> & ([id u'] & -> & Hin)%list_elem_of_fmap).
      apply Hget, Hc in Hin. by eexists.
    - intros [info Hi]. specialize (Hr _ _ Hi).
      apply JSMapFacts.get_Some_elem in Hr. eexists. split; [|
        apply list_elem_of_fmap; eexists; split; [|exact Hr]; done]. done. }
  assert (Hnd : NoDup (registered_channels σ)).
  { unfold registered_channels, JSMap.values. rewrite <- list_fmap_compose.
    apply NoDup_fmap_2_strong; [|apply (NoDup_fmap_1 fst), Hwf].
    intros [id1 u1] [id2 u2] H1 H2 Heq. cbn in Heq.
    pose proof (Hget _ _ H1) as G1. pose proof (Hget _ _ H2) as G2.
    pose proof (Hc _ _ G1) as C1. pose proof (Hc _ _ G2) as C2.
    rewrite Heq, C2 in C1. injection C1 as Hu ->. congruence. }
  split_and!; [done..|].
  assert (HJ : J = list_to_set (registered_channels σ)).
  { apply set_eq. intros ws. rewrite elem_of_list_to_set. symmetry. apply Hchan. }
  rewrite HJ, size_list_to_set by done.
  unfold registered_ids, registered_channels, JSMap.keys, JSMap.values.
  by rewrite !length_map.
Qed.

Example orderly_run_registry :
  first_joins initial orderly_run
  ∧ ∃ σ, run initial orderly_run = Some σ
         ∧ registered_channels σ = [1]
         ∧ handshaken initial orderly_run ∅ = {[1]}.
Proof.
  split.
  - unfold orderly_run.
    repeat (split; [try exact I|vm_compute step; cbn beta iota]);
      try exact I; try (vm_compute; reflexivity);
      apply (bool_decide_unpack _); vm_compute; exact I.
  - eexists. split; [vm_compute; reflexivity|]. split; vm_compute; reflexivity.
Qed.

(** C1.  The Registry's peer set does not always equal the set of channels
    that completed the join handshake and have not disconnected: when one
    channel sends [set_username] twice and then disconnects, the [close]
    handler removes only the record of the second id, and the record of the
    first id stays in [connectedUsers] although no channel is joined. *)
Theorem stale_peer_after_rejoin :
  ∃ σ, run initial rejoin_run = Some σ
       ∧ registered_ids σ = ["4fzyo82mv"]
       ∧ registered_channels σ = [0]
       ∧ wss_clients σ = []
       ∧ handshaken initial rejoin_run ∅ = ∅.
Proof. eexists. split; [vm_compute; reflexivity|]. by vm_compute. Qed.

(** C3.  The allocated id is not checked against the Registry: when the
    generator returns for a second channel the id of a registered peer, the
    [set] on [connectedUsers] replaces that peer's record, and both
    channels are left with the same id. *)
Theorem colliding_id_overwrites_peer :
  ∃ σ, run initial collision_run = Some σ
       ∧ connectedUsers σ =
           [("4fzyo82mv",
             {| cu_userId := "4fzyo82mv"; cu_username := "bob"; cu_ws := 1 |})]
       ∧ clients σ !! 0 =
           Some {| ci_username := "alice"; ci_userId := "4fzyo82mv" |}
       ∧ clients σ !! 1 =
           Some {| ci_username := "bob"; ci_userId := "4fzyo82mv" |}.
Proof. eexists. split; [vm_compute; reflexivity|]. by vm_compute. Qed.

End HubSpec.

(** ** The mesh controller *)

Module ClientSpec.
Import Client.

Ltac client_cbn :=
  cbn [userIdRef peersRef localStreamRef ws_open conns next_conn timers
       next_timer timer_log awaits next_call sent uncaught
       with_userIdRef with_peersRef with_localStreamRef with_ws_open with_conns
       with_next_conn with_timers with_next_timer with_timer_log with_awaits
       with_next_call with_sent with_uncaught
       setTimeout clearTimeout await close_connection fst snd].

(** *** The functions of the hook, field by field *)

Lemma handleConnectionFailure_eq remote name σ :
  handleConnectionFailure remote name σ =
    mkClient (userIdRef σ) (delete remote (peersRef σ)) (localStreamRef σ) (ws_open σ)
      (match peersRef σ !! remote with
       | Some oldPeer =>
           alter (λ pc, {| connectionState := cs_closed;
                           pc_userId := pc_userId pc;
                           pc_username := pc_username pc |})
             (connection oldPeer) (conns σ)
       | None => conns σ
       end)
      (next_conn σ)
      (timers σ ++ [(next_timer σ, (1000%Z, t_reconnect remote name))])
      (S (next_timer σ))
      (timer_log σ ++ [(1000%Z, t_reconnect remote name)])
      (awaits σ) (next_call σ) (sent σ) (uncaught σ).
Proof.
  unfold handleConnectionFailure.
  destruct (peersRef σ !! remote) eqn:Hp; client_cbn; [done|].
  by rewrite delete_id.
Qed.

Lemma createPeerConnection_eq remote name σ :
  let peer := {| connection := next_conn σ; userId := remote;
                 username := name; audioElement := false |} in
  let calls := localStreamRef σ && negb (bool_decide (userIdRef σ = "")) in
  createPeerConnection remote name σ =
    (next_conn σ,
     mkClient (userIdRef σ) (<[remote := peer]> (peersRef σ)) (localStreamRef σ)
       (ws_open σ)
       (<[next_conn σ := {| connectionState := cs_new;
                            pc_userId := remote; pc_username := name |}]> (conns σ))
       (S (next_conn σ))
       (timers σ ++
          if calls then [(next_timer σ, (10000%Z, t_connectionTimeout (a_peer peer)))]
          else [])
       (if calls then S (next_timer σ) else next_timer σ)
       (timer_log σ ++
          if calls then [(10000%Z, t_connectionTimeout (a_peer peer))] else [])
       (awaits σ ++
          if calls then [(next_call σ, aw_createOffer peer (next_timer σ))] else [])
       (if calls then S (next_call σ) else next_call σ)
       (sent σ) (uncaught σ)).
Proof.
  cbn zeta. unfold createPeerConnection. client_cbn.
  destruct (localStreamRef σ && negb (bool_decide (userIdRef σ = "")));
    [unfold initiateCall|]; client_cbn; [done|].
  by rewrite !app_nil_r.
Qed.

Lemma timer_fresh σ :
  (∀ t, t ∈ JSMap.keys (timers σ) → t < next_timer σ) →
  JSMap.get (next_timer σ) (timers σ) = None.
Proof.
  intros Hfresh. apply JSMapFacts.get_None_keys. intros Hin.
  apply Hfresh in Hin. lia.
Qed.

(** *** Membership updates *)

Lemma call_pending_app remote σ l :
  existsb (λ e, match e with
                | (_, (delay, t_initiateCall r)) =>
                    bool_decide (delay = 100%Z) && bool_decide (r = remote)
                | _ => false
                end) (timers σ ++ l) = true ↔
  call_pending remote σ = true ∨
  existsb (λ e, match e with
                | (_, (delay, t_initiateCall r)) =>
                    bool_decide (delay = 100%Z) && bool_decide (r = remote)
                | _ => false
                end) l = true.
Proof. unfold call_pending. rewrite existsb_app. apply orb_true_iff. Qed.

Lemma createPeerConnections_each_eq σ user :
  let fresh := negb (bool_decide (cu_userId user = userIdRef σ))
               && negb (bool_decide (is_Some (peersRef σ !! Some (cu_userId user)))) in
  let has_id := negb (bool_decide (userIdRef σ = "")) in
  ∃ l,
    userIdRef (createPeerConnections_each σ user) = userIdRef σ
    ∧ peersRef (createPeerConnections_each σ user) =
        (if fresh
         then <[Some (cu_userId user) :=
                  {| connection := next_conn σ; userId := Some (cu_userId user);
                     username := Some (cu_username user); audioElement := false |}]>
                (peersRef σ)
         else peersRef σ)
    ∧ timers (createPeerConnections_each σ user) =
        timers σ ++ l ++
          (if fresh && has_id
           then [(next_timer σ + length l, (100%Z, t_initiateCall (cu_userId user)))]
           else []).
Proof.
  cbn zeta. unfold createPeerConnections_each.
  destruct (negb (bool_decide (cu_userId user = userIdRef σ)) && _); cbn [andb].
  - rewrite createPeerConnection_eq. client_cbn.
    destruct (localStreamRef σ && negb (bool_decide (userIdRef σ = ""))) eqn:Hc.
    + exists [(next_timer σ, (10000%Z, t_connectionTimeout (a_peer 
                  {| connection := next_conn σ; userId := Some (cu_userId user);
                     username := Some (cu_username user); audioElement := false |})))].
      apply andb_true_iff in Hc as [_ ->]. client_cbn.
      split_and!; [done..|]. rewrite <- app_assoc. cbn. repeat f_equal. lia.
    + exists []. destruct (negb (bool_decide (userIdRef σ = ""))); client_cbn.
      * split_and!; [done..|]. rewrite app_nil_r. cbn. repeat f_equal; lia.
      * split_and!; [done..|]. by rewrite !app_nil_r.
  - exists []. split_and!; [done..|]. by rewrite !app_nil_r.
Qed.

Lemma linked_true remote σ : linked remote σ = true ↔ is_Some (peersRef σ !! Some remote).
Proof. unfold linked. apply bool_decide_eq_true. Qed.

Lemma linked_false remote σ : linked remote σ = false ↔ peersRef σ !! Some remote = None.
Proof.
  unfold linked. rewrite bool_decide_eq_false. rewrite <- eq_None_not_Some. done.
Qed.

Lemma createPeerConnections_each_keeps remote σ user :
  linked remote σ = true ∧ call_pending remote σ = true →
  linked remote (createPeerConnections_each σ user) = true
  ∧ call_pending remote (createPeerConnections_each σ user) = true.
Proof.
  intros [Hl Hc]. destruct (createPeerConnections_each_eq σ user) as (l & _ & Hp & Ht).
  split.
  - apply linked_true. apply linked_true in Hl. rewrite Hp.
    destruct (_ && _); [|done].
    destruct (decide (cu_userId user = remote)) as [->|Hne].
    + rewrite lookup_insert_eq. by eexists.
    + rewrite lookup_insert_ne by congruence. done.
  - unfold call_pending at 1. rewrite Ht. apply call_pending_app. by left.
Qed.

Lemma createPeerConnections_each_calls σ user :
  userIdRef σ ≠ "" →
  cu_userId user ≠ userIdRef σ →
  linked (cu_userId user) σ = false →
  linked (cu_userId user) (createPeerConnections_each σ user) = true
  ∧ call_pending (cu_userId user) (createPeerConnections_each σ user) = true.
Proof.
  intros Hid Hne Hl. apply linked_false in Hl.
  destruct (createPeerConnections_each_eq σ user) as (l & _ & Hp & Ht).
  rewrite (bool_decide_eq_false_2 (cu_userId user = userIdRef σ)) in Hp, Ht by done.
  rewrite (bool_decide_eq_false_2 (is_Some _)) in Hp, Ht
    by (rewrite Hl; by intros [? ?]).
  rewrite (bool_decide_eq_false_2 (userIdRef σ = "")) in Ht by done.
  cbn [negb andb] in Hp, Ht. split.
  - apply linked_true. rewrite Hp, lookup_insert_eq. by eexists.
  - unfold call_pending at 1. rewrite Ht, app_assoc, existsb_app. cbn [existsb].
    rewrite !bool_decide_eq_true_2 by done. cbn. by rewrite orb_true_r.
Qed.

Lemma createPeerConnections_each_other remote σ user :
  cu_userId user ≠ remote →
  linked remote σ = false →
  linked remote (createPeerConnections_each σ user) = false.
Proof.
  intros Hne Hl. apply linked_false. apply linked_false in Hl.
  destruct (createPeerConnections_each_eq σ user) as (l & _ & -> & _).
  destruct (_ && _); [|done]. rewrite lookup_insert_ne by congruence. done.
Qed.

Lemma createPeerConnections_each_userIdRef σ user :
  userIdRef (createPeerConnections_each σ user) = userIdRef σ.
Proof. by destruct (createPeerConnections_each_eq σ user) as (l & -> & _). Qed.

Lemma createPeerConnections_keeps remote users : ∀ σ,
  linked remote σ = true ∧ call_pending remote σ = true →
  linked remote (createPeerConnections users σ) = true
  ∧ call_pending remote (createPeerConnections users σ) = true.
Proof.
  unfold createPeerConnections.
  induction users as [|user users IH]; intros σ H; [done|].
  cbn [foldl]. by apply IH, createPeerConnections_each_keeps.
Qed.

Lemma createPeerConnections_calls users : ∀ σ u,
  u ∈ users →
  userIdRef σ ≠ "" →
  cu_userId u ≠ userIdRef σ →
  linked (cu_userId u) σ = false →
  linked (cu_userId u) (createPeerConnections users σ) = true
  ∧ call_pending (cu_userId u) (createPeerConnections users σ) = true.
Proof.
  unfold createPeerConnections.
  induction users as [|user users IH]; intros σ u Hin Hid Hne Hl.
  { by apply elem_of_nil in Hin. }
  cbn [foldl].
  destruct (decide (cu_userId user = cu_userId u)) as [Heq|Hother].
  - apply (createPeerConnections_keeps _ users). rewrite <- Heq.
    apply createPeerConnections_each_calls; by rewrite ?Heq.
  - apply elem_of_cons in Hin as [->|Hin]; [done|].
    apply IH; rewrite ?createPeerConnections_each_userIdRef; try done.
    by apply createPeerConnections_each_other.
Qed.

(** C5, as the code has it.  There is no initiator role: on a membership
    update a peer that has its own id creates one Link for every listed
    remote id it has no Link for, and schedules its own call to it,
    whatever the order of the two ids.  So when two peers with ids and
    without a Link to each other both process a membership that lists both,
    each creates its Link to the other and each schedules an offer. *)
Theorem both_peers_initiate σa σb users ua ub :
  ua ∈ users → ub ∈ users →
  userIdRef σa = cu_userId ua → userIdRef σb = cu_userId ub →
  cu_userId ua ≠ "" → cu_userId ub ≠ "" →
  cu_userId ua ≠ cu_userId ub →
  linked (cu_userId ub) σa = false → linked (cu_userId ua) σb = false →
  let σa' := createPeerConnections users σa in
  let σb' := createPeerConnections users σb in
  linked (cu_userId ub) σa' = true ∧ call_pending (cu_userId ub) σa' = true
  ∧ linked (cu_userId ua) σb' = true ∧ call_pending (cu_userId ua) σb' = true.
Proof.
  intros Ha Hb Hida Hidb Hnea Hneb Hne Hla Hlb. cbn zeta.
  destruct (createPeerConnections_calls users σa ub) as [? ?];
    [done | congruence | congruence | done |].
  destruct (createPeerConnections_calls users σb ua) as [? ?];
    [done | congruence | congruence | done |].
  done.
Qed.

Lemma both_peers_initiate_witness :
  linked "k8l2q0xw1" (createPeerConnections [alice; bob] alice_ready) = true
  ∧ call_pending "k8l2q0xw1" (createPeerConnections [alice; bob] alice_ready) = true
  ∧ linked "4fzyo82mv" (createPeerConnections [alice; bob] bob_ready) = true
  ∧ call_pending "4fzyo82mv" (createPeerConnections [alice; bob] bob_ready) = true.
Proof.
  apply (both_peers_initiate alice_ready bob_ready [alice; bob] alice bob).
  - by left.
  - right. by left.
  - reflexivity.
  - reflexivity.
  - discriminate.
  - discriminate.
  - discriminate.
  - by vm_compute.
  - by vm_compute.
Defined.

Lemma offered_sent remote offer (l : list JSON) :
  existsb (λ msg, Js.is_str (Js.prop msg "type") "webrtc_offer"
                  && Js.is_str (Js.prop msg "targetUserId") remote)
    (l ++ [offer_msg (Some remote) offer]) = true.
Proof.
  rewrite existsb_app. apply orb_true_iff. right. cbn [existsb].
  rewrite orb_false_r. apply andb_true_iff. split.
  - by vm_compute.
  - change (Js.prop (offer_msg (Some remote) offer) "targetUserId")
      with (Some (JStr remote)).
    cbn [Js.is_str]. by rewrite bool_decide_eq_true_2.
Qed.

(** A scheduled call, once its timer runs and the offer is created and set
    as local description, sends the offer to the remote peer. *)
Lemma scheduled_call_offers σ t remote p offer v :
  JSMap.get t (timers σ) = Some (100%Z, t_initiateCall remote) →
  peersRef σ !! Some remote = Some p →
  userId p = Some remote →
  ws_open σ = true →
  (∀ c, c ∈ JSMap.keys (awaits σ) → c < next_call σ) →
  offered remote
    (run σ [ timer_fires t;
             settles (next_call σ) (resolved offer);
             settles (S (next_call σ)) (resolved v) ]) = true.
Proof.
  intros Ht Hp Hid Hopen Hfresh.
  assert (Hn : JSMap.get (next_call σ) (awaits σ) = None).
  { apply JSMapFacts.get_None_keys. intros Hin. apply Hfresh in Hin. lia. }
  cbn [run foldl]. unfold step at 3. rewrite Ht. unfold run_task. client_cbn.
  rewrite Hp. unfold initiateCall. client_cbn.
  unfold step at 2. client_cbn. rewrite JSMapFacts.get_snoc, Hn.
  rewrite decide_True by done. unfold resume. client_cbn.
  unfold step. client_cbn. rewrite JSMapFacts.get_snoc.
  assert (Hn' : JSMap.get (S (next_call σ))
                  (JSMap.delete (next_call σ)
                     (awaits σ ++ [(next_call σ, aw_createOffer p (next_timer σ))]))
                = None).
  { apply JSMapFacts.get_None_keys. intros Hin.
    apply JSMapFacts.keys_delete_subseteq in Hin.
    unfold JSMap.keys in Hin. rewrite map_app, elem_of_app in Hin.
    destruct Hin as [Hin|Hin%list_elem_of_singleton]; [apply Hfresh in Hin|cbn in Hin]; lia. }
  rewrite Hn'. rewrite decide_True by done. unfold resume.
  unfold sendMessage. client_cbn. rewrite Hopen. client_cbn.
  unfold offered. client_cbn. rewrite Hid. apply offered_sent.
Qed.

(** C5, as the specification states it, fails: alice, in the room when bob
    joins, and bob, whose join completes before his first timer runs, each
    send the other a [webrtc_offer]. *)
Lemma both_peers_offer :
  offered "k8l2q0xw1" (run initial alice_run) = true
  ∧ offered "4fzyo82mv" (run initial bob_run) = true
  ∧ ¬ one_initiator "4fzyo82mv" "k8l2q0xw1"
        (run initial alice_run) (run initial bob_run).
Proof. split_and!; [by vm_compute..|]. unfold one_initiator. by vm_compute. Qed.

(** *** Reconnection *)


Lemma reconnections_app remote σ l :
  length (List.filter (is_reconnection remote) (timer_log σ ++ l))
  = reconnections remote σ + length (List.filter (is_reconnection remote) l).
Proof. unfold reconnections. by rewrite List.filter_app, length_app. Qed.


Lemma handleConnectionFailure_schedules remote name σ :
  let σ' := handleConnectionFailure (Some remote) name σ in
  reconnections remote σ' = S (reconnections remote σ)
  ∧ linked remote σ' = false
  ∧ timers σ' =
      timers σ ++ [(next_timer σ, (1000%Z, t_reconnect (Some remote) name))].
Proof.
  cbn zeta. rewrite handleConnectionFailure_eq. split_and!.
  - unfold reconnections at 1. client_cbn. rewrite reconnections_app.
    cbn [List.filter is_reconnection]. rewrite !bool_decide_eq_true_2 by done.
    cbn. lia.
  - apply linked_false. client_cbn. apply lookup_delete_eq.
  - done.
Qed.





End ClientSpec.

(** ** The hub: edge cases, invariants and what is written where *)

Module HubProps.
Import Hub HubSpec.

(** *** Media state *)

Lemma on_message_audio σ ws data now rnd (enabled : bool) :
  Js.prop data "type"
    = Some (JStr (if enabled then "audio_enabled" else "audio_disabled")) →
  on_message ws false (Some data) now rnd σ = Some (audio_state ws enabled σ).
Proof.
  intros Hty. unfold on_message. destruct data; try done.
  rewrite Hty. by destruct enabled.
Qed.

Lemma on_message_video σ ws data now rnd (enabled : bool) :
  Js.prop data "type"
    = Some (JStr (if enabled then "video_enabled" else "video_disabled")) →
  on_message ws false (Some data) now rnd σ = Some (video_state ws enabled σ).
Proof.
  intros Hty. unfold on_message. destruct data; try done.
  rewrite Hty. by destruct enabled.
Qed.

Lemma set_set {K V} `{EqDecision K} (k : K) (v : V) m :
  JSMap.set k v (JSMap.set k v m) = JSMap.set k v m.
Proof.
  induction m as [|[k' v'] m IH]; cbn.
  - by rewrite decide_True.
  - destruct (decide (k = k')) as [->|Hne]; cbn.
    + by rewrite decide_True.
    + rewrite decide_False by done. by rewrite IH.
Qed.

(** X1.  An [audio_enabled] or [audio_disabled] message from a channel that
    has an identity sets the flag of that user's id and of no other id,
    leaves the Registry and the video table as they are, and sends the new
    [audio_states] list once to every open socket, the sender included. *)
Theorem audio_toggle_broadcast σ ws data now rnd clientInfo (enabled : bool) :
  wf σ →
  ws ∈ listening σ →
  clients σ !! ws = Some clientInfo →
  Js.prop data "type"
    = Some (JStr (if enabled then "audio_enabled" else "audio_disabled")) →
  ∃ σ',
    step σ (Message ws false (Some data) now rnd) = Some σ'
    ∧ let id := ci_userId clientInfo in
      let mine := {| as_userId := id; isAudioEnabled := enabled |} in
      JSMap.get id (userAudioStates σ') = Some mine
      ∧ mine ∈ JSMap.values (userAudioStates σ')
      ∧ (∀ id', id' ≠ id →
           JSMap.get id' (userAudioStates σ') = JSMap.get id' (userAudioStates σ))
      ∧ sent_by σ σ' =
          map (λ c, (c, audio_states_msg (userAudioStates σ'))) (recipients None σ)
      ∧ (∀ c, c ∈ recipients None σ ↔ readyState σ c = OPEN)
      ∧ ws ∈ recipients None σ
      ∧ connectedUsers σ' = connectedUsers σ
      ∧ userVideoStates σ' = userVideoStates σ
      ∧ (∀ c m, (c, m) ∈ sent_by σ σ' →
           Js.prop m "type" = Some (JStr "audio_states")
           ∧ Wire.states "isAudioEnabled" m
             = Some (Wire.audio_rows (userAudioStates σ')))
      ∧ [Some (JStr id); Some (JBool enabled)]
        ∈ Wire.audio_rows (userAudioStates σ').
Proof.
  intros Hwf Hl Hc Hty. exists (audio_state ws enabled σ). split.
  { rewrite step_Message_listening by done. by apply on_message_audio. }
  cbn zeta. unfold audio_state. rewrite Hc.
  assert (Hget : JSMap.get (ci_userId clientInfo)
            (JSMap.set (ci_userId clientInfo)
               {| as_userId := ci_userId clientInfo; isAudioEnabled := enabled |}
               (userAudioStates σ))
          = Some {| as_userId := ci_userId clientInfo; isAudioEnabled := enabled |}).
  { rewrite JSMapFacts.get_set. by rewrite decide_True. }
  split_and!.
  - exact Hget.
  - apply JSMapFacts.get_Some_elem in Hget.
    unfold JSMap.values. apply list_elem_of_fmap. by eexists (_, _).
  - intros id' Hne. cbn. by rewrite JSMapFacts.get_set, decide_False.
  - by apply sent_by_app.
  - intros c. rewrite elem_of_recipients by done.
    split; [by intros [? _] | by intros ?].
  - apply elem_of_recipients; [done|]. split; [by apply listening_open | done].
  - done.
  - done.
  - intros c m Hin. erewrite sent_by_app in Hin by reflexivity.
    apply elem_of_broadcast in Hin as ->. apply audio_states_msg_wire.
  - apply JSMapFacts.get_Some_elem in Hget. unfold Wire.audio_rows, JSMap.values.
    apply list_elem_of_fmap. eexists. split; [|apply list_elem_of_fmap; by eexists].
    done.
Qed.

(** X2.  A [video_enabled] or [video_disabled] message from a channel that
    has an identity sets the flag of that user's id and of no other id,
    leaves the Registry and the audio table as they are, and sends the new
    [video_states] list once to every open socket, the sender included. *)
Theorem video_toggle_broadcast σ ws data now rnd clientInfo (enabled : bool) :
  wf σ →
  ws ∈ listening σ →
  clients σ !! ws = Some clientInfo →
  Js.prop data "type"
    = Some (JStr (if enabled then "video_enabled" else "video_disabled")) →
  ∃ σ',
    step σ (Message ws false (Some data) now rnd) = Some σ'
    ∧ let id := ci_userId clientInfo in
      let mine := {| vs_userId := id; isVideoEnabled := enabled |} in
      JSMap.get id (userVideoStates σ') = Some mine
      ∧ mine ∈ JSMap.values (userVideoStates σ')
      ∧ (∀ id', id' ≠ id →
           JSMap.get id' (userVideoStates σ') = JSMap.get id' (userVideoStates σ))
      ∧ sent_by σ σ' =
          map (λ c, (c, video_states_msg (userVideoStates σ'))) (recipients None σ)
      ∧ (∀ c, c ∈ recipients None σ ↔ readyState σ c = OPEN)
      ∧ ws ∈ recipients None σ
      ∧ connectedUsers σ' = connectedUsers σ
      ∧ userAudioStates σ' = userAudioStates σ
      ∧ (∀ c m, (c, m) ∈ sent_by σ σ' →
           Js.prop m "type" = Some (JStr "video_states")
           ∧ Wire.states "isVideoEnabled" m
             = Some (Wire.video_rows (userVideoStates σ')))
      ∧ [Some (JStr id); Some (JBool enabled)]
        ∈ Wire.video_rows (userVideoStates σ').
Proof.
  intros Hwf Hl Hc Hty. exists (video_state ws enabled σ). split.
  { rewrite step_Message_listening by done. by apply on_message_video. }
  cbn zeta. unfold video_state. rewrite Hc.
  assert (Hget : JSMap.get (ci_userId clientInfo)
            (JSMap.set (ci_userId clientInfo)
               {| vs_userId := ci_userId clientInfo; isVideoEnabled := enabled |}
               (userVideoStates σ))
          = Some {| vs_userId := ci_userId clientInfo; isVideoEnabled := enabled |}).
  { rewrite JSMapFacts.get_set. by rewrite decide_True. }
  split_and!.
  - exact Hget.
  - apply JSMapFacts.get_Some_elem in Hget.
    unfold JSMap.values. apply list_elem_of_fmap. by eexists (_, _).
  - intros id' Hne. cbn. by rewrite JSMapFacts.get_set, decide_False.
  - by apply sent_by_app.
  - intros c. rewrite elem_of_recipients by done.
    split; [by intros [? _] | by intros ?].
  - apply elem_of_recipients; [done|]. split; [by apply listening_open | done].
  - done.
  - done.
  - intros c m Hin. erewrite sent_by_app in Hin by reflexivity.
    apply elem_of_broadcast in Hin as ->. apply video_states_msg_wire.
  - apply JSMapFacts.get_Some_elem in Hget. unfold Wire.video_rows, JSMap.values.
    apply list_elem_of_fmap. eexists. split; [|apply list_elem_of_fmap; by eexists].
    done.
Qed.

Lemma audio_state_registered σ ws (enabled : bool) clientInfo :
  clients σ !! ws = Some clientInfo →
  let states :=
    JSMap.set (ci_userId clientInfo)
      {| as_userId := ci_userId clientInfo; isAudioEnabled := enabled |}
      (userAudioStates σ) in
  let σ' := audio_state ws enabled σ in
  userAudioStates σ' = states
  ∧ outbox σ' = outbox σ ++ map (λ c, (c, audio_states_msg states)) (recipients None σ)
  ∧ clients σ' = clients σ
  ∧ connectedUsers σ' = connectedUsers σ
  ∧ userVideoStates σ' = userVideoStates σ
  ∧ same_sockets σ σ'.
Proof. intros Hc. cbn zeta. unfold audio_state. by rewrite Hc. Qed.

Lemma video_state_registered σ ws (enabled : bool) clientInfo :
  clients σ !! ws = Some clientInfo →
  let states :=
    JSMap.set (ci_userId clientInfo)
      {| vs_userId := ci_userId clientInfo; isVideoEnabled := enabled |}
      (userVideoStates σ) in
  let σ' := video_state ws enabled σ in
  userVideoStates σ' = states
  ∧ outbox σ' = outbox σ ++ map (λ c, (c, video_states_msg states)) (recipients None σ)
  ∧ clients σ' = clients σ
  ∧ connectedUsers σ' = connectedUsers σ
  ∧ userAudioStates σ' = userAudioStates σ
  ∧ same_sockets σ σ'.
Proof. intros Hc. cbn zeta. unfold video_state. by rewrite Hc. Qed.

Lemma recipients_same_sockets σ σ' ex :
  same_sockets σ σ' → recipients ex σ' = recipients ex σ.
Proof. intros (Hw & _ & _). unfold recipients. by rewrite Hw. Qed.

(** X3.  Repeating an audio toggle changes nothing: the second of two equal
    [audio_enabled] (or [audio_disabled]) messages of a channel with an
    identity leaves the audio table as the first left it and is followed by
    the same broadcast. *)
Theorem audio_toggle_idempotent σ ws data now rnd now' rnd' clientInfo
    (enabled : bool) :
  ws ∈ listening σ →
  clients σ !! ws = Some clientInfo →
  Js.prop data "type"
    = Some (JStr (if enabled then "audio_enabled" else "audio_disabled")) →
  ∃ σ1 σ2,
    step σ (Message ws false (Some data) now rnd) = Some σ1
    ∧ step σ1 (Message ws false (Some data) now' rnd') = Some σ2
    ∧ userAudioStates σ2 = userAudioStates σ1
    ∧ sent_by σ1 σ2 = sent_by σ σ1.
Proof.
  intros Hl Hc Hty.
  destruct (audio_state_registered σ ws enabled clientInfo Hc)
    as (Hs1 & Ho1 & Hc1 & _ & _ & Hsock).
  rewrite <- Hc1 in Hc.
  destruct (audio_state_registered _ ws enabled clientInfo Hc)
    as (Hs2 & Ho2 & _ & _ & _ & _).
  exists (audio_state ws enabled σ), (audio_state ws enabled (audio_state ws enabled σ)).
  assert (Hl1 : ws ∈ listening (audio_state ws enabled σ)).
  { destruct Hsock as (_ & -> & _). done. }
  split_and!.
  - rewrite step_Message_listening by done. by apply on_message_audio.
  - rewrite step_Message_listening by done. by apply on_message_audio.
  - rewrite Hs2, Hs1. apply set_set.
  - rewrite (sent_by_app _ _ _ Ho2), (sent_by_app _ _ _ Ho1).
    rewrite Hs1, set_set. by rewrite (recipients_same_sockets _ _ _ Hsock).
Qed.

(** X4.  A media toggle from a channel that has no identity is ignored: the
    state stays as it is, so nothing is recorded and nothing is sent. *)
Theorem media_state_needs_join σ ws data now rnd ty :
  clients σ !! ws = None →
  ty ∈ ["audio_enabled"; "audio_disabled"; "video_enabled"; "video_disabled"] →
  Js.prop data "type" = Some (JStr ty) →
  step σ (Message ws false (Some data) now rnd) = Some σ.
Proof.
  intros Hc Hty Hprop. cbn [step]. case_decide; [|done].
  unfold on_message. destruct data; try done. rewrite Hprop.
  unfold audio_state, video_state. rewrite Hc.
  repeat (apply elem_of_cons in Hty as [->|Hty]; [done|]).
  by apply elem_of_nil in Hty.
Qed.

(** *** Frames that carry no request *)

(** X5.  A binary frame is ignored.  A text frame that is not JSON is
    answered with the error [Invalid JSON], sent to the sender alone, and
    changes no table. *)
Theorem malformed_frame_handling σ ws parsed now rnd :
  wf σ →
  ws ∈ listening σ →
  step σ (Message ws true parsed now rnd) = Some σ
  ∧ ∃ σ',
      step σ (Message ws false None now rnd) = Some σ'
      ∧ sent_by σ σ' = [(ws, error_msg "Invalid JSON")]
      ∧ clients σ' = clients σ
      ∧ connectedUsers σ' = connectedUsers σ
      ∧ userAudioStates σ' = userAudioStates σ
      ∧ userVideoStates σ' = userVideoStates σ
      ∧ Wire.fields ["type"; "message"] (error_msg "Invalid JSON")
        = [Some (JStr "error"); Some (JStr "Invalid JSON")].
Proof.
  intros Hwf Hl. split.
  { by rewrite step_Message_listening. }
  exists (sendToClient ws (error_msg "Invalid JSON") σ).
  rewrite step_Message_listening by done. split; [done|].
  rewrite sendToClient_open by by apply listening_open.
  split_and!; try done. by apply sent_by_app.
Qed.

(** X6.  A [set_username] whose [username] is missing, is not a string, or
    is blank after trimming is answered with the error [Invalid username],
    sent to the sender alone; the channel gets no identity and no table
    changes. *)
Theorem invalid_username_rejected σ ws data now rnd :
  wf σ →
  ws ∈ listening σ →
  Js.prop data "type" = Some (JStr "set_username") →
  (∀ u, Js.prop data "username" = Some (JStr u) → Js.trim u = "") →
  ∃ σ',
    step σ (Message ws false (Some data) now rnd) = Some σ'
    ∧ sent_by σ σ' = [(ws, error_msg "Invalid username")]
    ∧ clients σ' = clients σ
    ∧ connectedUsers σ' = connectedUsers σ
    ∧ userAudioStates σ' = userAudioStates σ
    ∧ userVideoStates σ' = userVideoStates σ
    ∧ Wire.fields ["type"; "message"] (error_msg "Invalid username")
      = [Some (JStr "error"); Some (JStr "Invalid username")].
Proof.
  intros Hwf Hl Hty Hbad.
  exists (sendToClient ws (error_msg "Invalid username") σ).
  rewrite step_Message_listening by done.
  rewrite (on_message_set_username _ _ _ _ _ Hty).
  split.
  { f_equal. unfold set_username.
    destruct (Js.prop data "username") as [[| | |u| |]|]; try done.
    rewrite (Hbad u eq_refl). by rewrite decide_False by (cbn; lia). }
  rewrite sendToClient_open by by apply listening_open.
  split_and!; try done. by apply sent_by_app.
Qed.

(** *** Connections *)

(** X8.  While fewer than 200 sockets are connected a new connection is
    accepted: the new socket is sent [request_username] and then the
    current [user_list], gets the listeners and stays open, and the
    Registry does not change. *)
Theorem connection_accepted σ :
  wf σ →
  length (wss_clients σ) < MAX_CLIENTS →
  ∃ σ',
    step σ Connect = Some σ'
    ∧ let ws := next_ws σ in
      sent_by σ σ' = [(ws, request_username_msg); (ws, user_list_msg (connectedUsers σ))]
      ∧ (ws ∉ listening σ)
      ∧ listening σ' = {[ws]} ∪ listening σ
      ∧ readyState σ' ws = OPEN
      ∧ clients σ' = clients σ
      ∧ connectedUsers σ' = connectedUsers σ
      ∧ Wire.fields ["type"] request_username_msg = [Some (JStr "request_username")]
      ∧ Js.prop (user_list_msg (connectedUsers σ)) "type" = Some (JStr "user_list")
      ∧ Wire.users (user_list_msg (connectedUsers σ))
        = Some (Wire.user_rows (connectedUsers σ)).
Proof.
  intros Hwf Hlen. eexists. split; [by apply step_Connect|].
  cbn zeta. rewrite decide_False by lia.
  pose proof (wf_next_fresh σ Hwf) as Hfresh.
  assert (Hnl : next_ws σ ∉ listening σ).
  { intros Hl. apply (wf_listening _ Hwf) in Hl. congruence. }
  split_and!; try done.
  - by apply sent_by_app.
  - unfold readyState. cbn. rewrite JSMapFacts.get_snoc, Hfresh.
    by rewrite decide_True.
  - apply user_list_msg_wire.
Qed.

Lemma run_invariant (P : HubState → Prop) :
  (∀ σ e σ', wf σ → P σ → step σ e = Some σ' → P σ') →
  ∀ es σ σ', wf σ → P σ → run σ es = Some σ' → P σ'.
Proof.
  intros Hstep es. induction es as [|e es IH]; intros σ σ' Hwf HP Hrun.
  - by simplify_eq/=.
  - cbn in Hrun. destruct (step σ e) as [σ1|] eqn:E; [|done].
    eapply IH; [by eapply wf_step | by eapply Hstep | done].
Qed.

Lemma listening_size σ :
  wf σ → size (listening σ) ≤ length (wss_clients σ).
Proof.
  intros Hwf.
  transitivity (size (list_to_set (C := gset Channel) (JSMap.keys (wss_clients σ)))).
  - apply subseteq_size. intros ws Hl. apply elem_of_list_to_set.
    eapply JSMapFacts.get_Some_keys. by apply (wf_listening _ Hwf).
  - rewrite size_list_to_set by apply (wf_sockets _ Hwf).
    unfold JSMap.keys. by rewrite length_map.
Qed.

Lemma step_listening σ e σ' :
  wf σ → step σ e = Some σ' →
  listening σ' ⊆ listening σ
  ∨ (e = Connect ∧ length (wss_clients σ) < MAX_CLIENTS
     ∧ listening σ' = {[next_ws σ]} ∪ listening σ).
Proof.
  intros Hwf Hstep. destruct e as [|ws isBinary parsed now rnd|ws now].
  - rewrite step_Connect in Hstep by done. cbn zeta in Hstep.
    case_decide; simplify_eq/=; [by left|right]. split_and!; [done|lia|done].
  - left. cbn [step] in Hstep. case_decide; [|by simplify_eq].
    apply on_message_sockets in Hstep as (_ & -> & _). done.
  - left. cbn [step] in Hstep. destruct (JSMap.has _ _); [|by simplify_eq].
    case_decide; simplify_eq/=; [|done].
    destruct (on_close_sockets ws now (with_wss_clients (JSMap.delete ws) σ))
      as (_ & Hl & _). cbn in *. rewrite Hl.
    intros x Hx. by apply elem_of_difference in Hx as [? _].
Qed.

Lemma step_clients_listening σ e σ' :
  (∀ ws, is_Some (clients σ !! ws) → ws ∈ listening σ) →
  step σ e = Some σ' →
  ∀ ws, is_Some (clients σ' !! ws) → ws ∈ listening σ'.
Proof.
  intros HP Hstep c Hc. destruct e as [|ws isBinary parsed now rnd|ws now].
  - cbn [step] in Hstep. simplify_eq. revert Hc. unfold on_connection.
    case_decide; cbn; rewrite ?sendToClient_clients; cbn; intros Hc.
    + destruct (sendToClient_sockets (next_ws σ)
                  (error_msg "Server full. Try again later.")
                  (with_wss_clients (λ l, l ++ [(next_ws σ, OPEN)])
                     (with_next_ws S σ))) as (_ & -> & _).
      by apply HP.
    + apply elem_of_union_r.
      match goal with
      | |- _ ∈ listening (sendToClient ?w ?m (sendToClient ?w' ?m' ?s)) =>
          destruct (sendToClient_sockets w m (sendToClient w' m' s)) as (_ & -> & _);
          destruct (sendToClient_sockets w' m' s) as (_ & -> & _)
      end.
      by apply HP.
  - cbn [step] in Hstep. case_decide as Hl; [|simplify_eq; by apply HP].
    pose proof (on_message_sockets _ _ _ _ _ _ _ Hstep) as (_ & -> & _).
    apply on_message_registry in Hstep as [(_ & Hcl & _)|(u & _ & Hcl & _)];
      rewrite Hcl in Hc; [by apply HP|].
    destruct (decide (c = ws)) as [->|Hne]; [done|].
    rewrite lookup_insert_ne in Hc by done. by apply HP.
  - cbn [step] in Hstep. destruct (JSMap.has _ _); [|simplify_eq; by apply HP].
    case_decide; simplify_eq; [|by apply HP].
    revert Hc. unfold with_listening. cbn [clients listening].
    rewrite (proj1 (on_close_registry _ _ _)). cbn [clients with_wss_clients].
    destruct (on_close_sockets ws now (with_wss_clients (JSMap.delete ws) σ))
      as (_ & -> & _). cbn [listening with_wss_clients].
    intros [x Hx]. apply lookup_delete_Some in Hx as [Hne Hx].
    apply elem_of_difference. split; [by apply HP|].
    by intros ->%elem_of_singleton.
Qed.

(** X9.  In every state the server can reach, at most 200 sockets have the
    listeners, only sockets with the listeners have an identity, and so at
    most 200 channels have one. *)
Theorem served_channels_bounded σ :
  reachable σ →
  size (listening σ) ≤ MAX_CLIENTS
  ∧ (∀ ws, is_Some (clients σ !! ws) → ws ∈ listening σ)
  ∧ size (dom (clients σ)) ≤ MAX_CLIENTS.
Proof.
  intros [es Hrun].
  assert (size (listening σ) ≤ MAX_CLIENTS
          ∧ (∀ ws, is_Some (clients σ !! ws) → ws ∈ listening σ)) as [Hsz Hcl].
  { refine (run_invariant
              (λ σ, size (listening σ) ≤ MAX_CLIENTS
                    ∧ (∀ ws, is_Some (clients σ !! ws) → ws ∈ listening σ))
              _ es initial σ wf_initial _ Hrun).
    - intros σ0 e σ1 Hwf [Hsz Hcl] Hstep. split.
      + destruct (step_listening _ _ _ Hwf Hstep) as [Hsub|(_ & Hlen & ->)].
        * etransitivity; [by apply subseteq_size|done].
        * rewrite size_union_alt, size_singleton.
          pose proof (listening_size _ Hwf) as Hls.
          assert (Hsub : listening σ0 ∖ {[next_ws σ0]} ⊆ listening σ0).
          { intros x Hx. by apply elem_of_difference in Hx as [? _]. }
          apply subseteq_size in Hsub.
          unfold MAX_CLIENTS in *. lia.
      + by eapply step_clients_listening.
    - split; [cbn; rewrite size_empty; unfold MAX_CLIENTS; lia|].
      intros ws [x Hx]. done. }
  split_and!; [done..|].
  etransitivity; [|exact Hsz]. apply subseteq_size.
  intros ws Hws. apply Hcl. by apply elem_of_dom.
Qed.

(** *** Where the hub writes *)

Lemma recipients_open σ ex c :
  NoDup (JSMap.keys (wss_clients σ)) →
  c ∈ recipients ex σ → readyState σ c = OPEN ∧ Some c ≠ ex.
Proof.
  intros Hnd. unfold recipients, readyState. rewrite list_elem_of_omap.
  intros ([c' rs] & Hin & Hsome).
  destruct (bool_decide (rs = OPEN)) eqn:Hrs; [|done].
  destruct (bool_decide (Some c' = ex)) eqn:Hex; [done|]. cbn in Hsome.
  apply bool_decide_eq_true in Hrs. apply bool_decide_eq_false in Hex.
  simplify_eq. split; [|done].
  by rewrite (JSMapFacts.get_elem_NoDup _ _ _ Hnd Hin).
Qed.

Lemma broadcast_writes σ (msg : JSON) ex c m :
  NoDup (JSMap.keys (wss_clients σ)) →
  (c, m) ∈ map (λ c, (c, msg)) (recipients ex σ) → readyState σ c = OPEN ∧ Some c ≠ ex.
Proof.
  intros Hnd (c' & ? & Hin)%list_elem_of_fmap. simplify_eq.
  by apply recipients_open.
Qed.

Lemma set_username_writes σ ws data now rnd :
  wf σ → readyState σ ws = OPEN →
  ∃ out, outbox (set_username ws data now rnd σ) = outbox σ ++ out
         ∧ ∀ c m, (c, m) ∈ out → readyState σ c = OPEN.
Proof.
  intros Hwf Hopen.
  assert (Hbad : ∃ out,
    outbox (sendToClient ws (error_msg "Invalid username") σ) = outbox σ ++ out
    ∧ ∀ c m, (c, m) ∈ out → readyState σ c = OPEN).
  { rewrite sendToClient_open by done. eexists. split; [done|].
    intros c m Hin. by apply list_elem_of_singleton in Hin as [= -> _]. }
  destruct (Js.prop data "username") as [[| | |u| |]|] eqn:Hu;
    try (unfold set_username; by rewrite Hu).
  destruct (decide (0 < String.length (Js.trim u))) as [Hlen|Hlen].
  - destruct (set_username_accepted σ ws data now rnd u Hu Hlen Hopen)
      as (_ & _ & ->).
    eexists. split; [done|]. intros c m Hin.
    repeat (apply elem_of_app in Hin as [Hin|Hin]);
      try (by eapply broadcast_writes; [apply Hwf|done]).
    by apply list_elem_of_singleton in Hin as [= -> _].
  - unfold set_username. rewrite Hu. by rewrite decide_False.
Qed.

Lemma on_message_writes σ ws isBinary parsed now rnd σ' :
  wf σ → readyState σ ws = OPEN →
  on_message ws isBinary parsed now rnd σ = Some σ' →
  ∃ out, outbox σ' = outbox σ ++ out
         ∧ ∀ c m, (c, m) ∈ out → readyState σ c = OPEN.
Proof.
  intros Hwf Hopen Hmsg.
  assert (Hnone : ∃ out, outbox σ = outbox σ ++ out
                         ∧ ∀ c m, (c, m) ∈ out → readyState σ c = OPEN).
  { exists []. split; [by rewrite app_nil_r|]. by intros c m ?%elem_of_nil. }
  unfold on_message in Hmsg. destruct isBinary; [by simplify_eq|].
  destruct parsed as [data|]; cycle 1.
  { simplify_eq. rewrite sendToClient_open by done. eexists. split; [done|].
    intros c m Hin. by apply list_elem_of_singleton in Hin as [= -> _]. }
  assert (Hcases :
    σ' = set_username ws data now rnd σ ∨ σ' = chat ws data now σ
    ∨ (∃ b, σ' = audio_state ws b σ) ∨ (∃ b, σ' = video_state ws b σ)
    ∨ σ' = relay ws data σ ∨ σ' = σ).
  { destruct data; try done;
      repeat (case_match; [simplify_eq; eauto 10|]); simplify_eq; eauto 10. }
  clear Hmsg.
  destruct Hcases as [->|[->|[[b ->]|[[b ->]|[->| ->]]]]]; [| | | | |done].
  - by apply set_username_writes.
  - eexists. split; [done|]. intros c m Hin.
    by eapply broadcast_writes; [apply Hwf|done].
  - destruct (clients σ !! ws) as [info|] eqn:Hc.
    + destruct (audio_state_registered σ ws b info Hc) as (_ & -> & _).
      eexists. split; [done|]. intros c m Hin.
      by eapply broadcast_writes; [apply Hwf|done].
    + unfold audio_state. by rewrite Hc.
  - destruct (clients σ !! ws) as [info|] eqn:Hc.
    + destruct (video_state_registered σ ws b info Hc) as (_ & -> & _).
      eexists. split; [done|]. intros c m Hin.
      by eapply broadcast_writes; [apply Hwf|done].
    + unfold video_state. by rewrite Hc.
  - unfold relay. destruct (targetUser data σ) as [target|]; [|done].
    case_decide as Ht; [|done]. destruct (clients σ !! ws) as [info|]; [|done].
    eexists. split; [done|]. intros c m Hin.
    by apply list_elem_of_singleton in Hin as [= -> _].
Qed.

(** X10.  The hub writes to open sockets only: what a connection sends goes
    to the new socket, what a message sends goes to sockets that are open,
    and what a disconnection sends goes to open sockets other than the one
    that closed. *)
Theorem writes_only_to_open_sockets σ e σ' c m :
  wf σ →
  step σ e = Some σ' →
  (c, m) ∈ sent_by σ σ' →
  match e with
  | Connect => c = next_ws σ
  | Message _ _ _ _ _ => readyState σ c = OPEN
  | Close ws _ => readyState σ c = OPEN ∧ c ≠ ws
  end.
Proof.
  intros Hwf Hstep. destruct e as [|ws isBinary parsed now rnd|ws now].
  - rewrite step_Connect in Hstep by done. cbn zeta in Hstep.
    case_decide; simplify_eq.
    + rewrite (sent_by_app _ _ [(next_ws σ, error_msg "Server full. Try again later.")])
        by done.
      intros Hin. by apply list_elem_of_singleton in Hin as [= -> _].
    + rewrite (sent_by_app _ _ [(next_ws σ, request_username_msg);
                                (next_ws σ, user_list_msg (connectedUsers σ))])
        by done.
      intros Hin. by repeat (apply elem_of_cons in Hin as [[= -> _]|Hin]; [done|]);
        apply elem_of_nil in Hin.
  - cbn [step] in Hstep. case_decide as Hl.
    + destruct (on_message_writes _ _ _ _ _ _ _ Hwf (listening_open _ _ Hwf Hl) Hstep)
        as (out & Hout & Hopen).
      rewrite (sent_by_app _ _ _ Hout). apply Hopen.
    + simplify_eq. rewrite sent_by_refl. by intros ?%elem_of_nil.
  - cbn [step] in Hstep.
    destruct (JSMap.has ws (wss_clients σ)); cycle 1.
    { simplify_eq. rewrite sent_by_refl. by intros ?%elem_of_nil. }
    case_decide as Hl; simplify_eq; cycle 1.
    { rewrite (sent_by_app _ _ []) by by rewrite app_nil_r.
      by intros ?%elem_of_nil. }
    set (σ0 := with_wss_clients (JSMap.delete ws) σ).
    assert (Hnd : NoDup (JSMap.keys (wss_clients σ0))).
    { apply JSMapFacts.NoDup_keys_delete, Hwf. }
    assert (Hback : ∀ c ex, c ∈ recipients ex σ0 → readyState σ c = OPEN ∧ c ≠ ws).
    { intros c' ex [Hopen _]%recipients_open; [|done].
      unfold readyState in *. cbn [σ0 wss_clients with_wss_clients] in Hopen.
      destruct (decide (c' = ws)) as [->|Hne].
      - by rewrite JSMapFacts.get_delete_eq in Hopen by apply Hwf.
      - by rewrite JSMapFacts.get_delete_ne in Hopen. }
    destruct (clients σ !! ws) as [info|] eqn:Hc.
    + destruct (on_close_registered σ0 ws now info Hc) as (_ & _ & _ & _ & Hout).
      match goal with
      | |- context [sent_by σ ?X] => rewrite (sent_by_app σ X _ Hout)
      end.
      intros Hin.
      repeat (apply elem_of_app in Hin as [Hin|Hin]);
        apply list_elem_of_fmap in Hin as (c' & ? & Hin); simplify_eq;
        by eapply Hback.
    + rewrite (sent_by_app _ _ []); [by intros ?%elem_of_nil|].
      unfold on_close. cbn [σ0 clients with_wss_clients]. rewrite Hc.
      cbn. by rewrite app_nil_r.
Qed.

(** *** Relay *)

Lemma relay_tables σ ws data :
  clients (relay ws data σ) = clients σ
  ∧ connectedUsers (relay ws data σ) = connectedUsers σ
  ∧ userAudioStates (relay ws data σ) = userAudioStates σ
  ∧ userVideoStates (relay ws data σ) = userVideoStates σ.
Proof. unfold relay. by repeat case_match. Qed.

(** X11.  A signaling message is delivered at most once, and exactly when
    the sender has the listeners and an identity and the target id is
    registered with an open socket; whether delivered or not, the relay
    changes no table. *)
Theorem relay_delivery_conditions σ ws data now rnd :
  is_signaling (Js.prop data "type") = true →
  ∃ σ',
    step σ (Message ws false (Some data) now rnd) = Some σ'
    ∧ (sent_by σ σ' ≠ []
       ↔ ws ∈ listening σ
         ∧ is_Some (clients σ !! ws)
         ∧ ∃ target, targetUser data σ = Some target
                     ∧ readyState σ (cu_ws target) = OPEN)
    ∧ length (sent_by σ σ') ≤ 1
    ∧ clients σ' = clients σ
    ∧ connectedUsers σ' = connectedUsers σ
    ∧ userAudioStates σ' = userAudioStates σ
    ∧ userVideoStates σ' = userVideoStates σ.
Proof.
  intros Hsig. eexists. split; [by apply step_relay|].
  destruct (decide (ws ∈ listening σ)) as [Hl|Hl]; cycle 1.
  { rewrite sent_by_refl. split_and!; try done; [|cbn; lia].
    split; [done|]. by intros [? _]. }
  destruct (relay_tables σ ws data) as (? & ? & ? & ?).
  split_and!; try done; rewrite relay_sent.
  - destruct (targetUser data σ) as [target|]; cycle 1.
    { split; [done|]. by intros (_ & _ & ? & ? & _). }
    destruct (clients σ !! ws) as [info|]; cycle 1.
    { split; [done|]. by intros (_ & [? ?] & _). }
    case_decide as Hopen.
    + split; [|done]. intros _. split_and!; [done|by eexists|by eexists].
    + split; [done|]. intros (_ & _ & ? & ? & ?). by simplify_eq.
  - repeat case_match; cbn; lia.
Qed.

(** X12.  The relay passes the payload on: every property of a relayed
    message other than [senderUserId] and [senderUsername] has the value
    that the sender gave it. *)
Theorem relay_passes_payload σ ws data now rnd σ' c m k :
  is_signaling (Js.prop data "type") = true →
  step σ (Message ws false (Some data) now rnd) = Some σ' →
  (c, m) ∈ sent_by σ σ' →
  k ≠ "senderUserId" → k ≠ "senderUsername" →
  Js.prop m k = Js.prop data k.
Proof.
  intros Hsig Hstep Hin Hk1 Hk2.
  rewrite step_relay in Hstep by done. simplify_eq.
  case_decide; [|rewrite sent_by_refl in Hin; by apply elem_of_nil in Hin].
  rewrite relay_sent in Hin.
  destruct (targetUser data σ) as [target|];
    [|by apply elem_of_nil in Hin].
  destruct (clients σ !! ws) as [info|]; [|by apply elem_of_nil in Hin].
  case_decide; [|by apply elem_of_nil in Hin].
  apply list_elem_of_singleton in Hin as [= -> ->].
  destruct data as [| | | | |fs]; try done.
  unfold messageWithSender. cbn [Js.prop Js.spread].
  by rewrite !lookup_set_field_ne.
Qed.

(** *** Leaving without an identity *)

(** X13.  When a socket without an identity closes, nothing is sent and no
    table changes; the socket leaves [wss.clients] and loses its listeners,
    and every other socket keeps its state. *)
Theorem close_before_join_is_silent σ ws now :
  wf σ →
  ws ∈ JSMap.keys (wss_clients σ) →
  clients σ !! ws = None →
  ∃ σ',
    step σ (Close ws now) = Some σ'
    ∧ sent_by σ σ' = []
    ∧ (ws ∉ JSMap.keys (wss_clients σ'))
    ∧ (ws ∉ listening σ')
    ∧ readyState σ' ws = CLOSED
    ∧ (∀ c, c ≠ ws → readyState σ' c = readyState σ c)
    ∧ clients σ' = clients σ
    ∧ connectedUsers σ' = connectedUsers σ
    ∧ userAudioStates σ' = userAudioStates σ
    ∧ userVideoStates σ' = userVideoStates σ.
Proof.
  intros Hwf Hin Hc.
  set (σ0 := with_wss_clients (JSMap.delete ws) σ).
  assert (Hclose : on_close ws now σ0 = with_clients (delete ws) σ0).
  { unfold on_close. cbn [σ0 clients with_wss_clients]. by rewrite Hc. }
  assert (Hgone : JSMap.get ws (wss_clients σ0) = None).
  { apply JSMapFacts.get_delete_eq, Hwf. }
  assert (Hstep : step σ (Close ws now)
                  = Some (if decide (ws ∈ listening σ)
                          then with_listening (λ s, s ∖ {[ws]}) (on_close ws now σ0)
                          else σ0)).
  { cbn [step]. unfold JSMap.has.
    destruct (JSMap.get ws (wss_clients σ)) eqn:Hget.
    - fold σ0. change (listening σ0) with (listening σ). by case_decide.
    - by apply JSMapFacts.get_None_keys in Hget. }
  eexists. split; [exact Hstep|]. rewrite Hclose.
  assert (Hdel : delete ws (clients σ) = clients σ) by by apply delete_id.
  case_decide as Hl.
  - split_and!; try done.
    + apply sent_by_app. by rewrite app_nil_r.
    + by apply JSMapFacts.get_None_keys.
    + cbn. intros [_ Hx]%elem_of_difference. by apply Hx, elem_of_singleton.
    + unfold readyState. cbn. fold σ0. cbn in Hgone. by rewrite Hgone.
    + intros c Hne. unfold readyState. cbn.
      by rewrite JSMapFacts.get_delete_ne.
  - split_and!; try done.
    + apply sent_by_app. by rewrite app_nil_r.
    + by apply JSMapFacts.get_None_keys.
    + unfold readyState. by rewrite Hgone.
    + intros c Hne. unfold readyState. cbn.
      by rewrite JSMapFacts.get_delete_ne.
Qed.

(** *** Names *)

Lemma trim_end_idemp s : Js.trim_end (Js.trim_end s) = Js.trim_end s.
Proof.
  induction s as [|c s IH]; [done|]. cbn [Js.trim_end].
  destruct (Js.trim_end s) as [|d t] eqn:E.
  - destruct (Js.is_space c) eqn:Hc; [done|]. cbn. by rewrite Hc.
  - cbn [Js.trim_end] in IH |- *. by rewrite IH.
Qed.

Lemma trim_start_clean s :
  match s with String c _ => Js.is_space c = false | EmptyString => True end →
  Js.trim_start s = s.
Proof. destruct s as [|c s]; [done|]. cbn. by intros ->. Qed.

Lemma trim_start_head s :
  match Js.trim_start s with
  | String c _ => Js.is_space c = false
  | EmptyString => True
  end.
Proof.
  induction s as [|c s IH]; [done|]. cbn.
  destruct (Js.is_space c) eqn:Hc; [done|]. done.
Qed.

Lemma trim_end_head s :
  match s with String c _ => Js.is_space c = false | EmptyString => True end →
  match Js.trim_end s with
  | String c _ => Js.is_space c = false
  | EmptyString => True
  end.
Proof.
  destruct s as [|c s]; [done|]. cbn. intros Hc.
  destruct (Js.trim_end s); by rewrite ?Hc.
Qed.

Lemma trim_idemp s : Js.trim (Js.trim s) = Js.trim s.
Proof.
  unfold Js.trim.
  rewrite (trim_start_clean (Js.trim_end (Js.trim_start s))).
  - apply trim_end_idemp.
  - apply trim_end_head, trim_start_head.
Qed.

Lemma length_pos_nonempty s : 0 < String.length s ↔ s ≠ "".
Proof. destruct s; cbn; split; (done || lia || intros; lia). Qed.

(** *** What a step does to the tables *)

Lemma on_message_cases ws isBinary parsed now rnd σ σ' :
  on_message ws isBinary parsed now rnd σ = Some σ' →
  σ' = σ
  ∨ σ' = sendToClient ws (error_msg "Invalid JSON") σ
  ∨ (∃ data, σ' = set_username ws data now rnd σ)
  ∨ (∃ data, σ' = chat ws data now σ)
  ∨ (∃ data, σ' = relay ws data σ)
  ∨ (∃ b, σ' = audio_state ws b σ)
  ∨ (∃ b, σ' = video_state ws b σ).
Proof.
  unfold on_message. intros Hmsg. destruct isBinary; [left; by simplify_eq|].
  destruct parsed as [data|]; [|right; left; by simplify_eq].
  destruct data; try done;
    repeat (case_match; [simplify_eq; eauto 12|]); simplify_eq; eauto 12.
Qed.

Lemma set_username_tables ws data now rnd σ :
  let σ' := set_username ws data now rnd σ in
  userAudioStates σ' = userAudioStates σ
  ∧ userVideoStates σ' = userVideoStates σ
  ∧ ((clients σ' = clients σ ∧ connectedUsers σ' = connectedUsers σ)
     ∨ ∃ u, 0 < String.length (Js.trim u)
            ∧ clients σ' =
                <[ws := {| ci_username := Js.trim u; ci_userId := rnd |}]> (clients σ)
            ∧ connectedUsers σ' =
                JSMap.set rnd {| cu_userId := rnd; cu_username := Js.trim u;
                                 cu_ws := ws |} (connectedUsers σ)).
Proof.
  cbn zeta. unfold set_username, sendToClient.
  destruct (Js.prop data "username") as [[| | |u| |]|];
    try (case_decide; split_and!; try done; by left).
  destruct (decide (0 < String.length (Js.trim u))) as [Hlen|Hlen].
  - split_and!; [by case_decide..|]. right. exists u. by case_decide.
  - case_decide; split_and!; try done; by left.
Qed.

Lemma chat_tables ws data now σ :
  let σ' := chat ws data now σ in
  clients σ' = clients σ ∧ connectedUsers σ' = connectedUsers σ
  ∧ userAudioStates σ' = userAudioStates σ ∧ userVideoStates σ' = userVideoStates σ.
Proof. done. Qed.

Lemma audio_state_tables ws b σ :
  let σ' := audio_state ws b σ in
  clients σ' = clients σ ∧ connectedUsers σ' = connectedUsers σ
  ∧ userVideoStates σ' = userVideoStates σ
  ∧ (userAudioStates σ' = userAudioStates σ
     ∨ ∃ info, clients σ !! ws = Some info
               ∧ userAudioStates σ' =
                   JSMap.set (ci_userId info)
                     {| as_userId := ci_userId info; isAudioEnabled := b |}
                     (userAudioStates σ)).
Proof.
  cbn zeta. unfold audio_state. destruct (clients σ !! ws) as [info|] eqn:E.
  - split_and!; try done. right. by exists info.
  - split_and!; try done. by left.
Qed.

Lemma video_state_tables ws b σ :
  let σ' := video_state ws b σ in
  clients σ' = clients σ ∧ connectedUsers σ' = connectedUsers σ
  ∧ userAudioStates σ' = userAudioStates σ
  ∧ (userVideoStates σ' = userVideoStates σ
     ∨ ∃ info, clients σ !! ws = Some info
               ∧ userVideoStates σ' =
                   JSMap.set (ci_userId info)
                     {| vs_userId := ci_userId info; isVideoEnabled := b |}
                     (userVideoStates σ)).
Proof.
  cbn zeta. unfold video_state. destruct (clients σ !! ws) as [info|] eqn:E.
  - split_and!; try done. right. by exists info.
  - split_and!; try done. by left.
Qed.

Lemma on_close_tables ws now σ :
  let σ' := on_close ws now σ in
  clients σ' = delete ws (clients σ)
  ∧ match clients σ !! ws with
    | Some info =>
        connectedUsers σ' = JSMap.delete (ci_userId info) (connectedUsers σ)
        ∧ userAudioStates σ' = JSMap.delete (ci_userId info) (userAudioStates σ)
        ∧ userVideoStates σ' = JSMap.delete (ci_userId info) (userVideoStates σ)
    | None =>
        connectedUsers σ' = connectedUsers σ
        ∧ userAudioStates σ' = userAudioStates σ
        ∧ userVideoStates σ' = userVideoStates σ
    end.
Proof. cbn zeta. unfold on_close. by destruct (clients σ !! ws). Qed.

(** The tables after a step: untouched, a join, a media toggle of a
    channel with an identity, or a departure. *)
Lemma step_tables σ e σ' :
  step σ e = Some σ' →
  (clients σ' = clients σ ∧ connectedUsers σ' = connectedUsers σ
   ∧ userAudioStates σ' = userAudioStates σ ∧ userVideoStates σ' = userVideoStates σ)
  ∨ (∃ ws u rnd,
       0 < String.length (Js.trim u)
       ∧ clients σ' =
           <[ws := {| ci_username := Js.trim u; ci_userId := rnd |}]> (clients σ)
       ∧ connectedUsers σ' =
           JSMap.set rnd {| cu_userId := rnd; cu_username := Js.trim u; cu_ws := ws |}
             (connectedUsers σ)
       ∧ userAudioStates σ' = userAudioStates σ
       ∧ userVideoStates σ' = userVideoStates σ)
  ∨ (∃ ws info b,
       clients σ !! ws = Some info
       ∧ clients σ' = clients σ ∧ connectedUsers σ' = connectedUsers σ
       ∧ ((userAudioStates σ' =
             JSMap.set (ci_userId info)
               {| as_userId := ci_userId info; isAudioEnabled := b |}
               (userAudioStates σ)
           ∧ userVideoStates σ' = userVideoStates σ)
          ∨ (userVideoStates σ' =
               JSMap.set (ci_userId info)
                 {| vs_userId := ci_userId info; isVideoEnabled := b |}
                 (userVideoStates σ)
             ∧ userAudioStates σ' = userAudioStates σ)))
  ∨ (∃ ws info,
       clients σ !! ws = Some info
       ∧ clients σ' = delete ws (clients σ)
       ∧ connectedUsers σ' = JSMap.delete (ci_userId info) (connectedUsers σ)
       ∧ userAudioStates σ' = JSMap.delete (ci_userId info) (userAudioStates σ)
       ∧ userVideoStates σ' = JSMap.delete (ci_userId info) (userVideoStates σ)).
Proof.
  intros Hstep. destruct e as [|ws isBinary parsed now rnd|ws now].
  - left. cbn [step] in Hstep. simplify_eq. unfold on_connection, sendToClient.
    by repeat case_decide.
  - cbn [step] in Hstep. case_decide; [|left; by simplify_eq].
    apply on_message_cases in Hstep
      as [->|[->|[[data ->]|[[data ->]|[[data ->]|[[b ->]|[b ->]]]]]]].
    + by left.
    + left. unfold sendToClient. by case_decide.
    + destruct (set_username_tables ws data now rnd σ)
        as (Ha & Hv & [[Hc Hu]|(u & Hlen & Hc & Hu)]).
      * by left.
      * right; left. by exists ws, u, rnd.
    + by left.
    + left. destruct (relay_tables σ ws data) as (? & ? & ? & ?). done.
    + destruct (audio_state_tables ws b σ) as (Hc & Hu & Hv & [Ha|(info & Hi & Ha)]).
      * by left.
      * right; right; left. exists ws, info, b. split_and!; try done. by left.
    + destruct (video_state_tables ws b σ) as (Hc & Hu & Ha & [Hv|(info & Hi & Hv)]).
      * by left.
      * right; right; left. exists ws, info, b. split_and!; try done. by right.
  - cbn [step] in Hstep. destruct (JSMap.has _ _); [|left; by simplify_eq].
    case_decide; simplify_eq; [|by left].
    pose proof (on_close_tables ws now (with_wss_clients (JSMap.delete ws) σ)) as Ht.
    cbn zeta in Ht. cbn [clients connectedUsers userAudioStates userVideoStates
                          with_wss_clients] in Ht.
    destruct Ht as [Hc Ht].
    destruct (clients σ !! ws) as [info|] eqn:E.
    + right; right; right. exists ws, info. by destruct Ht as (? & ? & ?).
    + left. destruct Ht as (? & ? & ?). split_and!; try done.
      cbn [clients with_listening]. rewrite Hc. by apply delete_id.
Qed.

(** X14.  Registered names are normal: in every state the server can reach,
    the name of each identity and of each Registry record is not empty and
    is its own trim, and each Registry record is stored under its own
    id. *)
Theorem registered_names_trimmed σ :
  reachable σ →
  (∀ ws info, clients σ !! ws = Some info →
     ci_username info ≠ "" ∧ Js.trim (ci_username info) = ci_username info)
  ∧ (∀ id u, JSMap.get id (connectedUsers σ) = Some u →
       cu_userId u = id
       ∧ cu_username u ≠ "" ∧ Js.trim (cu_username u) = cu_username u).
Proof.
  intros [es Hrun].
  refine (run_invariant
            (λ σ, (∀ ws info, clients σ !! ws = Some info →
                     ci_username info ≠ ""
                     ∧ Js.trim (ci_username info) = ci_username info)
                  ∧ (∀ id u, JSMap.get id (connectedUsers σ) = Some u →
                       cu_userId u = id
                       ∧ cu_username u ≠ ""
                       ∧ Js.trim (cu_username u) = cu_username u))
            _ es initial σ wf_initial _ Hrun).
  - clear. intros σ e σ' Hwf [Hcl Hus] Hstep.
    destruct (step_tables _ _ _ Hstep)
      as [(Hc & Hu & _)|[(ws & u & rnd & Hlen & Hc & Hu & _)
         |[(ws & info & b & _ & Hc & Hu & _)|(ws & info & _ & Hc & Hu & _)]]];
      rewrite Hc, Hu; try done.
    + split.
      * intros c info'. destruct (decide (c = ws)) as [->|Hne].
        -- rewrite lookup_insert_eq. intros [= <-]. cbn.
           split; [by apply length_pos_nonempty | apply trim_idemp].
        -- rewrite lookup_insert_ne by done. apply Hcl.
      * intros id u'. rewrite JSMapFacts.get_set. case_decide as Hid.
        -- intros [= <-]. cbn.
           split_and!; [done | by apply length_pos_nonempty | apply trim_idemp].
        -- apply Hus.
    + split.
      * intros c info' Hl. apply lookup_delete_Some in Hl as [_ Hl]. by eapply Hcl.
      * intros id u'. destruct (decide (id = ci_userId info)) as [->|Hne].
        -- by rewrite JSMapFacts.get_delete_eq by apply Hwf.
        -- rewrite JSMapFacts.get_delete_ne by done. apply Hus.
  - split; [intros ws info Hl; cbn in Hl; by rewrite lookup_empty in Hl | done].
Qed.

(** *** Chat *)

Lemma on_message_chat σ ws data now rnd :
  Js.prop data "type" = Some (JStr "chat") →
  on_message ws false (Some data) now rnd σ = Some (chat ws data now σ).
Proof.
  intros Hty. unfold on_message. destruct data; try done. by rewrite Hty.
Qed.

(** X15.  The name on a chat message of a channel with an identity is the
    registered one: the message goes to every open socket, the sender
    included, with the registered name and with the text as given, or the
    empty string when the text is falsy; whatever else the client puts into
    the request changes neither name nor text.  Every message sent reads
    [type] ["chat"], [username] the registered name, that text and the
    time. *)
Theorem chat_name_is_registered σ ws data now rnd clientInfo :
  wf σ →
  ws ∈ listening σ →
  clients σ !! ws = Some clientInfo →
  Js.prop data "type" = Some (JStr "chat") →
  ∃ σ',
    step σ (Message ws false (Some data) now rnd) = Some σ'
    ∧ (∃ text,
         sent_by σ σ' =
           map (λ c, (c, chat_msg (ci_username clientInfo) text now)) (recipients None σ)
         ∧ (if Js.truthy (Js.prop data "text")
            then Js.prop data "text" = Some text else text = JStr ""))
    ∧ (∀ c, c ∈ recipients None σ ↔ readyState σ c = OPEN)
    ∧ ws ∈ recipients None σ
    ∧ clients σ' = clients σ
    ∧ connectedUsers σ' = connectedUsers σ
    ∧ (∀ data2 now2 rnd2,
         Js.prop data2 "type" = Some (JStr "chat") →
         Js.prop data2 "text" = Js.prop data "text" →
         ∃ σ2', step σ (Message ws false (Some data2) now2 rnd2) = Some σ2'
                ∧ map (λ out, (out.1, Js.prop out.2 "username", Js.prop out.2 "text"))
                    (sent_by σ σ2')
                  = map (λ out, (out.1, Js.prop out.2 "username", Js.prop out.2 "text"))
                      (sent_by σ σ'))
    ∧ (∀ c m, (c, m) ∈ sent_by σ σ' →
         Wire.fields ["type"; "username"; "text"; "timestamp"] m
         = [Some (JStr "chat"); Some (JStr (ci_username clientInfo));
            Some (Js.or_else (Js.prop data "text") (JStr "")); Some (JNum now)]).
Proof.
  intros Hwf Hl Hc Hty. exists (chat ws data now σ).
  rewrite step_Message_listening by done.
  split; [by apply on_message_chat|].
  assert (Hsent : ∀ d n,
    sent_by σ (chat ws d n σ) =
      map (λ c, (c, chat_msg (ci_username clientInfo)
                      (Js.or_else (Js.prop d "text") (JStr "")) n))
        (recipients None σ)).
  { intros d n. apply sent_by_app. unfold chat. by rewrite Hc. }
  split_and!; try done.
  - eexists. split; [apply Hsent|].
    unfold Js.or_else. destruct (Js.prop data "text") as [v|] eqn:E; [|done].
    by destruct (Js.truthy (Some v)).
  - intros c. rewrite elem_of_recipients by done.
    split; [by intros [? _] | by intros ?].
  - apply elem_of_recipients; [done|]. split; [by apply listening_open | done].
  - intros data2 now2 rnd2 Hty2 Htext. exists (chat ws data2 now2 σ).
    rewrite step_Message_listening by done.
    split; [by apply on_message_chat|].
    rewrite !Hsent, Htext, !map_map. done.
  - intros c m. rewrite Hsent. intros ->%elem_of_broadcast. apply chat_msg_wire.
Qed.

(** *** Sample states *)

Lemma two_peers_reachable : reachable two_peers.
Proof.
  exists [ Connect; Connect;
           Message 0 false (Some (set_username_data "alice")) 1000 "4fzyo82mv";
           Message 1 false (Some (set_username_data "bob")) 2000 "k8l2q0xw1" ].
  by vm_compute.
Qed.

Lemma two_peers_wf : wf two_peers.
Proof. apply reachable_wf, two_peers_reachable. Qed.

Lemma two_peers_alice :
  clients two_peers !! 0 = Some {| ci_username := "alice"; ci_userId := "4fzyo82mv" |}.
Proof. by vm_compute. Qed.

Lemma two_peers_listening ws : ws < 2 → ws ∈ listening two_peers.
Proof.
  intros Hlt. destruct ws as [|[|ws]]; [by vm_compute..|lia].
Qed.

Lemma two_sockets_listening ws : ws < 2 → ws ∈ listening two_sockets.
Proof.
  intros Hlt. destruct ws as [|[|ws]]; [by vm_compute..|lia].
Qed.

Lemma audio_toggle_broadcast_witness :
  ∃ σ',
    step two_peers (Message 0 false (Some (JObj [("type", JStr "audio_enabled")])) 3000 "")
      = Some σ'
    ∧ JSMap.get "4fzyo82mv" (userAudioStates σ')
      = Some {| as_userId := "4fzyo82mv"; isAudioEnabled := true |}.
Proof.
  destruct (audio_toggle_broadcast two_peers 0 (JObj [("type", JStr "audio_enabled")])
              3000 "" {| ci_username := "alice"; ci_userId := "4fzyo82mv" |} true)
    as (σ' & Hstep & Hget & _).
  - apply two_peers_wf.
  - apply two_peers_listening. lia.
  - apply two_peers_alice.
  - reflexivity.
  - exists σ'. split; [exact Hstep | exact Hget].
Defined.

Lemma video_toggle_broadcast_witness :
  ∃ σ',
    step two_peers (Message 0 false (Some (JObj [("type", JStr "video_disabled")])) 3000 "")
      = Some σ'
    ∧ JSMap.get "4fzyo82mv" (userVideoStates σ')
      = Some {| vs_userId := "4fzyo82mv"; isVideoEnabled := false |}.
Proof.
  destruct (video_toggle_broadcast two_peers 0 (JObj [("type", JStr "video_disabled")])
              3000 "" {| ci_username := "alice"; ci_userId := "4fzyo82mv" |} false)
    as (σ' & Hstep & Hget & _).
  - apply two_peers_wf.
  - apply two_peers_listening. lia.
  - apply two_peers_alice.
  - reflexivity.
  - exists σ'. split; [exact Hstep | exact Hget].
Defined.

Lemma audio_toggle_idempotent_witness :
  ∃ σ1 σ2,
    step two_peers (Message 0 false (Some (JObj [("type", JStr "audio_enabled")])) 3000 "")
      = Some σ1
    ∧ step σ1 (Message 0 false (Some (JObj [("type", JStr "audio_enabled")])) 4000 "")
      = Some σ2
    ∧ userAudioStates σ2 = userAudioStates σ1
    ∧ sent_by σ1 σ2 = sent_by two_peers σ1.
Proof.
  apply (audio_toggle_idempotent two_peers 0 (JObj [("type", JStr "audio_enabled")])
           3000 "" 4000 "" {| ci_username := "alice"; ci_userId := "4fzyo82mv" |} true).
  - apply two_peers_listening. lia.
  - apply two_peers_alice.
  - reflexivity.
Defined.

Lemma media_state_needs_join_witness :
  step two_sockets (Message 1 false (Some (JObj [("type", JStr "video_enabled")])) 3000 "")
  = Some two_sockets.
Proof.
  apply (media_state_needs_join two_sockets 1 (JObj [("type", JStr "video_enabled")])
           3000 "" "video_enabled").
  - by vm_compute.
  - apply (bool_decide_unpack _). by vm_compute.
  - reflexivity.
Defined.

Lemma malformed_frame_handling_witness :
  step two_peers (Message 0 true None 3000 "") = Some two_peers
  ∧ ∃ σ',
      step two_peers (Message 0 false None 3000 "") = Some σ'
      ∧ sent_by two_peers σ' = [(0, error_msg "Invalid JSON")].
Proof.
  destruct (malformed_frame_handling two_peers 0 None 3000 "")
    as (Hbin & σ' & Hstep & Hsent & _).
  - apply two_peers_wf.
  - apply two_peers_listening. lia.
  - split; [exact Hbin|]. exists σ'. split; [exact Hstep | exact Hsent].
Defined.

Lemma invalid_username_rejected_witness :
  ∃ σ',
    step two_sockets (Message 1 false (Some (set_username_data "   ")) 3000 "k8l2q0xw1")
      = Some σ'
    ∧ sent_by two_sockets σ' = [(1, error_msg "Invalid username")]
    ∧ clients σ' = clients two_sockets.
Proof.
  destruct (invalid_username_rejected two_sockets 1 (set_username_data "   ")
              3000 "k8l2q0xw1")
    as (σ' & Hstep & Hsent & Hcl & _).
  - apply two_sockets_wf.
  - apply two_sockets_listening. lia.
  - reflexivity.
  - intros u [= <-]. reflexivity.
  - exists σ'. split_and!; [exact Hstep | exact Hsent | exact Hcl].
Defined.

Lemma connection_accepted_witness :
  ∃ σ',
    step two_peers Connect = Some σ'
    ∧ sent_by two_peers σ' =
        [(2, request_username_msg); (2, user_list_msg (connectedUsers two_peers))]
    ∧ readyState σ' 2 = OPEN.
Proof.
  destruct (connection_accepted two_peers) as (σ' & Hstep & Hsent & _ & _ & Hopen & _).
  - apply two_peers_wf.
  - vm_compute. lia.
  - exists σ'. split_and!; [exact Hstep | exact Hsent | exact Hopen].
Defined.

Lemma served_channels_bounded_witness :
  size (listening full_house) ≤ MAX_CLIENTS
  ∧ (∀ ws, is_Some (clients full_house !! ws) → ws ∈ listening full_house)
  ∧ size (dom (clients full_house)) ≤ MAX_CLIENTS.
Proof. apply (served_channels_bounded full_house), full_house_reachable. Defined.

Lemma writes_only_to_open_sockets_witness :
  readyState two_peers 1 = OPEN ∧ 1 ≠ 0.
Proof.
  apply (writes_only_to_open_sockets two_peers (Close 0 3000)
           (default two_peers (step two_peers (Close 0 3000)))
           1 (system_msg "alice left the chat." 3000)).
  - apply two_peers_wf.
  - vm_compute. reflexivity.
  - apply (list_elem_of_lookup_2 _ 0). vm_compute. reflexivity.
Defined.

Lemma relay_delivery_conditions_witness :
  ∃ σ',
    step two_sockets (Message 1 false (Some spoofed_offer) 3000 "") = Some σ'
    ∧ length (sent_by two_sockets σ') ≤ 1
    ∧ connectedUsers σ' = connectedUsers two_sockets.
Proof.
  destruct (relay_delivery_conditions two_sockets 1 spoofed_offer 3000 "")
    as (σ' & Hstep & _ & Hlen & _ & Hu & _).
  - reflexivity.
  - exists σ'. split_and!; [exact Hstep | exact Hlen | exact Hu].
Defined.

Lemma relay_passes_payload_witness :
  Js.prop
    (messageWithSender spoofed_offer
       {| ci_username := "alice"; ci_userId := "4fzyo82mv" |}) "offer"
  = Js.prop spoofed_offer "offer".
Proof.
  apply (relay_passes_payload two_peers 0 spoofed_offer 3000 ""
           (default two_peers
              (step two_peers (Message 0 false (Some spoofed_offer) 3000 "")))
           1).
  - reflexivity.
  - vm_compute. reflexivity.
  - apply (list_elem_of_lookup_2 _ 0). vm_compute. reflexivity.
  - done.
  - done.
Defined.

Lemma close_before_join_is_silent_witness :
  ∃ σ',
    step two_sockets (Close 1 3000) = Some σ'
    ∧ sent_by two_sockets σ' = []
    ∧ connectedUsers σ' = connectedUsers two_sockets.
Proof.
  destruct (close_before_join_is_silent two_sockets 1 3000)
    as (σ' & Hstep & Hsent & _ & _ & _ & _ & _ & Hu & _).
  - apply two_sockets_wf.
  - apply (bool_decide_unpack _). by vm_compute.
  - by vm_compute.
  - exists σ'. split_and!; [exact Hstep | exact Hsent | exact Hu].
Defined.

Lemma registered_names_trimmed_witness :
  (∀ ws info, clients two_peers !! ws = Some info →
     ci_username info ≠ "" ∧ Js.trim (ci_username info) = ci_username info)
  ∧ (∀ id u, JSMap.get id (connectedUsers two_peers) = Some u →
       cu_userId u = id
       ∧ cu_username u ≠ "" ∧ Js.trim (cu_username u) = cu_username u).
Proof. apply (registered_names_trimmed two_peers), two_peers_reachable. Defined.

Lemma chat_name_is_registered_witness :
  ∃ σ',
    step two_peers
      (Message 0 false
         (Some (JObj [("type", JStr "chat"); ("username", JStr "bob");
                      ("text", JStr "hi")])) 3000 "")
    = Some σ'
    ∧ ∃ text,
        sent_by two_peers σ' =
          map (λ c, (c, chat_msg "alice" text 3000)) (recipients None two_peers).
Proof.
  destruct (chat_name_is_registered two_peers 0
              (JObj [("type", JStr "chat"); ("username", JStr "bob");
                     ("text", JStr "hi")]) 3000 ""
              {| ci_username := "alice"; ci_userId := "4fzyo82mv" |})
    as (σ' & Hstep & (text & Hsent & _) & _).
  - apply two_peers_wf.
  - apply two_peers_listening. lia.
  - apply two_peers_alice.
  - reflexivity.
  - exists σ'. split; [exact Hstep|]. exists text. exact Hsent.
Defined.

Lemma registry_is_handshaken_set_witness :
  ∃ σ,
    run initial orderly_run = Some σ
    ∧ (∀ ws, ws ∈ registered_channels σ ↔ ws ∈ handshaken initial orderly_run ∅)
    ∧ NoDup (registered_channels σ).
Proof.
  destruct orderly_run_registry as (Hfirst & σ & Hrun & _ & _).
  exists σ. split; [exact Hrun|].
  destruct (registry_is_handshaken_set orderly_run σ Hfirst Hrun) as (Hset & Hnd & _).
  split; [exact Hset | exact Hnd].
Defined.

(** *** Media tables *)

Lemma set_keyed {V} (key : V → string) (m : list (string * V)) k v :
  key v = k →
  (∀ k' v', (k', v') ∈ m → key v' = k') →
  ∀ k' v', (k', v') ∈ JSMap.set k v m → key v' = k'.
Proof.
  intros Hk. induction m as [|[k0 v0] m IH]; cbn; intros Hm k' v' Hin.
  - by apply list_elem_of_singleton in Hin as [= -> ->].
  - case_decide.
    + apply elem_of_cons in Hin as [[= -> ->]|Hin]; [done|].
      apply Hm. by right.
    + apply elem_of_cons in Hin as [[= -> ->]|Hin].
      * apply Hm. by left.
      * apply IH; [|done]. intros ? ? ?. apply Hm. by right.
Qed.

Lemma delete_subseteq {V} (m : list (string * V)) k :
  JSMap.delete k m ⊆ m.
Proof.
  induction m as [|[k0 v0] m IH]; cbn; [done|]. case_decide.
  - intros x Hx. by right.
  - intros x [->|Hx]%elem_of_cons; [by left|right; by apply IH].
Qed.

Lemma media_tables_keyed σ :
  reachable σ →
  NoDup (JSMap.keys (userAudioStates σ))
  ∧ (∀ k s, (k, s) ∈ userAudioStates σ → as_userId s = k)
  ∧ NoDup (JSMap.keys (userVideoStates σ))
  ∧ (∀ k s, (k, s) ∈ userVideoStates σ → vs_userId s = k).
Proof.
  intros [es Hrun].
  refine (run_invariant
            (λ σ, NoDup (JSMap.keys (userAudioStates σ))
                  ∧ (∀ k s, (k, s) ∈ userAudioStates σ → as_userId s = k)
                  ∧ NoDup (JSMap.keys (userVideoStates σ))
                  ∧ (∀ k s, (k, s) ∈ userVideoStates σ → vs_userId s = k))
            _ es initial σ wf_initial _ Hrun).
  - clear. intros σ e σ' Hwf (Hna & Hka & Hnv & Hkv) Hstep.
    destruct (step_tables _ _ _ Hstep)
      as [(_ & _ & Ha & Hv)|[(ws & u & rnd & _ & _ & _ & Ha & Hv)
         |[(ws & info & b & _ & _ & _ & [[Ha Hv]|[Hv Ha]])
          |(ws & info & _ & _ & _ & Ha & Hv)]]];
      rewrite Ha, Hv; split_and!; try done.
    + by apply JSMapFacts.NoDup_keys_set.
    + by apply (set_keyed as_userId).
    + by apply JSMapFacts.NoDup_keys_set.
    + by apply (set_keyed vs_userId).
    + by apply JSMapFacts.NoDup_keys_delete.
    + intros k s Hin. by apply Hka, (delete_subseteq _ (ci_userId info)).
    + by apply JSMapFacts.NoDup_keys_delete.
    + intros k s Hin. by apply Hkv, (delete_subseteq _ (ci_userId info)).
  - cbn. split_and!; try apply NoDup_nil_2; by intros k s ?%elem_of_nil.
Qed.

(** *** Leaving with an identity *)

(** X31.  When a socket with an identity closes, the hub deletes the
    Registry record and the media states stored under the id the socket has
    now and forgets the identity, and every remaining open socket, and no
    other, is sent the [system] notice of the departure, then the
    [user_list], the [audio_states] and the [video_states] computed after
    the deletion, in that order.  If the only record of the socket is the
    one under that id, the socket is in no record afterwards. *)
Theorem leave_order σ ws now clientInfo :
  wf σ →
  ws ∈ listening σ →
  clients σ !! ws = Some clientInfo →
  ∃ σ',
    step σ (Close ws now) = Some σ'
    ∧ let id := ci_userId clientInfo in
      let remaining := recipients None σ' in
      let notice := system_msg (ci_username clientInfo +:+ " left the chat.") now in
      let listing := user_list_msg (connectedUsers σ') in
      let audio := audio_states_msg (userAudioStates σ') in
      let video := video_states_msg (userVideoStates σ') in
      connectedUsers σ' = JSMap.delete id (connectedUsers σ)
      ∧ userAudioStates σ' = JSMap.delete id (userAudioStates σ)
      ∧ userVideoStates σ' = JSMap.delete id (userVideoStates σ)
      ∧ (id ∉ registered_ids σ')
      ∧ clients σ' !! ws = None
      ∧ (∀ c, c ∈ remaining ↔ readyState σ c = OPEN ∧ c ≠ ws)
      ∧ sent_by σ σ' =
          map (λ c, (c, notice)) remaining
          ++ map (λ c, (c, listing)) remaining
          ++ map (λ c, (c, audio)) remaining
          ++ map (λ c, (c, video)) remaining
      ∧ ((∀ id' p, JSMap.get id' (connectedUsers σ) = Some p → cu_ws p = ws →
                   id' = id) →
         ws ∉ registered_channels σ')
      ∧ Wire.fields ["type"; "message"; "timestamp"] notice
        = [Some (JStr "system");
           Some (JStr (ci_username clientInfo +:+ " left the chat."));
           Some (JNum now)]
      ∧ Js.prop listing "type" = Some (JStr "user_list")
      ∧ Wire.users listing = Some (Wire.user_rows (connectedUsers σ'))
      ∧ Js.prop audio "type" = Some (JStr "audio_states")
      ∧ Wire.states "isAudioEnabled" audio
        = Some (Wire.audio_rows (userAudioStates σ'))
      ∧ Js.prop video "type" = Some (JStr "video_states")
      ∧ Wire.states "isVideoEnabled" video
        = Some (Wire.video_rows (userVideoStates σ')).
Proof.
  intros Hwf Hl Hc.
  pose proof (wf_listening _ Hwf _ Hl) as Hget.
  set (σ0 := with_wss_clients (JSMap.delete ws) σ).
  assert (Hstep : step σ (Close ws now)
                  = Some (with_listening (λ s, s ∖ {[ws]}) (on_close ws now σ0))).
  { cbn [step]. unfold JSMap.has. rewrite Hget. fold σ0.
    change (listening σ0) with (listening σ). by case_decide. }
  eexists. split; [exact Hstep|]. cbn zeta.
  pose proof (wf_step _ _ _ Hwf Hstep) as Hwf'.
  destruct (on_close_registered σ0 ws now clientInfo Hc)
    as (Hu & Ha & Hv & Hcl & Hout).
  assert (Hgone : ws ∉ JSMap.keys (wss_clients σ0)).
  { apply JSMapFacts.get_None_keys, JSMapFacts.get_delete_eq, Hwf. }
  split_and!.
  - exact Hu.
  - exact Ha.
  - exact Hv.
  - unfold registered_ids. cbn [connectedUsers with_listening]. rewrite Hu.
    apply JSMapFacts.get_None_keys, JSMapFacts.get_delete_eq, Hwf.
  - cbn [clients with_listening]. rewrite Hcl. apply lookup_delete_eq.
  - intros c. rewrite elem_of_recipients by done.
    unfold readyState. cbn [wss_clients with_listening].
    destruct (on_close_sockets ws now σ0) as (-> & _ & _).
    cbn [wss_clients with_wss_clients σ0].
    destruct (decide (c = ws)) as [->|Hne].
    + rewrite JSMapFacts.get_delete_eq by apply Hwf. cbn.
      split; [by intros [? _] | by intros [_ ?]].
    + rewrite JSMapFacts.get_delete_ne by done.
      split; [by intros [? _] | by intros [? _]].
  - apply sent_by_app.
    change (outbox σ) with (outbox σ0).
    cbn [outbox connectedUsers userAudioStates userVideoStates with_listening].
    rewrite Hout, (recipients_absent σ0 ws Hgone).
    unfold recipients. cbn [wss_clients with_listening].
    by destruct (on_close_sockets ws now σ0) as (-> & _ & _).
  - intros Honly Hin. unfold registered_channels in Hin.
    cbn [connectedUsers with_listening] in Hin. rewrite Hu in Hin.
    apply list_elem_of_fmap in Hin as (p & Hws & Hp).
    unfold JSMap.values in Hp.
    apply list_elem_of_fmap in Hp as ([id' p'] & -> & Hp). cbn [snd] in Hws.
    assert (Hnd : NoDup (JSMap.keys (connectedUsers σ))) by apply Hwf.
    assert (id' = ci_userId clientInfo) as ->.
    { apply (Honly id' p'); [|done].
      apply JSMapFacts.get_elem_NoDup; [done|].
      by apply (delete_subseteq _ (ci_userId clientInfo)). }
    apply JSMapFacts.get_elem_NoDup in Hp;
      [|by apply JSMapFacts.NoDup_keys_delete].
    change (connectedUsers σ0) with (connectedUsers σ) in Hp.
    by rewrite JSMapFacts.get_delete_eq in Hp.
  - reflexivity.
  - reflexivity.
  - apply user_list_msg_wire.
  - reflexivity.
  - apply audio_states_msg_wire.
  - reflexivity.
  - apply video_states_msg_wire.
Qed.

Lemma leave_order_witness :
  ∃ σ',
    step two_peers (Close 0 3000) = Some σ'
    ∧ registered_ids σ' = ["k8l2q0xw1"]
    ∧ clients σ' !! 0 = None.
Proof.
  destruct (leave_order two_peers 0 3000
              {| ci_username := "alice"; ci_userId := "4fzyo82mv" |})
    as (σ' & Hstep & Husers & _ & _ & _ & Hclients & _).
  - apply two_peers_wf.
  - apply two_peers_listening. lia.
  - apply two_peers_alice.
  - exists σ'. split; [exact Hstep|]. split.
    + unfold registered_ids. rewrite Husers. by vm_compute.
    + exact Hclients.
Defined.

End HubProps.

(** ** The mesh controller: Links, calls and retries *)

Module ClientProps.
Import Client ClientSpec Timers.

(** *** Membership updates, Link by Link *)

Lemma createPeerConnections_each_skip σ user :
  cu_userId user = userIdRef σ ∨ is_Some (peersRef σ !! Some (cu_userId user)) →
  createPeerConnections_each σ user = σ.
Proof.
  intros H. unfold createPeerConnections_each.
  destruct H as [H|H].
  - by rewrite (bool_decide_eq_true_2 _ H).
  - rewrite (bool_decide_eq_true_2 (is_Some _) H). by rewrite andb_false_r.
Qed.

Lemma createPeerConnections_each_peers σ user k :
  peersRef (createPeerConnections_each σ user) !! k =
    if decide (k = Some (cu_userId user) ∧ cu_userId user ≠ userIdRef σ
               ∧ peersRef σ !! k = None)
    then Some {| connection := next_conn σ; userId := Some (cu_userId user);
                 username := Some (cu_username user); audioElement := false |}
    else peersRef σ !! k.
Proof.
  destruct (createPeerConnections_each_eq σ user) as (l & _ & -> & _).
  destruct (decide (cu_userId user = userIdRef σ)) as [Hs|Hs].
  { rewrite (bool_decide_eq_true_2 _ Hs). cbn. rewrite decide_False; [done|].
    by intros (_ & ? & _). }
  rewrite (bool_decide_eq_false_2 _ Hs). cbn [negb andb].
  destruct (peersRef σ !! Some (cu_userId user)) as [p|] eqn:Hp.
  { rewrite (bool_decide_eq_true_2 (is_Some _)) by by eexists. cbn.
    rewrite decide_False; [done|]. intros (-> & _ & ?). congruence. }
  rewrite (bool_decide_eq_false_2 (is_Some _)) by by intros [? ?]. cbn.
  destruct (decide (k = Some (cu_userId user))) as [->|Hk].
  - rewrite lookup_insert_eq. by rewrite decide_True.
  - rewrite lookup_insert_ne by done. rewrite decide_False; [done|].
    by intros (? & _).
Qed.

Lemma createPeerConnections_userIdRef users : ∀ σ,
  userIdRef (createPeerConnections users σ) = userIdRef σ.
Proof.
  unfold createPeerConnections. induction users as [|u users IH]; intros σ; [done|].
  cbn [foldl]. by rewrite IH, createPeerConnections_each_userIdRef.
Qed.

Lemma createPeerConnections_linked users : ∀ σ k,
  (is_Some (peersRef (createPeerConnections users σ) !! k)
   ↔ is_Some (peersRef σ !! k)
     ∨ ∃ u, u ∈ users ∧ k = Some (cu_userId u) ∧ cu_userId u ≠ userIdRef σ)
  ∧ (∀ p, peersRef σ !! k = Some p →
          peersRef (createPeerConnections users σ) !! k = Some p).
Proof.
  unfold createPeerConnections.
  induction users as [|u users IH]; intros σ k.
  { cbn. split; [|done]. split; [by left|].
    intros [?|(u & Hin & _)]; [done|]. by apply elem_of_nil in Hin. }
  cbn [foldl]. destruct (IH (createPeerConnections_each σ u) k) as [IH1 IH2].
  rewrite createPeerConnections_each_userIdRef in IH1.
  rewrite createPeerConnections_each_peers in IH1, IH2. split.
  - rewrite IH1. clear IH1 IH2. case_decide as Hd.
    + destruct Hd as (-> & Hne & Hnone). split.
      * intros _. right. exists u. split; [apply elem_of_cons; by left|done].
      * intros _. left. by eexists.
    + split.
      * intros [?|(u' & Hin & ? & ?)]; [by left|]. right. exists u'.
        split; [apply elem_of_cons; by right|done].
      * intros [?|(u' & Hin & -> & Hne)]; [by left|].
        apply elem_of_cons in Hin as [->|Hin].
        -- left. destruct (peersRef σ !! Some (cu_userId u)) eqn:E; [by eexists|].
           destruct Hd. done.
        -- right. by exists u'.
  - intros p Hp. apply IH2. rewrite decide_False; [done|].
    intros (_ & _ & ?). congruence.
Qed.


(** X17.  After [createPeerConnections] the Links are those that were there
    and one for each listed user whose id is not the local one; a Link that
    was there is unchanged. *)
Theorem createPeerConnections_links users σ k :
  let σ' := createPeerConnections users σ in
  (is_Some (peersRef σ' !! k)
   ↔ is_Some (peersRef σ !! k)
     ∨ ∃ u, u ∈ users ∧ k = Some (cu_userId u) ∧ cu_userId u ≠ userIdRef σ)
  ∧ (∀ p, peersRef σ !! k = Some p → peersRef σ' !! k = Some p)
  ∧ (∀ p, peersRef σ' !! k = Some p →
          peersRef σ !! k = Some p
          ∨ ∃ u, u ∈ users ∧ k = Some (cu_userId u)
                 ∧ userId p = Some (cu_userId u)
                 ∧ username p = Some (cu_username u)
                 ∧ audioElement p = false).
Proof.
  cbn zeta. destruct (createPeerConnections_linked users σ k) as [Hiff Hkeep].
  split; [exact Hiff|]. split; [exact Hkeep|]. clear Hiff Hkeep.
  unfold createPeerConnections. revert σ.
  induction users as [|u users IH]; intros σ p; cbn [foldl]; [by left|].
  intros Hp. apply IH in Hp as [Hp|(u' & Hin & ? & ? & ? & ?)].
  - rewrite createPeerConnections_each_peers in Hp. case_decide as Hd.
    + destruct Hd as (-> & _ & _). simplify_eq. right. exists u.
      split; [apply elem_of_cons; by left|done].
    + by left.
  - right. exists u'. split; [apply elem_of_cons; by right|done].
Qed.

Lemma createPeerConnections_skip users : ∀ σ,
  (∀ u, u ∈ users →
        cu_userId u = userIdRef σ ∨ is_Some (peersRef σ !! Some (cu_userId u))) →
  createPeerConnections users σ = σ.
Proof.
  unfold createPeerConnections. induction users as [|u users IH]; intros σ H; [done|].
  cbn [foldl]. rewrite createPeerConnections_each_skip.
  - apply IH. intros u' Hin. apply H, elem_of_cons. by right.
  - apply H, elem_of_cons. by left.
Qed.

(** X18.  [createPeerConnections] is idempotent: processing the same
    membership a second time changes nothing. *)
Theorem createPeerConnections_idempotent users σ :
  createPeerConnections users (createPeerConnections users σ)
  = createPeerConnections users σ.
Proof.
  apply createPeerConnections_skip. intros u Hin.
  rewrite createPeerConnections_userIdRef.
  destruct (decide (cu_userId u = userIdRef σ)) as [?|Hne]; [by left|right].
  apply (createPeerConnections_linked users σ). right. by exists u.
Qed.

Lemma createPeerConnections_each_quiet σ user :
  userIdRef σ = "" →
  let σ' := createPeerConnections_each σ user in
  timers σ' = timers σ ∧ timer_log σ' = timer_log σ
  ∧ awaits σ' = awaits σ ∧ sent σ' = sent σ.
Proof.
  intros Hid. cbn zeta. unfold createPeerConnections_each.
  destruct (_ && _); [|done].
  rewrite createPeerConnection_eq. client_cbn. rewrite Hid.
  rewrite andb_false_r. client_cbn. by rewrite !app_nil_r.
Qed.

Lemma createPeerConnections_quiet users : ∀ σ,
  userIdRef σ = "" →
  let σ' := createPeerConnections users σ in
  timers σ' = timers σ ∧ timer_log σ' = timer_log σ
  ∧ awaits σ' = awaits σ ∧ sent σ' = sent σ.
Proof.
  unfold createPeerConnections. induction users as [|u users IH]; intros σ Hid; [done|].
  cbn zeta. cbn [foldl].
  destruct (createPeerConnections_each_quiet σ u Hid) as (<- & <- & <- & <-).
  apply IH. by rewrite createPeerConnections_each_userIdRef.
Qed.

(** X19.  A membership processed before the local id is known creates its
    Links without calling anybody: no timer is set, no promise is pending
    and nothing is sent.  Once the id has arrived, a membership that lists
    the same users and the local one creates and schedules nothing
    either. *)
Theorem membership_before_accept_never_calls users users2 name newId σ :
  userIdRef σ = "" →
  (∀ u, u ∈ users2 → cu_userId u = newId ∨ (u ∈ users ∧ cu_userId u ≠ "")) →
  let σ1 := createPeerConnections users σ in
  let σ2 := handleMessage (m_username_accepted name newId) σ1 in
  timers σ1 = timers σ ∧ awaits σ1 = awaits σ ∧ sent σ1 = sent σ
  ∧ (∀ u, u ∈ users → cu_userId u ≠ "" → linked (cu_userId u) σ1 = true)
  ∧ createPeerConnections users2 σ2 = σ2.
Proof.
  intros Hid Husers. cbn zeta.
  destruct (createPeerConnections_quiet users σ Hid) as (Ht & _ & Ha & Hs).
  assert (Hlinked : ∀ u, u ∈ users → cu_userId u ≠ "" →
            is_Some (peersRef (createPeerConnections users σ) !! Some (cu_userId u))).
  { intros u Hin Hne. apply (createPeerConnections_linked users σ). right.
    exists u. by rewrite Hid. }
  split_and!; try done.
  - intros u Hin Hne. apply linked_true. by apply Hlinked.
  - apply createPeerConnections_skip. intros u Hin. cbn.
    destruct (Husers u Hin) as [?|[Hin' Hne]]; [by left|right].
    by apply Hlinked.
Qed.

(** *** Closing *)

Lemma closed_twice (o : option RTCPeerConnection) :
  (λ pc, {| connectionState := cs_closed; pc_userId := pc_userId pc;
            pc_username := pc_username pc |})
    <$> ((λ pc, {| connectionState := cs_closed; pc_userId := pc_userId pc;
                   pc_username := pc_username pc |}) <$> o)
  = (λ pc, {| connectionState := cs_closed; pc_userId := pc_userId pc;
              pc_username := pc_username pc |}) <$> o.
Proof. by destruct o. Qed.

Lemma close_all_connections (m : gmap (option string) WebRTCPeer) σ0 :
  let closed := λ pc, {| connectionState := cs_closed; pc_userId := pc_userId pc;
                         pc_username := pc_username pc |} in
  let σ1 := map_fold (λ _ peer σ, close_connection (connection peer) σ) σ0 m in
  σ1 = with_conns (λ _, conns σ1) σ0
  ∧ (∀ c, (∃ k p, m !! k = Some p ∧ connection p = c) →
          conns σ1 !! c = closed <$> conns σ0 !! c)
  ∧ (∀ c, (∀ k p, m !! k = Some p → connection p ≠ c) →
          conns σ1 !! c = conns σ0 !! c)
  ∧ (∀ c, conns σ1 !! c = conns σ0 !! c ∨ conns σ1 !! c = closed <$> conns σ0 !! c).
Proof.
  cbn zeta.
  apply (map_fold_weak_ind
    (λ r (m : gmap (option string) WebRTCPeer),
       r = with_conns (λ _, conns r) σ0
       ∧ (∀ c, (∃ k p, m !! k = Some p ∧ connection p = c) →
               conns r !! c =
                 (λ pc, {| connectionState := cs_closed; pc_userId := pc_userId pc;
                           pc_username := pc_username pc |}) <$> conns σ0 !! c)
       ∧ (∀ c, (∀ k p, m !! k = Some p → connection p ≠ c) →
               conns r !! c = conns σ0 !! c)
       ∧ (∀ c, conns r !! c = conns σ0 !! c
               ∨ conns r !! c =
                   (λ pc, {| connectionState := cs_closed; pc_userId := pc_userId pc;
                             pc_username := pc_username pc |}) <$> conns σ0 !! c))).
  - split_and!.
    + by destruct σ0.
    + intros c (k & p & Hk & _). by rewrite lookup_empty in Hk.
    + done.
    + by left.
  - intros i x m' r Hi (Hr & Ha & Hb & Hc). split_and!.
    + rewrite Hr at 1. done.
    + intros c (k & p & Hk & Hcp). unfold close_connection. client_cbn.
      destruct (decide (c = connection x)) as [->|Hne].
      * rewrite lookup_alter_eq.
        destruct (Hc (connection x)) as [-> | ->]; [done|apply closed_twice].
      * rewrite lookup_alter_ne by done. apply Ha.
        apply lookup_insert_Some in Hk as [[_ <-]|[_ Hk]]; [congruence|].
        by exists k, p.
    + intros c Hall. unfold close_connection. client_cbn.
      rewrite lookup_alter_ne.
      * apply Hb. intros k p Hk. apply (Hall k).
        rewrite lookup_insert_ne; [done|]. intros <-. congruence.
      * intros <-. apply (Hall i x); [apply lookup_insert_eq|done].
    + intros c. unfold close_connection. client_cbn.
      destruct (decide (c = connection x)) as [->|Hne].
      * rewrite lookup_alter_eq. right.
        destruct (Hc (connection x)) as [-> | ->]; [done|apply closed_twice].
      * rewrite lookup_alter_ne by done. apply Hc.
Qed.

Lemma stopAllStreams_socket σ :
  ws_open (stopAllStreams σ) = ws_open σ ∧ sent (stopAllStreams σ) = sent σ.
Proof.
  unfold stopAllStreams. client_cbn.
  destruct (close_all_connections (peersRef σ) (with_localStreamRef (λ _, false) σ))
    as (Heq & _).
  cbn zeta in Heq. by rewrite Heq.
Qed.

(** X20.  When the socket closes every Link is dropped and its connection
    closed, a connection of no Link keeps its state, and the pending timers
    and promises stay pending. *)
Theorem socket_close_drops_links σ :
  let σ' := step σ ws_onclose in
  peersRef σ' = ∅
  ∧ ws_open σ' = false
  ∧ localStreamRef σ' = false
  ∧ (∀ k p pc, peersRef σ !! k = Some p → conns σ !! connection p = Some pc →
       conns σ' !! connection p =
         Some {| connectionState := cs_closed; pc_userId := pc_userId pc;
                 pc_username := pc_username pc |})
  ∧ (∀ c, (∀ k p, peersRef σ !! k = Some p → connection p ≠ c) →
          conns σ' !! c = conns σ !! c)
  ∧ timers σ' = timers σ
  ∧ awaits σ' = awaits σ
  ∧ sent σ' = sent σ.
Proof.
  cbn zeta. cbn [step]. unfold stopAllStreams. client_cbn.
  destruct (close_all_connections (peersRef σ)
              (with_localStreamRef (λ _, false) (with_ws_open (λ _, false) σ)))
    as (Heq & Ha & Hb & _).
  cbn zeta in Heq, Ha, Hb.
  set (σ1 := map_fold _ _ _) in *.
  split_and!; try done; try (rewrite Heq; done).
  - intros k p pc Hk Hpc. rewrite Ha by by exists k, p.
    client_cbn. by rewrite Hpc.
Qed.

(** *** What is written to the socket *)

Lemma handleConnectionFailure_socket remote name σ :
  ws_open (handleConnectionFailure remote name σ) = ws_open σ
  ∧ sent (handleConnectionFailure remote name σ) = sent σ.
Proof. by rewrite handleConnectionFailure_eq. Qed.

Lemma initiateCall_socket peer σ :
  ws_open (initiateCall peer σ) = ws_open σ ∧ sent (initiateCall peer σ) = sent σ.
Proof.
  unfold initiateCall. client_cbn. destruct peer; [done|].
  match goal with
  | |- context [handleConnectionFailure ?r ?n ?s] =>
      by destruct (handleConnectionFailure_socket r n s) as [-> ->]
  end.
Qed.

Lemma createPeerConnection_socket remote name σ :
  ws_open (createPeerConnection remote name σ).2 = ws_open σ
  ∧ sent (createPeerConnection remote name σ).2 = sent σ.
Proof. by rewrite createPeerConnection_eq. Qed.

Lemma createPeerConnections_socket users : ∀ σ,
  ws_open (createPeerConnections users σ) = ws_open σ
  ∧ sent (createPeerConnections users σ) = sent σ.
Proof.
  unfold createPeerConnections. induction users as [|u users IH]; intros σ; [done|].
  cbn [foldl]. destruct (IH (createPeerConnections_each σ u)) as [-> ->].
  unfold createPeerConnections_each. destruct (_ && _); [|done].
  destruct (createPeerConnection_socket (Some (cu_userId u)) (Some (cu_username u)) σ)
    as [Ho Hs].
  by destruct (negb _).
Qed.

Lemma handleMessage_socket data σ :
  ws_open (handleMessage data σ) = ws_open σ ∧ sent (handleMessage data σ) = sent σ.
Proof.
  destruct data; try done; cbn [handleMessage].
  - unfold handleWebRTCOffer. destruct (peersRef σ !! _); [done|].
    apply createPeerConnection_socket.
  - unfold handleWebRTCICECandidate. by repeat case_match.
Qed.

Lemma run_task_socket task σ :
  ws_open (run_task task σ) = ws_open σ ∧ sent (run_task task σ) = sent σ.
Proof.
  destruct task as [users|remote|[p|c]|remote name]; cbn [run_task].
  - apply createPeerConnections_socket.
  - destruct (peersRef σ !! _); [|done]. apply initiateCall_socket.
  - destruct (conns σ !! _); [|done]. case_decide; [done|].
    apply handleConnectionFailure_socket.
  - done.
  - destruct (createPeerConnection remote name σ) as [newPeer σ1] eqn:E.
    destruct (initiateCall_socket (a_connection newPeer) σ1) as [-> ->].
    pose proof (createPeerConnection_socket remote name σ) as H.
    by rewrite E in H.
Qed.

Lemma sendMessage_socket msg σ :
  ws_open (sendMessage msg σ) = ws_open σ
  ∧ sent (sendMessage msg σ) = sent σ ++ (if ws_open σ then [msg] else []).
Proof. unfold sendMessage. destruct (ws_open σ) eqn:E; by rewrite ?app_nil_r. Qed.

Lemma resume_socket a o σ :
  ws_open (resume a o σ) = ws_open σ
  ∧ ∃ l, sent (resume a o σ) = sent σ ++ l ∧ length l ≤ 1
         ∧ (ws_open σ = false → l = []).
Proof.
  assert (Hnone : ∃ l : list JSON, sent σ = sent σ ++ l ∧ length l ≤ 1
                         ∧ (ws_open σ = false → l = [])).
  { exists []. rewrite app_nil_r. split_and!; [done|cbn; lia|done]. }
  assert (Hsend : ∀ msg, ∃ l, sent (sendMessage msg σ) = sent σ ++ l ∧ length l ≤ 1
                         ∧ (ws_open σ = false → l = [])).
  { intros msg. destruct (sendMessage_socket msg σ) as [_ ->].
    eexists. split; [done|]. destruct (ws_open σ); cbn; split; (lia || done). }
  destruct a, o as [v|[]]; cbn [resume];
    try (split; [done|exact Hnone]);
    try (split; [apply handleConnectionFailure_socket|];
         rewrite (proj2 (handleConnectionFailure_socket _ _ _)); exact Hnone).
  - split; [apply sendMessage_socket|]. apply Hsend.
  - split; [apply sendMessage_socket|]. apply Hsend.
Qed.

Lemma step_socket σ e :
  (e ≠ ws_onopen → ws_open σ = false → ws_open (step σ e) = false)
  ∧ ∃ l, sent (step σ e) = sent σ ++ l ∧ length l ≤ 1
         ∧ (ws_open σ = false → l = []).
Proof.
  assert (Hnone : ∃ l : list JSON, sent σ = sent σ ++ l ∧ length l ≤ 1
                         ∧ (ws_open σ = false → l = [])).
  { exists []. rewrite app_nil_r. split_and!; [done|cbn; lia|done]. }
  assert (Hsend : ∀ msg σ0, ws_open σ0 = ws_open σ → sent σ0 = sent σ →
            ∃ l, sent (sendMessage msg σ0) = sent σ ++ l ∧ length l ≤ 1
                 ∧ (ws_open σ = false → l = [])).
  { intros msg σ0 Ho Hs. destruct (sendMessage_socket msg σ0) as [_ ->].
    rewrite Ho, Hs. eexists. split; [done|].
    destruct (ws_open σ); cbn; split; (lia || done). }
  destruct e as [|data| |t|call o|c s|c|c cand|audio|audio]; cbn [step].
  - done.
  - destruct (handleMessage_socket data σ) as [-> ->]. done.
  - destruct (stopAllStreams_socket (with_ws_open (λ _, false) σ)) as [Ho Hs].
    rewrite Hs. done.
  - destruct (JSMap.get t (timers σ)) as [[d task]|]; [|done].
    destruct (run_task_socket task (with_timers (JSMap.delete t) σ)) as [-> ->].
    done.
  - destruct (JSMap.get call (awaits σ)) as [a|]; [|done].
    destruct (resume_socket a o (with_awaits (JSMap.delete call) σ)) as [-> Hl].
    done.
  - destruct (conns σ !! c) as [pc|]; [|done]. case_decide; [done|].
    case_decide; [|done].
    match goal with
    | |- context [handleConnectionFailure ?r ?n ?s] =>
        destruct (handleConnectionFailure_socket r n s) as [-> ->]
    end.
    done.
  - by destruct (conns σ !! c).
  - destruct (conns σ !! c) as [pc|]; [|done]. destruct cand as [cand|]; [|done].
    destruct (Js.truthy _); [|done].
    split; [intros _ ?; by rewrite (proj1 (sendMessage_socket _ _))|].
    by apply Hsend.
  - split; [intros _ ?; by rewrite (proj1 (sendMessage_socket _ _))|].
    by apply Hsend.
  - split; [intros _ ?; by rewrite (proj1 (sendMessage_socket _ _))|].
    by apply Hsend.
Qed.

(** X21.  While the socket is not open nothing is sent: over any events
    without [onopen], from a state in which the socket is closed, the
    messages sent stay the same and the socket stays closed. *)
Theorem closed_socket_sends_nothing es : ∀ σ,
  ws_open σ = false →
  ws_onopen ∉ es →
  sent (run σ es) = sent σ ∧ ws_open (run σ es) = false.
Proof.
  unfold run. induction es as [|e es IH]; intros σ Hclosed Hno; [done|].
  cbn [foldl]. apply not_elem_of_cons in Hno as [Hne Hno].
  destruct (step_socket σ e) as (Ho & l & Hs & _ & Hl).
  destruct (IH (step σ e)) as [-> ->]; [by apply Ho | done |].
  rewrite Hs, (Hl Hclosed). by rewrite app_nil_r.
Qed.

(** *** Pending promises *)

Lemma delete_snoc_fresh {V} (m : list (nat * V)) n v :
  n ∉ JSMap.keys m → JSMap.delete n (m ++ [(n, v)]) = m.
Proof.
  induction m as [|[k x] m IH]; cbn.
  - intros _. by rewrite decide_True.
  - intros [Hne Hnin]%not_elem_of_cons. rewrite decide_False by done.
    by rewrite IH.
Qed.

Lemma get_snoc_fresh {V} (m : list (nat * V)) n v :
  n ∉ JSMap.keys m → JSMap.get n (m ++ [(n, v)]) = Some v.
Proof.
  intros Hn. rewrite JSMapFacts.get_snoc.
  apply JSMapFacts.get_None_keys in Hn. rewrite Hn. by rewrite decide_True.
Qed.

Lemma awaits_fresh σ k :
  (∀ c, c ∈ JSMap.keys (awaits σ) → c < next_call σ) →
  next_call σ + k ∉ JSMap.keys (awaits σ).
Proof. intros Hfresh Hin. apply Hfresh in Hin. lia. Qed.

(** One suspended call: it is picked up by [settles] and leaves no trace
    in the table. *)
Lemma settles_fresh σ a o :
  (∀ c, c ∈ JSMap.keys (awaits σ) → c < next_call σ) →
  step (await a σ) (settles (next_call σ) o) = resume a o (with_next_call S σ).
Proof.
  intros Hfresh. pose proof (awaits_fresh σ 0 Hfresh) as Hn.
  rewrite Nat.add_0_r in Hn.
  cbn [step]. unfold await. client_cbn.
  rewrite get_snoc_fresh by done. f_equal.
  unfold with_awaits, with_next_call. cbn.
  by rewrite delete_snoc_fresh.
Qed.

Lemma with_next_call_fresh σ :
  (∀ c, c ∈ JSMap.keys (awaits σ) → c < next_call σ) →
  ∀ c, c ∈ JSMap.keys (awaits (with_next_call S σ)) →
       c < next_call (with_next_call S σ).
Proof. intros Hfresh c Hin. apply Hfresh in Hin. cbn. lia. Qed.

(** X22.  An offer from a peer that has a Link is answered: when
    [setRemoteDescription], [createAnswer] and [setLocalDescription]
    resolve, one [webrtc_answer] for the sender with the created answer is
    sent if the socket is open, and nothing else changes.  When one of the
    three rejects, nothing is sent and nothing is scheduled: only the
    counter of the calls has moved. *)
Theorem offer_from_linked_peer_is_answered σ sender name offer p v1 answer v3 :
  peersRef σ !! Some sender = Some p →
  (∀ c, c ∈ JSMap.keys (awaits σ) → c < next_call σ) →
  let n := next_call σ in
  let arrives := ws_onmessage (m_webrtc_offer sender name offer) in
  let σ' := run σ [ arrives; settles n (resolved v1);
                    settles (S n) (resolved answer); settles (S (S n)) (resolved v3) ] in
  sent σ' = sent σ ++ (if ws_open σ then [answer_msg sender answer] else [])
  ∧ awaits σ' = awaits σ
  ∧ timers σ' = timers σ
  ∧ peersRef σ' = peersRef σ
  ∧ (∀ b, run σ [arrives; settles n (rejected b)]
          = with_next_call S σ)
  ∧ (∀ b, run σ [arrives; settles n (resolved v1); settles (S n) (rejected b)]
          = with_next_call (λ _, S (S n)) σ)
  ∧ (∀ b, run σ [arrives; settles n (resolved v1); settles (S n) (resolved answer);
                 settles (S (S n)) (rejected b)]
          = with_next_call (λ _, S (S (S n))) σ)
  ∧ Wire.fields ["type"; "targetUserId"; "answer"] (answer_msg sender answer)
    = [Some (JStr "webrtc_answer"); Some (JStr sender); Some answer].
Proof.
  intros Hp Hfresh. cbn zeta.
  pose proof (with_next_call_fresh σ Hfresh) as Hfresh1.
  pose proof (with_next_call_fresh _ Hfresh1) as Hfresh2.
  assert (H0 : step σ (ws_onmessage (m_webrtc_offer sender name offer))
               = await (aw_setRemoteOffer p sender) σ).
  { cbn [step handleMessage]. unfold handleWebRTCOffer. by rewrite Hp. }
  assert (H1 : ∀ o, step (await (aw_setRemoteOffer p sender) σ) (settles (next_call σ) o)
                    = resume (aw_setRemoteOffer p sender) o (with_next_call S σ)).
  { intros o. by apply settles_fresh. }
  assert (H2 : ∀ o, step (await (aw_createAnswer p sender) (with_next_call S σ))
                      (settles (S (next_call σ)) o)
                    = resume (aw_createAnswer p sender) o
                        (with_next_call S (with_next_call S σ))).
  { intros o. by apply (settles_fresh (with_next_call S σ)). }
  assert (H3 : ∀ o, step (await (aw_setLocalAnswer p sender answer)
                            (with_next_call S (with_next_call S σ)))
                      (settles (S (S (next_call σ))) o)
                    = resume (aw_setLocalAnswer p sender answer) o
                        (with_next_call S (with_next_call S (with_next_call S σ)))).
  { intros o. by apply (settles_fresh (with_next_call S (with_next_call S σ))). }
  unfold run. cbn [foldl]. rewrite H0, !H1. cbn [resume]. rewrite !H2. cbn [resume].
  rewrite !H3. cbn [resume].
  split_and!; try done.
  - destruct (sendMessage_socket (answer_msg sender answer)
                (with_next_call S (with_next_call S (with_next_call S σ))))
      as [_ ->]. done.
  - unfold sendMessage. by destruct (ws_open _).
  - unfold sendMessage. by destruct (ws_open _).
  - unfold sendMessage. by destruct (ws_open _).
Qed.

Lemma settles_absent σ call o :
  (∀ c, c ∈ JSMap.keys (awaits σ) → c < next_call σ) →
  next_call σ ≤ call →
  step σ (settles call o) = σ.
Proof.
  intros Hfresh Hle. cbn [step].
  assert (Hn : JSMap.get call (awaits σ) = None).
  { apply JSMapFacts.get_None_keys. intros Hin. apply Hfresh in Hin. lia. }
  by rewrite Hn.
Qed.

(** X23.  An offer from a peer that has no Link is not answered: the
    handler creates the Link and suspends on nothing.  If a local stream
    and the local id exist it starts a call of its own, so that the
    resolutions that would have produced an answer produce a
    [webrtc_offer] to the sender instead; otherwise nothing is sent. *)
Theorem offer_from_unlinked_peer_is_not_answered σ sender name offer v1 v2 v3 :
  peersRef σ !! Some sender = None →
  (∀ c, c ∈ JSMap.keys (awaits σ) → c < next_call σ) →
  let n := next_call σ in
  let calls := localStreamRef σ && negb (bool_decide (userIdRef σ = "")) in
  let σ1 := step σ (ws_onmessage (m_webrtc_offer sender name offer)) in
  let σ' := run σ1 [ settles n (resolved v1); settles (S n) (resolved v2);
                     settles (S (S n)) (resolved v3) ] in
  linked sender σ1 = true
  ∧ sent σ1 = sent σ
  ∧ awaits σ1 = awaits σ
      ++ (if calls
          then [(n, aw_createOffer
                      {| connection := next_conn σ; userId := Some sender;
                         username := Some name; audioElement := false |}
                      (next_timer σ))]
          else [])
  ∧ sent σ' = sent σ
      ++ (if calls && ws_open σ then [offer_msg (Some sender) v1] else [])
  ∧ Wire.fields ["type"; "targetUserId"; "offer"] (offer_msg (Some sender) v1)
    = [Some (JStr "webrtc_offer"); Some (JStr sender); Some v1].
Proof.
  intros Hp Hfresh. cbn zeta.
  assert (H0 : step σ (ws_onmessage (m_webrtc_offer sender name offer))
               = (createPeerConnection (Some sender) (Some name) σ).2).
  { cbn [step handleMessage]. unfold handleWebRTCOffer. by rewrite Hp. }
  rewrite H0. clear H0.
  split_and!; [| | | |reflexivity].
  - apply linked_true. rewrite createPeerConnection_eq. client_cbn.
    rewrite lookup_insert_eq. by eexists.
  - by rewrite createPeerConnection_eq.
  - by rewrite createPeerConnection_eq.
  - unfold createPeerConnection. client_cbn.
    destruct (localStreamRef σ && negb (bool_decide (userIdRef σ = ""))) eqn:Hcalls;
      cbn [andb].
    + unfold initiateCall. client_cbn.
      set (peer := {| connection := next_conn σ; userId := Some sender;
                      username := Some name; audioElement := false |}).
      match goal with
      | |- context [await (aw_createOffer peer (next_timer σ)) ?s] => set (σ2 := s)
      end.
      assert (Hfresh2 : ∀ c, c ∈ JSMap.keys (awaits σ2) → c < next_call σ2)
        by exact Hfresh.
      unfold run. cbn [foldl].
      change (next_call σ) with (next_call σ2).
      rewrite (settles_fresh σ2 _ _ Hfresh2). cbn [resume].
      pose proof (with_next_call_fresh σ2 Hfresh2) as Hfresh3.
      change (S (next_call σ2)) with (next_call (with_next_call S σ2)).
      rewrite (settles_fresh _ _ _ Hfresh3). cbn [resume].
      assert (Ho : ws_open (with_next_call S (with_next_call S σ2)) = ws_open σ)
        by done.
      destruct (sendMessage_socket (offer_msg (userId peer) v1)
                  (with_next_call S (with_next_call S σ2))) as [_ Hs].
      rewrite Ho in Hs.
      rewrite settles_absent.
      * unfold clearTimeout. cbn [sent with_timers]. by rewrite Hs.
      * intros c. unfold clearTimeout, sendMessage. rewrite Ho.
        destruct (ws_open σ); cbn; intros Hin; apply Hfresh in Hin; lia.
      * unfold clearTimeout, sendMessage. rewrite Ho.
        destruct (ws_open σ); cbn; lia.
    + unfold run. cbn [foldl].
      set (σ2 := with_peersRef _ _).
      assert (Hfresh2 : ∀ c, c ∈ JSMap.keys (awaits σ2) → c < next_call σ2)
        by exact Hfresh.
      rewrite (settles_absent σ2) by (done || (cbn; lia)).
      rewrite (settles_absent σ2) by (done || (cbn; lia)).
      rewrite (settles_absent σ2) by (done || (cbn; lia)).
      by rewrite app_nil_r.
Qed.

(** X24.  A call whose [createOffer] and [setLocalDescription] resolve
    sends its offer if the socket is open and clears its 10 s timeout in
    either case: the timer is gone, its running does nothing, no
    reconnection is scheduled and the Links stay. *)
Theorem completed_call_cancels_timeout σ call p t offer v :
  JSMap.get call (awaits σ) = Some (aw_createOffer p t) →
  (∀ c, c ∈ JSMap.keys (awaits σ) → c < next_call σ) →
  NoDup (JSMap.keys (timers σ)) →
  let σ' := run σ [settles call (resolved offer); settles (next_call σ) (resolved v)] in
  sent σ' = sent σ ++ (if ws_open σ then [offer_msg (userId p) offer] else [])
  ∧ timers σ' = JSMap.delete t (timers σ)
  ∧ step σ' (timer_fires t) = σ'
  ∧ timer_log σ' = timer_log σ
  ∧ peersRef σ' = peersRef σ
  ∧ conns σ' = conns σ
  ∧ Wire.fields ["type"; "targetUserId"; "offer"] (offer_msg (userId p) offer)
    = [Some (JStr "webrtc_offer"); JStr <$> userId p; Some offer].
Proof.
  intros Hcall Hfresh Hnd. cbn zeta. unfold run. cbn [foldl].
  set (σa := with_awaits (JSMap.delete call) σ).
  assert (H1 : step σ (settles call (resolved offer))
               = await (aw_setLocalOffer p t offer) σa).
  { cbn [step]. by rewrite Hcall. }
  assert (Hfresha : ∀ c, c ∈ JSMap.keys (awaits σa) → c < next_call σa).
  { intros c Hin. apply JSMapFacts.keys_delete_subseteq in Hin. by apply Hfresh. }
  rewrite H1. change (next_call σ) with (next_call σa).
  rewrite (settles_fresh σa _ _ Hfresha). cbn [resume].
  set (σb := with_next_call S σa).
  destruct (sendMessage_socket (offer_msg (userId p) offer) σb) as [_ Hs].
  assert (Ht : timers (clearTimeout t (sendMessage (offer_msg (userId p) offer) σb))
               = JSMap.delete t (timers σ)).
  { unfold clearTimeout, sendMessage. by destruct (ws_open σb). }
  split_and!.
  - unfold clearTimeout. cbn [sent with_timers]. by rewrite Hs.
  - exact Ht.
  - cbn [step]. rewrite Ht. by rewrite JSMapFacts.get_delete_eq.
  - unfold clearTimeout, sendMessage. by destruct (ws_open σb).
  - unfold clearTimeout, sendMessage. by destruct (ws_open σb).
  - unfold clearTimeout, sendMessage. by destruct (ws_open σb).
  - by destruct (userId p).
Qed.

(** *** Reconnection *)

Lemma get_app_Some {V} (m l : list (nat * V)) k v :
  JSMap.get k m = Some v → JSMap.get k (m ++ l) = Some v.
Proof.
  induction m as [|[k' x] m IH]; cbn; [done|]. case_decide; [done|]. apply IH.
Qed.

Lemma keys_app {V} (m l : list (nat * V)) :
  JSMap.keys (m ++ l) = JSMap.keys m ++ JSMap.keys l.
Proof. unfold JSMap.keys. apply map_app. Qed.

(** A reconnection that runs: the Link it makes, the call on the object
    [createPeerConnection] returned, and the reconnection to the undefined
    id that the failed call schedules. *)
Lemma reconnect_runs σ t d remote name :
  JSMap.get t (timers σ) = Some (d, t_reconnect remote name) →
  let calls := localStreamRef σ && negb (bool_decide (userIdRef σ = "")) in
  let peer := {| connection := next_conn σ; userId := remote;
                 username := name; audioElement := false |} in
  let peers1 := <[remote := peer]> (peersRef σ) in
  let conns1 :=
    <[next_conn σ := {| connectionState := cs_new; pc_userId := remote;
                        pc_username := name |}]> (conns σ) in
  let t1 := if calls then S (next_timer σ) else next_timer σ in
  step σ (timer_fires t) =
    mkClient (userIdRef σ) (delete None peers1) (localStreamRef σ) (ws_open σ)
      (match peers1 !! None with
       | Some oldPeer =>
           alter (λ pc, {| connectionState := cs_closed; pc_userId := pc_userId pc;
                           pc_username := pc_username pc |})
             (connection oldPeer) conns1
       | None => conns1
       end)
      (S (next_conn σ))
      (((JSMap.delete t (timers σ)
         ++ (if calls
             then [(next_timer σ, (10000%Z, t_connectionTimeout (a_peer peer)))]
             else []))
        ++ [(t1, (10000%Z, t_connectionTimeout (a_connection (next_conn σ))))])
       ++ [(S t1, (1000%Z, t_reconnect None None))])
      (S (S t1))
      (((timer_log σ
         ++ (if calls then [(10000%Z, t_connectionTimeout (a_peer peer))] else []))
        ++ [(10000%Z, t_connectionTimeout (a_connection (next_conn σ)))])
       ++ [(1000%Z, t_reconnect None None)])
      (awaits σ
       ++ if calls then [(next_call σ, aw_createOffer peer (next_timer σ))] else [])
      (if calls then S (next_call σ) else next_call σ)
      (sent σ) (uncaught σ).
Proof.
  intros Hget. cbn zeta. cbn [step]. rewrite Hget. unfold run_task.
  rewrite createPeerConnection_eq. client_cbn.
  unfold initiateCall. client_cbn.
  rewrite handleConnectionFailure_eq. client_cbn.
  reflexivity.
Qed.

Lemma reconnect_round σ t d remote name :
  timers_fresh σ →
  JSMap.get t (timers σ) = Some (d, t_reconnect remote name) →
  let σ' := step σ (timer_fires t) in
  JSMap.get (last_timer σ') (timers σ') = Some (1000%Z, t_reconnect None None)
  ∧ timers_fresh σ'
  ∧ next_conn σ' = S (next_conn σ)
  ∧ peersRef σ' !! None = None
  ∧ sent σ' = sent σ.
Proof.
  intros Hfresh Hget. cbn zeta. rewrite (reconnect_runs σ t d remote name Hget).
  set (calls := localStreamRef σ && negb (bool_decide (userIdRef σ = ""))).
  set (t1 := if calls then S (next_timer σ) else next_timer σ).
  assert (Ht1 : next_timer σ ≤ t1) by (unfold t1; destruct calls; lia).
  assert (Hkeys : ∀ k,
    k ∈ JSMap.keys
          ((JSMap.delete t (timers σ)
            ++ (if calls
                then [(next_timer σ,
                       (10000%Z, t_connectionTimeout (a_peer
                          {| connection := next_conn σ; userId := remote;
                             username := name; audioElement := false |})))]
                else []))
           ++ [(t1, (10000%Z, t_connectionTimeout (a_connection (next_conn σ))))])
    → k < S t1).
  { intros k. rewrite !keys_app, !elem_of_app. intros [[Hin|Hin]|Hin].
    - apply JSMapFacts.keys_delete_subseteq, Hfresh in Hin. lia.
    - unfold t1. destruct calls; [|by apply elem_of_nil in Hin].
      apply list_elem_of_singleton in Hin. cbn in Hin. lia.
    - apply list_elem_of_singleton in Hin. cbn in Hin. lia. }
  split_and!.
  - unfold last_timer. client_cbn. apply get_snoc_fresh.
    intros Hin. apply Hkeys in Hin. lia.
  - intros k. client_cbn. rewrite keys_app, elem_of_app. intros [Hin|Hin].
    + apply Hkeys in Hin. lia.
    + apply list_elem_of_singleton in Hin. cbn in Hin. lia.
  - done.
  - client_cbn. apply lookup_delete_eq.
  - done.
Qed.

(** X26.  Once a reconnection has run, reconnections to the undefined id
    recur without end: each run leaves a pending 1000 ms reconnection for
    [undefined] as the timer set last, and running that timer creates one
    more [RTCPeerConnection], sends nothing, keeps no Link under
    [undefined] and leaves the same kind of timer pending again. *)
Theorem undefined_reconnection_recurs σ t d remote name n :
  timers_fresh σ →
  JSMap.get t (timers σ) = Some (d, t_reconnect remote name) →
  let σn := Nat.iter n refire (step σ (timer_fires t)) in
  JSMap.get (last_timer σn) (timers σn) = Some (1000%Z, t_reconnect None None)
  ∧ next_conn σn = S n + next_conn σ
  ∧ peersRef σn !! None = None
  ∧ sent σn = sent σ.
Proof.
  intros Hfresh Hget. cbn zeta.
  assert (H : JSMap.get (last_timer (Nat.iter n refire (step σ (timer_fires t))))
                (timers (Nat.iter n refire (step σ (timer_fires t))))
              = Some (1000%Z, t_reconnect None None)
              ∧ timers_fresh (Nat.iter n refire (step σ (timer_fires t)))
              ∧ next_conn (Nat.iter n refire (step σ (timer_fires t)))
                = S n + next_conn σ
              ∧ peersRef (Nat.iter n refire (step σ (timer_fires t))) !! None = None
              ∧ sent (Nat.iter n refire (step σ (timer_fires t))) = sent σ).
  { induction n as [|n (IHget & IHfresh & IHconn & IHnone & IHsent)].
    - cbn [Nat.iter]. by apply (reconnect_round σ t d remote name).
    - rewrite Nat.iter_succ.
      set (σk := Nat.iter n refire (step σ (timer_fires t))) in *.
      destruct (reconnect_round _ _ _ _ _ IHfresh IHget) as (? & ? & Hc & ? & Hs).
      cbn zeta in *. fold (refire σk) in *.
      split_and!; try done; [rewrite Hc, IHconn; lia | by rewrite Hs]. }
  by destruct H as (? & _ & ? & ? & ?).
Qed.

(** X25.  A call whose [createOffer] rejects is retried twice.  The [catch]
    schedules one reconnection and leaves the 10 s timeout of the call
    pending; when that timeout runs after the reconnection, it schedules a
    second reconnection and closes and drops the Link that the first had
    made. *)
Theorem failed_offer_is_retried_twice σ call p t remote pc b :
  timers_fresh σ →
  JSMap.get call (awaits σ) = Some (aw_createOffer p t) →
  JSMap.get t (timers σ) = Some (10000%Z, t_connectionTimeout (a_peer p)) →
  userId p = Some remote →
  peersRef σ !! Some remote = Some p →
  peersRef σ !! None = None →
  conns σ !! connection p = Some pc →
  connection p < next_conn σ →
  let σ' := run σ [ settles call (rejected b); timer_fires (next_timer σ);
                    timer_fires t ] in
  reconnections remote σ' = 2 + reconnections remote σ
  ∧ linked remote σ' = false
  ∧ conns σ' !! next_conn σ =
      Some {| connectionState := cs_closed; pc_userId := Some remote;
              pc_username := username p |}
  ∧ conns σ' !! connection p =
      Some {| connectionState := cs_closed; pc_userId := pc_userId pc;
              pc_username := pc_username pc |}.
Proof.
  intros Hfresh Hcall Ht Hid Hp Hnone Hpc Hlt. cbn zeta.
  pose proof (timer_fresh _ Hfresh) as Hn.
  assert (Hnk : next_timer σ ∉ JSMap.keys (timers σ))
    by by apply JSMapFacts.get_None_keys.
  unfold run. cbn [foldl].
  (* the catch of [initiateCall] *)
  assert (H1 : step σ (settles call (rejected b))
               = handleConnectionFailure (Some remote) (username p)
                   (with_awaits (JSMap.delete call) σ)).
  { cbn [step]. rewrite Hcall. cbn [resume]. by rewrite Hid. }
  rewrite H1. clear H1. rewrite handleConnectionFailure_eq. client_cbn. rewrite Hp.
  set (σ1 := mkClient _ _ _ _ _ _ _ _ _ _ _ _ _).
  (* the reconnection *)
  assert (Hget1 : JSMap.get (next_timer σ) (timers σ1)
                  = Some (1000%Z, t_reconnect (Some remote) (username p))).
  { unfold σ1. client_cbn. by apply get_snoc_fresh. }
  rewrite (reconnect_runs σ1 _ _ _ _ Hget1). clear Hget1.
  subst σ1. client_cbn.
  rewrite delete_snoc_fresh by done.
  rewrite lookup_insert_ne by done. rewrite lookup_delete_ne by done. rewrite Hnone.
  set (calls := localStreamRef σ && negb (bool_decide (userIdRef σ = ""))).
  set (peer' := {| connection := next_conn σ; userId := Some remote;
                   username := username p; audioElement := false |}).
  set (σ2 := mkClient _ _ _ _ _ _ _ _ _ _ _ _ _).
  (* the timeout of the failed call *)
  assert (Hget2 : JSMap.get t (timers σ2)
                  = Some (10000%Z, t_connectionTimeout (a_peer p))).
  { unfold σ2. client_cbn. by do 3 apply get_app_Some. }
  assert (Hpc2 : conns σ2 !! connection p
                 = Some {| connectionState := cs_closed; pc_userId := pc_userId pc;
                           pc_username := pc_username pc |}).
  { unfold σ2. client_cbn. rewrite lookup_insert_ne by lia.
    rewrite lookup_alter_eq. by rewrite Hpc. }
  assert (Hp2 : peersRef σ2 !! Some remote = Some peer').
  { unfold σ2. client_cbn. rewrite lookup_delete_ne by done.
    apply lookup_insert_eq. }
  cbn [step]. rewrite Hget2. unfold run_task. client_cbn. rewrite Hpc2.
  rewrite decide_False by done. rewrite Hid.
  rewrite handleConnectionFailure_eq. client_cbn. rewrite Hp2.
  clear Hget2 Hpc2 Hp2. subst σ2 peer'. client_cbn. cbn [connection].
  split_and!.
  - unfold reconnections. client_cbn.
    rewrite <- !app_assoc. rewrite !List.filter_app, !length_app.
    cbn [List.filter is_reconnection].
    rewrite !bool_decide_eq_true_2 by done.
    clearbody calls. destruct calls; cbn; lia.
  - apply linked_false. client_cbn. apply lookup_delete_eq.
  - client_cbn. rewrite lookup_alter_eq. by rewrite lookup_insert_eq.
  - client_cbn. rewrite lookup_alter_ne by lia. rewrite lookup_insert_ne by lia.
    rewrite lookup_alter_eq. by rewrite Hpc.
Qed.

(** *** Sample states *)

Lemma alice_calling_fresh : timers_fresh alice_calling.
Proof.
  intros t Hin. vm_compute in Hin.
  apply list_elem_of_singleton in Hin as ->. vm_compute. lia.
Qed.

Lemma alice_calling_awaits c :
  c ∈ JSMap.keys (awaits alice_calling) → c < next_call alice_calling.
Proof.
  intros Hin. vm_compute in Hin.
  apply list_elem_of_singleton in Hin as ->. vm_compute. lia.
Qed.

Lemma alice_retrying_fresh : timers_fresh alice_retrying.
Proof.
  intros t Hin. vm_compute in Hin.
  repeat (apply elem_of_cons in Hin as [->|Hin]; [vm_compute; lia|]).
  by apply elem_of_nil in Hin.
Qed.

Lemma alice_run_awaits c :
  c ∈ JSMap.keys (awaits (run initial alice_run)) →
  c < next_call (run initial alice_run).
Proof. intros Hin. vm_compute in Hin. by apply elem_of_nil in Hin. Qed.

Lemma alice_ready_awaits c :
  c ∈ JSMap.keys (awaits alice_ready) → c < next_call alice_ready.
Proof. intros Hin. vm_compute in Hin. by apply elem_of_nil in Hin. Qed.

Lemma membership_before_accept_never_calls_witness :
  let σ1 := createPeerConnections [alice] (run initial [ws_onopen]) in
  let σ2 := handleMessage (m_username_accepted "bob" "k8l2q0xw1") σ1 in
  timers σ1 = timers (run initial [ws_onopen])
  ∧ linked "4fzyo82mv" σ1 = true
  ∧ createPeerConnections [alice; bob] σ2 = σ2.
Proof.
  destruct (membership_before_accept_never_calls [alice] [alice; bob] "bob" "k8l2q0xw1"
              (run initial [ws_onopen]))
    as (Ht & _ & _ & Hl & Hskip).
  - reflexivity.
  - intros u Hin.
    apply elem_of_cons in Hin as [->|Hin];
      [right; split; [apply list_elem_of_singleton; reflexivity | discriminate]|].
    apply list_elem_of_singleton in Hin as ->. left. reflexivity.
  - split_and!; [exact Ht | | exact Hskip].
    apply (Hl alice); [apply list_elem_of_singleton; reflexivity | discriminate].
Defined.

Lemma closed_socket_sends_nothing_witness :
  sent (run initial [ ws_onmessage (m_user_list [alice]); timer_fires 0;
                      stream_started true; ws_onclose ]) = sent initial
  ∧ ws_open (run initial [ ws_onmessage (m_user_list [alice]); timer_fires 0;
                           stream_started true; ws_onclose ]) = false.
Proof.
  apply (closed_socket_sends_nothing
           [ ws_onmessage (m_user_list [alice]); timer_fires 0;
             stream_started true; ws_onclose ] initial).
  - reflexivity.
  - intros Hin.
    repeat (apply elem_of_cons in Hin as [Hin|Hin]; [discriminate|]).
    by apply elem_of_nil in Hin.
Defined.

Lemma offer_from_linked_peer_is_answered_witness :
  sent (run (run initial alice_run)
          [ ws_onmessage (m_webrtc_offer "k8l2q0xw1" "bob" (JStr "v=0 b"));
            settles 2 (resolved JNull); settles 3 (resolved (JStr "v=0 a"));
            settles 4 (resolved JNull) ])
  = sent (run initial alice_run) ++ [answer_msg "k8l2q0xw1" (JStr "v=0 a")].
Proof.
  destruct (offer_from_linked_peer_is_answered (run initial alice_run)
              "k8l2q0xw1" "bob" (JStr "v=0 b")
              {| connection := 0; userId := Some "k8l2q0xw1";
                 username := Some "bob"; audioElement := false |}
              JNull (JStr "v=0 a") JNull)
    as (Hsent & _).
  - vm_compute. reflexivity.
  - apply alice_run_awaits.
  - exact Hsent.
Defined.

Lemma offer_from_unlinked_peer_is_not_answered_witness :
  let σ1 := step alice_ready
              (ws_onmessage (m_webrtc_offer "k8l2q0xw1" "bob" (JStr "v=0 b"))) in
  linked "k8l2q0xw1" σ1 = true
  ∧ sent (run σ1 [ settles 0 (resolved JNull); settles 1 (resolved (JStr "v=0 a"));
                   settles 2 (resolved JNull) ])
    = sent alice_ready.
Proof.
  destruct (offer_from_unlinked_peer_is_not_answered alice_ready
              "k8l2q0xw1" "bob" (JStr "v=0 b") JNull (JStr "v=0 a") JNull)
    as (Hl & _ & _ & Hsent & _).
  - vm_compute. reflexivity.
  - apply alice_ready_awaits.
  - split; [exact Hl|]. rewrite app_nil_r in Hsent. exact Hsent.
Defined.

Lemma completed_call_cancels_timeout_witness :
  let σ' := run alice_calling
              [settles 0 (resolved (JStr "v=0 a")); settles 1 (resolved JNull)] in
  timers σ' = JSMap.delete 4 (timers alice_calling)
  ∧ step σ' (timer_fires 4) = σ'.
Proof.
  destruct (completed_call_cancels_timeout alice_calling 0
              {| connection := 0; userId := Some "k8l2q0xw1";
                 username := Some "bob"; audioElement := false |}
              4 (JStr "v=0 a") JNull)
    as (_ & Ht & Hfire & _).
  - vm_compute. reflexivity.
  - apply alice_calling_awaits.
  - vm_compute. apply NoDup_singleton.
  - split; [exact Ht | exact Hfire].
Defined.

Lemma failed_offer_is_retried_twice_witness :
  let σ' := run alice_calling
              [settles 0 (rejected false); timer_fires 5; timer_fires 4] in
  reconnections "k8l2q0xw1" σ' = 2 + reconnections "k8l2q0xw1" alice_calling
  ∧ linked "k8l2q0xw1" σ' = false.
Proof.
  destruct (failed_offer_is_retried_twice alice_calling 0
              {| connection := 0; userId := Some "k8l2q0xw1";
                 username := Some "bob"; audioElement := false |}
              4 "k8l2q0xw1"
              {| connectionState := cs_new; pc_userId := Some "k8l2q0xw1";
                 pc_username := Some "bob" |} false)
    as (Hcount & Hl & _).
  - apply alice_calling_fresh.
  - vm_compute. reflexivity.
  - vm_compute. reflexivity.
  - reflexivity.
  - vm_compute. reflexivity.
  - vm_compute. reflexivity.
  - vm_compute. reflexivity.
  - vm_compute. lia.
  - split; [exact Hcount | exact Hl].
Defined.

Lemma undefined_reconnection_recurs_witness :
  let σn := Nat.iter 3 refire (step alice_retrying (timer_fires 5)) in
  JSMap.get (last_timer σn) (timers σn) = Some (1000%Z, t_reconnect None None)
  ∧ next_conn σn = 4 + next_conn alice_retrying.
Proof.
  destruct (undefined_reconnection_recurs alice_retrying 5 1000%Z
              (Some "k8l2q0xw1") (Some "bob") 3)
    as (Hget & Hconn & _).
  - apply alice_retrying_fresh.
  - vm_compute. reflexivity.
  - split; [exact Hget | exact Hconn].
Defined.

End ClientProps.

(** ** The page and the media elements, against the hub *)

Module AppProps.
Import Hub HubSpec HubProps.

(** *** The forms against the hub *)

Lemma truthy_trim s :
  Js.truthy (Some (JStr (Js.trim s))) = true ↔ Js.trim s ≠ "".
Proof.
  cbn. rewrite negb_true_iff, bool_decide_eq_false. done.
Qed.

(** X27.  The name form and the hub agree.  For a name that is not blank
    the page leaves the form and sends [set_username] with the trimmed
    name if the socket is open; the hub accepts that request, registers
    exactly that name for the channel, replies first with a message that
    reads [type] ["username_accepted"], the trimmed name and the new id,
    and sends nothing that reads as an error. *)
Theorem name_form_request_is_accepted ui σc σh ws now rnd :
  wf σh →
  ws ∈ listening σh →
  Js.trim (App.username ui) ≠ "" →
  let name := Js.trim (App.username ui) in
  let request := App.set_username_request name in
  let after := App.handleSetUsername ui σc in
  App.isUsernameSet after.1 = true
  ∧ Client.sent after.2
    = Client.sent σc ++ (if Client.ws_open σc then [request] else [])
  ∧ ∃ σh',
      step σh (Message ws false (Some request) now rnd) = Some σh'
      ∧ clients σh' !! ws = Some {| ci_username := name; ci_userId := rnd |}
      ∧ JSMap.get rnd (connectedUsers σh')
        = Some {| cu_userId := rnd; cu_username := name; cu_ws := ws |}
      ∧ sent_by σh σh' !! 0 = Some (ws, username_accepted_msg name rnd)
      ∧ (∀ c message, (c, error_msg message) ∉ sent_by σh σh')
      ∧ (∀ reply, sent_by σh σh' !! 0 = Some (ws, reply) →
           Wire.fields ["type"; "username"; "userId"] reply
           = [Some (JStr "username_accepted"); Some (JStr name); Some (JStr rnd)])
      ∧ (∀ c m message, (c, m) ∈ sent_by σh σh' →
           Wire.fields ["type"; "message"] m ≠ [Some (JStr "error"); Some (JStr message)])
      ∧ Wire.fields ["type"; "username"] request
        = [Some (JStr "set_username"); Some (JStr name)].
Proof.
  intros Hwf Hl Hname. cbn zeta.
  unfold App.handleSetUsername.
  rewrite (proj2 (truthy_trim _) Hname). cbn [fst snd App.isUsernameSet].
  split; [done|]. split.
  { unfold Client.sendMessage. destruct (Client.ws_open σc); [done|].
    by rewrite app_nil_r. }
  set (name := Js.trim (App.username ui)) in *.
  exists (set_username ws (App.set_username_request name) now rnd σh).
  rewrite step_Message_listening by done.
  split; [by apply on_message_set_username|].
  assert (Htrim : Js.trim name = name) by apply trim_idemp.
  destruct (set_username_accepted σh ws (App.set_username_request name) now rnd name)
    as (Hu & Hc & Hout).
  - done.
  - rewrite Htrim. by apply length_pos_nonempty.
  - by apply listening_open.
  - rewrite Htrim in Hu, Hc, Hout. split_and!.
    + rewrite Hc. apply lookup_insert_eq.
    + rewrite Hu, JSMapFacts.get_set. by rewrite decide_True.
    + by rewrite (sent_by_app _ _ _ Hout).
    + intros c message. rewrite (sent_by_app _ _ _ Hout). intros Hin.
      unfold error_msg, username_accepted_msg, system_msg, user_list_msg,
        audio_states_msg, video_states_msg in Hin.
      apply elem_of_cons in Hin as [Heq|Hin]; [discriminate Heq|].
      repeat (apply elem_of_app in Hin as [Hin|Hin]);
        apply list_elem_of_fmap in Hin as (? & Heq & _); discriminate Heq.
    + intros reply Hr. rewrite (sent_by_app _ _ _ Hout) in Hr.
      cbn [app lookup list_lookup] in Hr. injection Hr as <-.
      apply username_accepted_msg_wire.
    + intros c m message. rewrite (sent_by_app _ _ _ Hout). intros Hin Heq.
      apply elem_of_cons in Hin as [[= _ ->]|Hin]; [discriminate Heq|].
      repeat (apply elem_of_app in Hin as [Hin|Hin]);
        apply elem_of_broadcast in Hin as ->; discriminate Heq.
    + reflexivity.
Qed.

(** X28.  The chat form and the hub agree.  For a text that is not blank
    the page clears the field and sends [chat] with the trimmed text if the
    socket is open; the hub broadcasts exactly that text, never the empty
    fallback, to every open socket, the sender included: every message
    sent reads [type] ["chat"], the sender's name, that text and the
    time. *)
Theorem chat_form_text_is_broadcast ui σc σh ws now rnd :
  wf σh →
  ws ∈ listening σh →
  Js.trim (App.input ui) ≠ "" →
  let text := Js.trim (App.input ui) in
  let request := App.chat_request text in
  let after := App.handleSendMessage ui σc in
  App.input after.1 = ""
  ∧ Client.sent after.2
    = Client.sent σc ++ (if Client.ws_open σc then [request] else [])
  ∧ ∃ σh',
      step σh (Message ws false (Some request) now rnd) = Some σh'
      ∧ sent_by σh σh' =
          map (λ c, (c, chat_msg (ci_username (default anonymous (clients σh !! ws)))
                          (JStr text) now))
            (recipients None σh)
      ∧ ws ∈ recipients None σh
      ∧ (∀ c m, (c, m) ∈ sent_by σh σh' →
           Wire.fields ["type"; "username"; "text"; "timestamp"] m
           = [Some (JStr "chat");
              Some (JStr (ci_username (default anonymous (clients σh !! ws))));
              Some (JStr text); Some (JNum now)])
      ∧ Wire.fields ["type"; "text"] request = [Some (JStr "chat"); Some (JStr text)].
Proof.
  intros Hwf Hl Htext. cbn zeta.
  unfold App.handleSendMessage.
  rewrite (proj2 (truthy_trim _) Htext). cbn [fst snd App.input].
  split; [done|]. split.
  { unfold Client.sendMessage. destruct (Client.ws_open σc); [done|].
    by rewrite app_nil_r. }
  exists (chat ws (App.chat_request (Js.trim (App.input ui))) now σh).
  rewrite step_Message_listening by done.
  split; [by apply on_message_chat|].
  assert (Hsent : sent_by σh (chat ws (App.chat_request (Js.trim (App.input ui))) now σh)
            = map (λ c, (c, chat_msg
                              (ci_username (default anonymous (clients σh !! ws)))
                              (JStr (Js.trim (App.input ui))) now))
                (recipients None σh)).
  { apply sent_by_app. unfold chat. cbn [outbox broadcast emit].
    do 4 f_equal. unfold Js.or_else.
    change (Js.prop (App.chat_request (Js.trim (App.input ui))) "text")
      with (Some (JStr (Js.trim (App.input ui)))).
    by rewrite (proj2 (truthy_trim _) Htext). }
  split_and!.
  - exact Hsent.
  - apply elem_of_recipients; [done|]. split; [by apply listening_open|done].
  - intros c m. rewrite Hsent. intros ->%elem_of_broadcast. apply chat_msg_wire.
  - reflexivity.
Qed.

(** *** The indicators of the user board *)

Lemma hasAudioEnabled_cons k s (m : list (string * UserAudioState)) id :
  App.hasAudioEnabled (map audio_state_entry (JSMap.values ((k, s) :: m))) id
  = bool_decide (as_userId s = id) && isAudioEnabled s
    || App.hasAudioEnabled (map audio_state_entry (JSMap.values m)) id.
Proof. reflexivity. Qed.

Lemma hasAudioEnabled_absent (m : list (string * UserAudioState)) id :
  (∀ k s, (k, s) ∈ m → as_userId s = k) →
  id ∉ JSMap.keys m →
  App.hasAudioEnabled (map audio_state_entry (JSMap.values m)) id = false.
Proof.
  induction m as [|[k s] m IH]; intros Hkeyed Hid; [done|].
  apply not_elem_of_cons in Hid as [Hne Hid]. rewrite hasAudioEnabled_cons.
  rewrite (Hkeyed k s) by by left.
  rewrite bool_decide_eq_false_2 by done. cbn [andb orb].
  apply IH; [|done]. intros ? ? ?. apply Hkeyed. by right.
Qed.

Lemma hasAudioEnabled_get (m : list (string * UserAudioState)) id :
  NoDup (JSMap.keys m) →
  (∀ k s, (k, s) ∈ m → as_userId s = k) →
  App.hasAudioEnabled (map audio_state_entry (JSMap.values m)) id
  = match JSMap.get id m with
    | Some s => isAudioEnabled s
    | None => false
    end.
Proof.
  induction m as [|[k s] m IH]; intros Hnd Hkeyed; [done|].
  apply NoDup_cons in Hnd as [Hk Hnd].
  assert (Hkeyed' : ∀ k' s', (k', s') ∈ m → as_userId s' = k').
  { intros ? ? ?. apply Hkeyed. by right. }
  rewrite hasAudioEnabled_cons.
  rewrite (Hkeyed k s) by by left. cbn [JSMap.get].
  destruct (decide (id = k)) as [->|Hne].
  - rewrite bool_decide_eq_true_2 by done.
    rewrite hasAudioEnabled_absent by done. cbn. by rewrite orb_false_r.
  - rewrite bool_decide_eq_false_2 by done. cbn. by apply IH.
Qed.

(** X29.  The audio indicator follows the toggle: after a toggle by a
    channel with an identity every recipient is sent the same [states], for
    which [hasAudioEnabled] of that user's id is the flag just sent and
    [hasAudioEnabled] of every other id is what it was before. *)
Theorem audio_indicator_follows_toggle σ ws data now rnd clientInfo (enabled : bool) :
  reachable σ →
  ws ∈ listening σ →
  clients σ !! ws = Some clientInfo →
  Js.prop data "type"
    = Some (JStr (if enabled then "audio_enabled" else "audio_disabled")) →
  ∃ σ',
    step σ (Message ws false (Some data) now rnd) = Some σ'
    ∧ let shown := App.states (audio_states_msg (userAudioStates σ')) in
      let before := App.states (audio_states_msg (userAudioStates σ)) in
      (∀ c m, (c, m) ∈ sent_by σ σ' → App.states m = shown)
      ∧ App.hasAudioEnabled shown (ci_userId clientInfo) = enabled
      ∧ (∀ id, id ≠ ci_userId clientInfo →
               App.hasAudioEnabled shown id = App.hasAudioEnabled before id).
Proof.
  intros Hreach Hl Hc Hty.
  destruct (media_tables_keyed σ Hreach) as (Hnd & Hkeyed & _ & _).
  exists (audio_state ws enabled σ). split.
  { rewrite step_Message_listening by done. by apply on_message_audio. }
  destruct (audio_state_registered σ ws enabled clientInfo Hc)
    as (Hs & Hout & _).
  cbn zeta in Hs, Hout |- *. rewrite Hs.
  change (App.states (audio_states_msg ?m))
    with (map audio_state_entry (JSMap.values m)).
  assert (Hnd' : NoDup (JSMap.keys
                   (JSMap.set (ci_userId clientInfo)
                      {| as_userId := ci_userId clientInfo; isAudioEnabled := enabled |}
                      (userAudioStates σ))))
    by by apply JSMapFacts.NoDup_keys_set.
  assert (Hkeyed' : ∀ k s,
            (k, s) ∈ JSMap.set (ci_userId clientInfo)
                       {| as_userId := ci_userId clientInfo; isAudioEnabled := enabled |}
                       (userAudioStates σ) → as_userId s = k)
    by by apply (set_keyed as_userId).
  split_and!.
  - intros c m. rewrite (sent_by_app _ _ _ Hout).
    by intros (c' & [= _ ->] & _)%list_elem_of_fmap.
  - rewrite hasAudioEnabled_get by done.
    rewrite JSMapFacts.get_set. by rewrite decide_True.
  - intros id Hne. rewrite !hasAudioEnabled_get by done.
    rewrite JSMapFacts.get_set. by rewrite decide_False.
Qed.

(** *** One media element per user *)

Lemma handleRemoteStream_users detail prev u :
  u ∈ map VideoGrid.userId (VideoGrid.handleRemoteStream detail prev)
  ↔ u = detail.1 ∨ u ∈ map VideoGrid.userId prev.
Proof.
  destruct detail as [u' s]. unfold VideoGrid.handleRemoteStream.
  rewrite map_app, elem_of_app. cbn [map fst VideoGrid.userId].
  rewrite list_elem_of_singleton, !list_elem_of_fmap. split.
  - intros [(e & -> & He)| ->]; [|by left]. right.
    apply list_elem_of_In, List.filter_In in He as [He _].
    exists e. split; [done|]. by apply list_elem_of_In.
  - intros [->|(e & -> & He)]; [by right|].
    destruct (decide (VideoGrid.userId e = u')) as [<-|Hne]; [by right|left].
    exists e. split; [done|]. apply list_elem_of_In, List.filter_In.
    split; [by apply list_elem_of_In|]. by rewrite bool_decide_eq_false_2.
Qed.

Lemma handleRemoteStream_NoDup detail prev :
  NoDup (map VideoGrid.userId prev) →
  NoDup (map VideoGrid.userId (VideoGrid.handleRemoteStream detail prev)).
Proof.
  destruct detail as [u' s]. unfold VideoGrid.handleRemoteStream.
  intros Hnd. rewrite map_app. apply NoDup_app. split_and!.
  - induction prev as [|e prev IH]; [done|]. cbn in Hnd |- *.
    apply NoDup_cons in Hnd as [Hne Hnd]. destruct (negb _); [|by apply IH].
    cbn. apply NoDup_cons. split; [|by apply IH].
    intros (e' & Heq & He')%list_elem_of_fmap. apply Hne.
    apply list_elem_of_fmap. exists e'. split; [done|].
    apply list_elem_of_In, List.filter_In in He' as [He' _].
    by apply list_elem_of_In.
  - intros u (e & -> & He)%list_elem_of_fmap Hin.
    apply list_elem_of_singleton in Hin. cbn in Hin.
    apply list_elem_of_In, List.filter_In in He as [_ He].
    apply negb_true_iff, bool_decide_eq_false in He. done.
  - apply NoDup_singleton.
Qed.

(** X30.  The hidden media elements are one per user: after any
    [remoteStream] events [mediaStreams] holds each user id once and
    exactly the ids that sent a stream, an entry is marked as video exactly
    when its stream has a video track, and the entry of a user holds the
    last stream received for it. *)
Theorem one_media_element_per_user details :
  NoDup (map VideoGrid.userId (VideoGrid.mediaStreams details))
  ∧ (∀ u, u ∈ map VideoGrid.userId (VideoGrid.mediaStreams details)
          ↔ u ∈ map fst details)
  ∧ (∀ e, e ∈ VideoGrid.mediaStreams details →
          VideoGrid.isVideo e
          = bool_decide (0 < VideoGrid.videoTracks (VideoGrid.stream e)))
  ∧ (∀ earlier u s later,
       details = earlier ++ (u, s) :: later →
       u ∉ map fst later →
       {| VideoGrid.userId := u; VideoGrid.stream := s;
          VideoGrid.isVideo := bool_decide (0 < VideoGrid.videoTracks s) |}
       ∈ VideoGrid.mediaStreams details).
Proof.
  unfold VideoGrid.mediaStreams.
  assert (Hgen : ∀ prev,
    NoDup (map VideoGrid.userId prev) →
    (∀ e, e ∈ prev →
          VideoGrid.isVideo e
          = bool_decide (0 < VideoGrid.videoTracks (VideoGrid.stream e))) →
    let final := foldl (λ prev detail, VideoGrid.handleRemoteStream detail prev)
                   prev details in
    NoDup (map VideoGrid.userId final)
    ∧ (∀ u, u ∈ map VideoGrid.userId final
            ↔ u ∈ map fst details ∨ u ∈ map VideoGrid.userId prev)
    ∧ (∀ e, e ∈ final →
            VideoGrid.isVideo e
            = bool_decide (0 < VideoGrid.videoTracks (VideoGrid.stream e)))
    ∧ (∀ e, e ∈ prev → VideoGrid.userId e ∉ map fst details → e ∈ final)
    ∧ (∀ earlier u s later,
         details = earlier ++ (u, s) :: later →
         u ∉ map fst later →
         {| VideoGrid.userId := u; VideoGrid.stream := s;
            VideoGrid.isVideo := bool_decide (0 < VideoGrid.videoTracks s) |}
         ∈ final)).
  { induction details as [|[u0 s0] details IH]; intros prev Hnd Hvid; cbn zeta.
    - cbn [foldl map]. split_and!; try done.
      + intros u. split; [by right|]. intros [?%elem_of_nil|?]; done.
      + intros [|? ?] ? ? ? ?; done.
    - cbn [foldl].
      destruct (IH (VideoGrid.handleRemoteStream (u0, s0) prev))
        as (IHnd & IHu & IHvid & IHkeep & IHlast).
      { by apply handleRemoteStream_NoDup. }
      { intros e. unfold VideoGrid.handleRemoteStream.
        rewrite elem_of_app, list_elem_of_singleton.
        intros [He| ->]; [|done].
        apply list_elem_of_In, List.filter_In in He as [He _].
        by apply Hvid, list_elem_of_In. }
      split_and!.
      + done.
      + intros u. rewrite IHu, handleRemoteStream_users. cbn [map fst].
        rewrite elem_of_cons. tauto.
      + done.
      + intros e He Hne. cbn [map fst] in Hne.
        apply not_elem_of_cons in Hne as [Hne Hnin].
        apply IHkeep; [|done]. unfold VideoGrid.handleRemoteStream.
        apply elem_of_app. left. apply list_elem_of_In, List.filter_In.
        split; [by apply list_elem_of_In|]. by rewrite bool_decide_eq_false_2.
      + intros earlier u s later Heq Hlater.
        destruct earlier as [|d earlier]; cbn in Heq; simplify_eq.
        * apply IHkeep; [|done]. unfold VideoGrid.handleRemoteStream.
          apply elem_of_app. right. by apply list_elem_of_singleton.
        * by apply (IHlast earlier u s later). }
  destruct (Hgen [] (NoDup_nil_2)) as (Hnd & Hu & Hvid & _ & Hlast).
  { by intros e ?%elem_of_nil. }
  split_and!; [done| |done|done].
  intros u. rewrite Hu. split; [|by left].
  intros [?|?%elem_of_nil]; done.
Qed.

(** *** Sample inputs *)

Lemma name_form_request_is_accepted_witness :
  let after := App.handleSetUsername (App.mkApp "" " bob " false) Client.bob_ready in
  App.isUsernameSet after.1 = true
  ∧ Client.sent after.2 = [App.set_username_request "bob"]
  ∧ ∃ σh',
      step two_sockets
        (Message 1 false (Some (App.set_username_request "bob")) 2000 "k8l2q0xw1")
      = Some σh'
      ∧ clients σh' !! 1 = Some {| ci_username := "bob"; ci_userId := "k8l2q0xw1" |}.
Proof.
  destruct (name_form_request_is_accepted (App.mkApp "" " bob " false)
              Client.bob_ready two_sockets 1 2000 "k8l2q0xw1")
    as (Hset & Hsent & σh' & Hstep & Hc & _).
  - apply two_sockets_wf.
  - apply two_sockets_listening. lia.
  - discriminate.
  - split_and!; [exact Hset | exact Hsent |].
    exists σh'. split; [exact Hstep | exact Hc].
Defined.

Lemma chat_form_text_is_broadcast_witness :
  let after := App.handleSendMessage (App.mkApp " hi " "bob" true) Client.bob_ready in
  App.input after.1 = ""
  ∧ Client.sent after.2 = [App.chat_request "hi"]
  ∧ ∃ σh',
      step two_peers (Message 1 false (Some (App.chat_request "hi")) 3000 "") = Some σh'
      ∧ sent_by two_peers σh' =
          map (λ c, (c, chat_msg "bob" (JStr "hi") 3000)) (recipients None two_peers).
Proof.
  destruct (chat_form_text_is_broadcast (App.mkApp " hi " "bob" true)
              Client.bob_ready two_peers 1 3000 "")
    as (Hin & Hsent & σh' & Hstep & Hout & _).
  - apply two_peers_wf.
  - apply two_peers_listening. lia.
  - discriminate.
  - split_and!; [exact Hin | exact Hsent |].
    exists σh'. split; [exact Hstep | exact Hout].
Defined.

Lemma audio_indicator_follows_toggle_witness :
  ∃ σ',
    step two_peers (Message 0 false (Some (JObj [("type", JStr "audio_enabled")])) 3000 "")
      = Some σ'
    ∧ App.hasAudioEnabled (App.states (audio_states_msg (userAudioStates σ')))
        "4fzyo82mv" = true.
Proof.
  destruct (audio_indicator_follows_toggle two_peers 0
              (JObj [("type", JStr "audio_enabled")]) 3000 ""
              {| ci_username := "alice"; ci_userId := "4fzyo82mv" |} true)
    as (σ' & Hstep & _ & Hshown & _).
  - apply two_peers_reachable.
  - apply two_peers_listening. lia.
  - apply two_peers_alice.
  - reflexivity.
  - exists σ'. split; [exact Hstep | exact Hshown].
Defined.

End AppProps.
